(** * Pointer-driven interaction engine of gantt-schedule-timeline-calendar

    A shallow embedding of the two plugins that hold the interaction logic,
    and the properties proved of them:

    - [ItemMovement]         the ItemMovement plugin: per-item move / resize
                             state machine, collision validator, snapping and
                             commit;
    - [Selection]            src/plugins/Selection/Selection.plugin.ts:
                             selection rectangle, link closure, additive
                             selection, selection commit;
    - [ItemMovementProofs], [SelectionProofs]  the properties.

    Conventions of the embedding.

    - JavaScript numbers that hold times (milliseconds) and pixel offsets are
      integers of [Z]; the fractional and NaN values of doubles are outside
      the model.
    - Objects of the reactive store are held in finite maps keyed by their
      path component (item id, row id).  An object that the code mutates in
      place and reaches through several references is kept in one place (the
      movement table, the item store) and the references are its key.
    - A handler of ItemMovement that would raise an uncaught exception (a
      property read on [undefined], a failing [removeChild]) has no result:
      the handlers return [option].  The state that an interrupted handler
      leaves behind is not modelled.
    - The recursion of the Selection plugin is bounded by a fuel; its
      functions return a [Result] that tells a raised exception from
      exhausted fuel. *)

From Stdlib Require Import ZArith Lia.
From stdpp Require Import gmap strings list fin_maps.

Local Open Scope Z_scope.

(** * The ItemMovement plugin *)

Module ItemMovement.

(** ** Data model *)

(** [item.time]: the interval of an item. *)
Module Time.
Record t := mk { start : Z; end_ : Z }.
End Time.

(** What a snap function may read of the item it is given as third argument
    (the item's own snap functions are left out: a record cannot hold functions
    over itself). *)
Module ItemInfo.
Record t := mk { id : string; time : Time.t; rowId : string }.
End ItemInfo.

(** [moveable]: a boolean, an axis name, or the list of the row ids an item
    may be moved to.  [truthy] is JavaScript's conversion to a boolean. *)
Inductive Moveable :=
| MBool (b : bool)
| MAxis (axis : string)
| MRows (rowIds : list string).

Definition truthy (m : Moveable) : bool :=
  match m with
  | MBool b => b
  | MAxis axis => negb (bool_decide (axis = EmptyString))
  | MRows _ => true
  end.

(** [(time, diff, item) => number]. *)
Definition SnapFn : Type := Z -> Z -> ItemInfo.t -> Z.

(** The fields of an item that the plugin reads.  An own property that may be
    absent ([hasOwnProperty], [typeof ... === 'function']) is an [option]. *)
Module Item.
Record t := mk {
  id : string;
  time : Time.t;
  rowId : string;
  moveable : option Moveable;
  resizable : option bool;
  snapStart : option SnapFn;
  snapEnd : option SnapFn
}.
Definition info (i : t) : ItemInfo.t := ItemInfo.mk (id i) (time i) (rowId i).
Definition setTime (i : t) (tm : Time.t) : t :=
  mk (id i) tm (rowId i) (moveable i) (resizable i) (snapStart i) (snapEnd i).
Definition setRowId (i : t) (r : string) : t :=
  mk (id i) (time i) r (moveable i) (resizable i) (snapStart i) (snapEnd i).
End Item.

(** A row: its id, its optional [moveable] and [resizable] overrides, its top
    offset in the list of visible rows and [row._internal.items], the
    renderer's cache of the items it contains. *)
Module Row.
Record t := mk {
  id : string;
  moveable : option Moveable;
  resizable : option bool;
  top : Z;
  items : list Item.t
}.
End Row.

(** The plugin options after the defaults were merged in. *)
Module Options.
Record t := mk {
  moveable : Moveable;
  resizable : bool;
  collisionDetection : bool;
  outOfBorders : bool;
  snapStart : SnapFn;
  snapEnd : SnapFn;
  ghostNode : bool
}.
End Options.

(** [defaultOptions] (the fields above). *)
Definition defaultOptions : Options.t :=
  Options.mk (MBool true) true true false
    (fun timeStart startDiff _ => timeStart + startDiff)
    (fun timeEnd endDiff _ => timeEnd + endDiff)
    true.

(** The ghost element with the two style properties the plugin keeps
    rewriting; [node] is the identity of the DOM node. *)
Module Ghost.
Record t := mk { node : nat; left : Z; top : Z }.
End Ghost.

(** [Movement]: the per-item record.  [itemX] is written by the down handlers
    from a floating-point division and read nowhere; it is not modelled. *)
Module Movement.
Record t := mk {
  moving : bool;
  resizing : bool;
  waiting : bool;
  ghost : option Ghost.t;
  itemTop : option Z;
  ganttTop : option Z;
  ganttLeft : option Z
}.
(** [{ moving: false, resizing: false, waiting: false }] *)
Definition fresh : t := mk false false false None None None None.
End Movement.

(** [_internal.chart.time]. *)
Module ChartTime.
Record t := mk { from : Z; to : Z; leftGlobal : Z; timePerPixel : Z }.
End ChartTime.

(** The three flags republished under [config.plugin.ItemMovement.movement]. *)
Module Summary.
Record t := mk { moving : bool; waiting : bool; resizing : bool }.
End Summary.

(** Everything the handlers read and write: the slice of the reactive store,
    the plugin's [movementState] table and the children that the plugin
    appended to the chart-timeline element.

    [movementState] is a JavaScript object used as a table.  It is an
    association list with one entry per key, in the order in which [for ... in]
    enumerates the keys: array indices first, in ascending order, then the
    other keys in the order of their creation.
    [timelineChildren] lists the node identities of the ghosts appended to
    the chart-timeline element, [timelineRect] is the (left, top) of its
    bounding rectangle and [nextNode] the identity that the next cloned node
    gets. *)
Module State.
Record t := mk {
  time : ChartTime.t;
  rows : gmap string Row.t;
  visibleRows : list Row.t;
  items : gmap string Item.t;
  movementState : list (string * Movement.t);
  timelineChildren : list nat;
  timelineRect : Z * Z;
  nextNode : nat;
  pluginItem : option (string * Movement.t);
  pluginMovement : option Summary.t
}.
Definition setMovementState (s : t) (ms : list (string * Movement.t)) : t :=
  mk (time s) (rows s) (visibleRows s) (items s) ms (timelineChildren s)
     (timelineRect s) (nextNode s) (pluginItem s) (pluginMovement s).
Definition setItems (s : t) (its : gmap string Item.t) : t :=
  mk (time s) (rows s) (visibleRows s) its (movementState s)
     (timelineChildren s) (timelineRect s) (nextNode s) (pluginItem s)
     (pluginMovement s).
Definition setTimeline (s : t) (c : list nat) (n : nat) : t :=
  mk (time s) (rows s) (visibleRows s) (items s) (movementState s) c
     (timelineRect s) n (pluginItem s) (pluginMovement s).
Definition setPlugin (s : t) (pi : option (string * Movement.t))
  (pm : option Summary.t) : t :=
  mk (time s) (rows s) (visibleRows s) (items s) (movementState s)
     (timelineChildren s) (timelineRect s) (nextNode s) pi pm.
End State.

(** ** The collision validator *)

(** Modelled from the spec: [api.time.date(end).diff(start, 'milliseconds')]
    belongs to the time API, which is not part of the plugin; the spec calls
    the value "the proposed interval's duration", the difference of the two
    millisecond timestamps. *)
Definition date_diff (end_ start : Z) : Z := end_ - start.

(** The three tests of the loop body of [isCollision] against one row item. *)
Definition hits (rowItem : Item.t) (start end_ : Z) : bool :=
  let rs := Time.start (Item.time rowItem) in
  let re := Time.end_ (Item.time rowItem) in
  if (rs <=? start) && (start <=? re) then true
  else if (rs <=? end_) && (end_ <=? re) then true
  else if (start <=? rs) && (re <=? end_) then true
  else false.

(** [for (const rowItem of row._internal.items)] with its early returns. *)
Fixpoint scanRow (rowItems : list Item.t) (itemId : string) (start end_ : Z)
  : bool :=
  match rowItems with
  | [] => false
  | rowItem :: rest =>
      if bool_decide (Item.id rowItem <> itemId) then
        if hits rowItem start end_ then true
        else scanRow rest itemId start end_
      else scanRow rest itemId start end_
  end.

(** [isCollision(rowId, itemId, start, end)].  The row is looked up only when
    the three earlier tests did not return; an unknown row id makes
    [row._internal] a read on [undefined]. *)
Definition isCollision (options : Options.t) (st : State.t)
  (rowId itemId : string) (start end_ : Z) : option bool :=
  if negb (Options.collisionDetection options) then Some false
  else
    let time := State.time st in
    if Options.outOfBorders options
       && ((start <? ChartTime.from time) || (ChartTime.to time <? end_))
    then Some true
    else
      let diff := date_diff end_ start in
      let diff := if Z.sgn diff =? -1 then - diff else diff in
      if diff <=? 1 then Some true
      else
        row ← State.rows st !! rowId;
        Some (scanRow (Row.items row) itemId start end_).

(** The overlap relation of the spec, "under inclusive-boundary comparison":
    the proposed start or end falls within the other interval, or the proposed
    interval contains it. *)
Definition overlaps (other : Time.t) (start end_ : Z) : Prop :=
  (Time.start other <= start <= Time.end_ other)
  \/ (Time.start other <= end_ <= Time.end_ other)
  \/ (start <= Time.start other /\ Time.end_ other <= end_).

(** Some item of the row other than [itemId] overlaps the proposal. *)
Definition otherOverlaps (row : Row.t) (itemId : string) (start end_ : Z)
  : Prop :=
  exists other, other ∈ Row.items row /\ Item.id other <> itemId
                /\ overlaps (Item.time other) start end_.

(** The proposal leaves the global time range. *)
Definition outside (st : State.t) (start end_ : Z) : Prop :=
  start < ChartTime.from (State.time st) \/ ChartTime.to (State.time st) < end_.

(** ** The movement table *)

(** [movementState[itemId]]. *)
Fixpoint lookupMovement (ms : list (string * Movement.t)) (itemId : string)
  : option Movement.t :=
  match ms with
  | [] => None
  | (k, m) :: rest =>
      if bool_decide (k = itemId) then Some m else lookupMovement rest itemId
  end.

(** [movementState] is a plain object, and [for (const itemId in
    movementState)] visits its keys as the engine orders own properties: the
    keys that spell an array index (the decimal numeral, without leading
    zero, of an integer from 0 to 2^32 - 2) first, in ascending numeric
    order, and behind them the other keys in the order in which they were
    created.  The table lists its entries in that order. *)

(** The digit that a character spells. *)
Definition digit (c : Ascii.ascii) : option Z :=
  let n := Z.of_N (Ascii.N_of_ascii c) in
  if (48 <=? n) && (n <=? 57) then Some (n - 48) else None.

(** The number that a string of digits spells, after the digits [acc]. *)
Fixpoint numeral (acc : Z) (s : string) : option Z :=
  match s with
  | EmptyString => Some acc
  | String c rest => d ← digit c; numeral (10 * acc + d) rest
  end.

(** The array index that a property key spells, if it spells one. *)
Definition arrayIndex (key : string) : option Z :=
  match key with
  | EmptyString => None
  | String c rest =>
      if (Z.of_N (Ascii.N_of_ascii c) =? 48)
         && negb (bool_decide (rest = EmptyString))
      then None
      else
        n ← numeral 0 key;
        if n <=? 4294967294 then Some n else None
  end.

(** A new key [key] is visited before the existing key [k]. *)
Definition precedes (key k : string) : bool :=
  match arrayIndex key, arrayIndex k with
  | Some n, Some n0 => n <? n0
  | Some _, None => true
  | None, _ => false
  end.

(** The keys are listed in the order of enumeration: no key is listed behind
    a key that it is visited before. *)
Fixpoint enumerated (keys : list string) : Prop :=
  match keys with
  | [] => True
  | k :: rest => (forall x, x ∈ rest -> precedes x k = false) /\ enumerated rest
  end.

(** A write to the record of a key that the table has: the entry keeps its
    place. *)
Fixpoint replaceMovement (ms : list (string * Movement.t)) (itemId : string)
  (m : Movement.t) : list (string * Movement.t) :=
  match ms with
  | [] => []
  | (k, m0) :: rest =>
      if bool_decide (k = itemId) then (k, m) :: rest
      else (k, m0) :: replaceMovement rest itemId m
  end.

(** The creation of a key: the entry goes before the first key that is
    visited after it, and last when there is none. *)
Fixpoint insertMovement (ms : list (string * Movement.t)) (itemId : string)
  (m : Movement.t) : list (string * Movement.t) :=
  match ms with
  | [] => [(itemId, m)]
  | (k, m0) :: rest =>
      if precedes itemId k then (itemId, m) :: (k, m0) :: rest
      else (k, m0) :: insertMovement rest itemId m
  end.

(** A write through a reference to the record kept under [itemId]: the record
    objects are shared between the table and the handlers that hold them, so
    every field assignment is a write into the table. *)
Definition storeMovement (ms : list (string * Movement.t)) (itemId : string)
  (m : Movement.t) : list (string * Movement.t) :=
  match lookupMovement ms itemId with
  | Some _ => replaceMovement ms itemId m
  | None => insertMovement ms itemId m
  end.

Definition setMovement (st : State.t) (itemId : string) (m : Movement.t)
  : State.t :=
  State.setMovementState st (storeMovement (State.movementState st) itemId m).

(** The element an action is attached to, as far as [createGhost] and
    [moveGhost] read it: [offsetTop] and the parsed [margin-top]. *)
Module Element.
Record t := mk { offsetTop : Z; marginTop : Z }.
End Element.

(** [data]: the item and the row the action was created or last updated
    with. *)
Module Data.
Record t := mk { item : Item.t; row : Row.t }.
End Data.

(** A pointer event. *)
Module Event.
Record t := mk { type : string; button : Z; clientX : Z; clientY : Z }.
End Event.

Definition setFlags (m : Movement.t) (moving resizing waiting : bool)
  : Movement.t :=
  Movement.mk moving resizing waiting (Movement.ghost m) (Movement.itemTop m)
    (Movement.ganttTop m) (Movement.ganttLeft m).

Definition setGhost (m : Movement.t) (g : option Ghost.t) : Movement.t :=
  Movement.mk (Movement.moving m) (Movement.resizing m) (Movement.waiting m) g
    (Movement.itemTop m) (Movement.ganttTop m) (Movement.ganttLeft m).

Definition setItemTop (m : Movement.t) (itemTop : Z) : Movement.t :=
  Movement.mk (Movement.moving m) (Movement.resizing m) (Movement.waiting m)
    (Movement.ghost m) (Some itemTop) (Movement.ganttTop m)
    (Movement.ganttLeft m).

Definition setGantt (m : Movement.t) (ganttTop ganttLeft : Z) : Movement.t :=
  Movement.mk (Movement.moving m) (Movement.resizing m) (Movement.waiting m)
    (Movement.ghost m) (Movement.itemTop m) (Some ganttTop) (Some ganttLeft).

(** ** One action: the handlers attached to one item element

    The handlers are closures over the plugin [options], the [element] and
    the [data] of the action. *)
Section ItemAction.

Variable options : Options.t.
Variable element : Element.t.
Variable data : Data.t.

Definition isMoveable (data : Data.t) : Moveable :=
  let moveable := Options.moveable options in
  let moveable :=
    match Item.moveable (Data.item data) with
    | Some m => if truthy moveable then m else moveable
    | None => moveable
    end in
  match Row.moveable (Data.row data) with
  | Some m => if truthy moveable then m else moveable
  | None => moveable
  end.

Definition isResizable (data : Data.t) : bool :=
  let resizable :=
    Options.resizable options
    && match Item.resizable (Data.item data) with
       | None => true
       | Some b => b
       end in
  match Row.resizable (Data.row data) with
  | Some b => if resizable then b else resizable
  | None => resizable
  end.

(** [getMovement(data)]: the record of the item, created on first access. *)
Definition getMovement (st : State.t) (data : Data.t)
  : State.t * Movement.t :=
  let itemId := Item.id (Data.item data) in
  match lookupMovement (State.movementState st) itemId with
  | Some m => (st, m)
  | None => (setMovement st itemId Movement.fresh, Movement.fresh)
  end.

(** [saveMovement(itemId, movement)]: publishes a copy of the record and the
    three flags of the summary. *)
Definition saveMovement (st : State.t) (itemId : string) (movement : Movement.t)
  : State.t :=
  State.setPlugin st (Some (itemId, movement))
    (Some (Summary.mk (Movement.moving movement) (Movement.waiting movement)
             (Movement.resizing movement))).

(** [createGhost(data, normalized, ganttLeft, ganttTop)]. *)
Definition createGhost (st : State.t) (normalized : Event.t)
  (ganttLeft ganttTop : Z) : State.t :=
  let '(st, movement) := getMovement st data in
  if negb (Options.ghostNode options) || bool_decide (is_Some (Movement.ghost movement))
  then st
  else
    let itemId := Item.id (Data.item data) in
    let left := Event.clientX normalized - ganttLeft in
    let itemTop := Event.clientY normalized - ganttTop
                   - Element.offsetTop element + Element.marginTop element in
    let movement := setItemTop movement itemTop in
    let top := Event.clientY normalized - ganttTop - itemTop in
    let ghost := Ghost.mk (State.nextNode st) left top in
    let st := State.setTimeline st
                (State.timelineChildren st ++ [State.nextNode st])
                (S (State.nextNode st)) in
    let movement := setGhost movement (Some ghost) in
    let st := setMovement st itemId movement in
    saveMovement st itemId movement.

(** [moveGhost(data, normalized)].  With the ghost enabled, a record without a
    ghost makes [movement.ghost.style] a read on [undefined]; a record without
    the captured offsets would give NaN positions, which are outside the
    model. *)
Definition moveGhost (st : State.t) (normalized : Event.t) : option State.t :=
  if Options.ghostNode options then
    let '(st, movement) := getMovement st data in
    ganttLeft ← Movement.ganttLeft movement;
    let left := Event.clientX normalized - ganttLeft in
    ghost ← Movement.ghost movement;
    ganttTop ← Movement.ganttTop movement;
    itemTop ← Movement.itemTop movement;
    let top := Event.clientY normalized - ganttTop - itemTop
               + Element.marginTop element in
    let movement := setGhost movement (Some (Ghost.mk (Ghost.node ghost) left top)) in
    let itemId := Item.id (Data.item data) in
    Some (saveMovement (setMovement st itemId movement) itemId movement)
  else Some st.

(** [parent.removeChild(node)]: a [NotFoundError] when [node] is not a
    child. *)
Fixpoint removeChild (children : list nat) (node : nat) : option (list nat) :=
  match children with
  | [] => None
  | c :: rest =>
      if bool_decide (c = node) then Some rest
      else cons c <$> removeChild rest node
  end.

(** [destroyGhost(itemId)].  The record is saved under [data.item.id], the
    item of the action, whatever [itemId] is. *)
Definition destroyGhost (st : State.t) (itemId : string) : option State.t :=
  if negb (Options.ghostNode options) then Some st
  else
    match lookupMovement (State.movementState st) itemId with
    | Some movement =>
        match Movement.ghost movement with
        | Some ghost =>
            children ← removeChild (State.timelineChildren st) (Ghost.node ghost);
            let st := State.setTimeline st children (State.nextNode st) in
            let movement := setGhost movement None in
            let st := setMovement st itemId movement in
            Some (saveMovement st (Item.id (Data.item data)) movement)
        | None => Some st
        end
    | None => Some st
    end.

Definition getSnapStart (data : Data.t) : SnapFn :=
  match Item.snapStart (Data.item data) with
  | Some snapStart => snapStart
  | None => Options.snapStart options
  end.

Definition getSnapEnd (data : Data.t) : SnapFn :=
  match Item.snapEnd (Data.item data) with
  | Some snapEnd => snapEnd
  | None => Options.snapEnd options
  end.

(** [(ev.type === 'pointerdown' || ev.type === 'mousedown') && ev.button !== 0] *)
Definition notPrimary (ev : Event.t) : bool :=
  (bool_decide (Event.type ev = "pointerdown")
   || bool_decide (Event.type ev = "mousedown"))
  && negb (Event.button ev =? 0).

(** [labelDown(ev)], up to [setTimeout]: the second component tells whether
    the timer was armed.  The callback is [labelTimer] below; it holds the
    record of [data.item.id] and the event [ev]. *)
Definition labelDown (st : State.t) (ev : Event.t) : State.t * bool :=
  if notPrimary ev then (st, false)
  else
    let '(st, movement) := getMovement st data in
    let itemId := Item.id (Data.item data) in
    let movement := setFlags movement (Movement.moving movement)
                      (Movement.resizing movement) true in
    let st := setMovement st itemId movement in
    (saveMovement st itemId movement, true).

(** The callback that [labelDown] hands to [setTimeout(..., options.wait)],
    run when the timer fires.  [movement] is the record that [labelDown]
    held: the one kept under [data.item.id]. *)
Definition labelTimer (st : State.t) (ev : Event.t) : option State.t :=
  let itemId := Item.id (Data.item data) in
  movement ← lookupMovement (State.movementState st) itemId;
  if negb (Movement.waiting movement) then Some st
  else
    let movement := setFlags movement true (Movement.resizing movement)
                      (Movement.waiting movement) in
    item ← State.items st !! itemId;
    let '(rectLeft, rectTop) := State.timelineRect st in
    let movement := setGantt movement rectTop rectLeft in
    let st := setMovement st itemId movement in
    let st := saveMovement st itemId movement in
    Some (createGhost st ev rectLeft rectTop).

(** [resizerDown(ev)]. *)
Definition resizerDown (st : State.t) (ev : Event.t) : option State.t :=
  if notPrimary ev then Some st
  else
    let '(st, movement) := getMovement st data in
    let itemId := Item.id (Data.item data) in
    let movement := setFlags movement (Movement.moving movement) true
                      (Movement.waiting movement) in
    item ← State.items st !! itemId;
    let '(rectLeft, rectTop) := State.timelineRect st in
    let movement := setGantt movement rectTop rectLeft in
    let st := setMovement st itemId movement in
    Some (saveMovement st itemId movement).

(** [state.update(`config.chart.items.${data.item.id}.time`, reducer)]. *)
Definition updateItemTime (st : State.t) (reducer : Time.t -> Time.t)
  : State.t :=
  State.setItems st
    (alter (fun i => Item.setTime i (reducer (Item.time i)))
       (Item.id (Data.item data)) (State.items st)).

(** The interval that the reducer [moveItem] of [movementX] returns.  [item]
    is the store object whose [time] the reducer rewrites in place, so the
    end-snap function sees the item with its start already moved. *)
Definition moveItem (item : Item.t) (finalAdd : Z) (time : Time.t) : Time.t :=
  let start := Time.start time + finalAdd in
  let item := Item.setTime item (Time.mk start (Time.end_ time)) in
  Time.mk start
    (getSnapEnd data (Time.end_ time) finalAdd (Item.info item) - 1).

(** [movementX(normalized, row, item, zoom, timePerPixel)]; [zoom] is not
    read. *)
Definition movementX (st : State.t) (normalized : Event.t) (row : Row.t)
  (item : Item.t) (timePerPixel : Z) : option State.t :=
  let '(st, movement) := getMovement st data in
  ganttLeft ← Movement.ganttLeft movement;
  let left := Event.clientX normalized - ganttLeft in
  st ← moveGhost st normalized;
  let leftMs := ChartTime.leftGlobal (State.time st) + left * timePerPixel in
  let add := leftMs - Time.start (Item.time item) in
  let originalStart := Time.start (Item.time item) in
  let finalStartTime :=
    getSnapStart data (Time.start (Item.time item)) add (Item.info item) in
  let finalAdd := finalStartTime - originalStart in
  collision ← isCollision options st (Row.id row) (Item.id item)
                 (Time.start (Item.time item) + finalAdd)
                 (Time.end_ (Item.time item) + finalAdd);
  if negb (finalAdd =? 0) && negb collision
  then Some (updateItemTime st (moveItem item finalAdd))
  else Some st.

(** The interval that the reducer of [resizeX] returns; the same sharing as
    in [moveItem]. *)
Definition resizeItem (item : Item.t) (finalAdd : Z) (time : Time.t) : Time.t :=
  let start := getSnapStart data (Time.start time) 0 (Item.info item) in
  let item := Item.setTime item (Time.mk start (Time.end_ time)) in
  Time.mk start
    (getSnapEnd data (Time.end_ time) finalAdd (Item.info item) - 1).

(** [resizeX(normalized, row, item, zoom, timePerPixel)]. *)
Definition resizeX (st : State.t) (normalized : Event.t) (row : Row.t)
  (item : Item.t) (timePerPixel : Z) : option State.t :=
  if negb (isResizable data) then Some st
  else
    let time := State.time st in
    let '(st, movement) := getMovement st data in
    ganttLeft ← Movement.ganttLeft movement;
    let left := Event.clientX normalized - ganttLeft in
    let leftMs := ChartTime.leftGlobal time + left * timePerPixel in
    let add := leftMs - Time.end_ (Item.time item) in
    if Time.end_ (Item.time item) + add <? Time.start (Item.time item)
    then Some st
    else
      let originalEnd := Time.end_ (Item.time item) in
      let finalEndTime :=
        getSnapEnd data (Time.end_ (Item.time item)) add (Item.info item) - 1 in
      let finalAdd := finalEndTime - originalEnd in
      collision ← isCollision options st (Row.id row) (Item.id item)
                     (Time.start (Item.time item))
                     (Time.end_ (Item.time item) + finalAdd);
      if negb (finalAdd =? 0) && negb collision
      then Some (updateItemTime st (resizeItem item finalAdd))
      else Some st.

(** The loop of [movementY] over the visible rows. *)
Fixpoint rowIndexAt (visibleRows : list Row.t) (top : Z) (index : nat) : nat :=
  match visibleRows with
  | [] => index
  | currentRow :: rest =>
      if top <? Row.top currentRow then Nat.pred index
      else rowIndexAt rest top (S index)
  end.

(** [movementY(normalized, row, item, zoom, timePerPixel)]: the state after
    [moveGhost] and the index found. *)
Definition movementY (st : State.t) (normalized : Event.t)
  : option (State.t * nat) :=
  st ← moveGhost st normalized;
  let '(st, movement) := getMovement st data in
  ganttTop ← Movement.ganttTop movement;
  let top := Event.clientY normalized - ganttTop in
  Some (st, rowIndexAt (State.visibleRows st) top 0).

Definition includesRow (moveable : Moveable) (rowId : string) : bool :=
  match moveable with
  | MRows rowIds => bool_decide (rowId ∈ rowIds)
  | _ => false
  end.

Definition isArray (moveable : Moveable) : bool :=
  match moveable with MRows _ => true | _ => false end.

(** [state.update(`config.chart.items.${item.id}.rowId`, newRowId)]. *)
Definition updateItemRow (st : State.t) (itemId newRowId : string) : State.t :=
  State.setItems st
    (alter (fun i => Item.setRowId i newRowId) itemId (State.items st)).

(** The part of [documentMove] after [movementX]: the change of row. *)
Definition moveRow (st : State.t) (ev : Event.t) (moveable : Moveable)
  : option State.t :=
  '(st, visibleRowsIndex) ← movementY st ev;
  (* [item] is the store object: it shows what [movementX] committed *)
  item ← State.items st !! Item.id (Data.item data);
  let visibleRows := State.visibleRows st in
  let visibleRowsIndex :=
    match visibleRows !! visibleRowsIndex with
    | Some _ => visibleRowsIndex
    | None => if (0 <? visibleRowsIndex)%nat
              then (length visibleRows - 1)%nat else visibleRowsIndex
    end in
  newRow ← visibleRows !! visibleRowsIndex;
  let newRowId := Row.id newRow in
  collision ← isCollision options st newRowId (Item.id item)
                 (Time.start (Item.time item)) (Time.end_ (Item.time item));
  if negb (bool_decide (newRowId = Item.rowId item)) && negb collision
     && (negb (isArray moveable) || includesRow moveable newRowId)
     && match Row.moveable newRow with
        | None => true
        | Some m => truthy m
        end
  then Some (updateItemRow st (Item.id item) newRowId)
  else Some st.

(** [documentMove(ev)]. *)
Definition documentMove (st : State.t) (ev : Event.t) : option State.t :=
  let '(st, movement) := getMovement st data in
  let active := Movement.moving movement || Movement.resizing movement in
  let item := if active then State.items st !! Item.id (Data.item data)
              else None in
  let row := item ≫= fun i => State.rows st !! Item.rowId i in
  let timePerPixel := ChartTime.timePerPixel (State.time st) in
  let moveable := isMoveable data in
  if Movement.moving movement then
    st ← (if match moveable with
             | MBool true => true
             | MAxis axis => bool_decide (axis = "x")
             | MRows rowIds =>
                 match item with
                 | Some i => bool_decide (Item.rowId i ∈ rowIds)
                 | None => false
                 end
             | _ => false
             end
          then item ← item; row ← row; movementX st ev row item timePerPixel
          else Some st);
    if negb (truthy moveable)
       || match moveable with MAxis axis => bool_decide (axis = "x") | _ => false end
    then Some st
    else moveRow st ev moveable
  else if Movement.resizing movement then
    item ← item;
    if match Item.resizable item with None => true | Some b => b end
    then row ← row; resizeX st ev row item timePerPixel
    else Some st
  else Some st.

(** The body of the [for (const itemId in movementState)] loop of
    [documentUp]. *)
Definition resetMovement (st : State.t) (itemId : string) : option State.t :=
  movement ← lookupMovement (State.movementState st) itemId;
  let st := setMovement st itemId (setFlags movement false false false) in
  destroyGhost st itemId.

Fixpoint resetAll (st : State.t) (itemIds : list string) : option State.t :=
  match itemIds with
  | [] => Some st
  | itemId :: rest => st ← resetMovement st itemId; resetAll st rest
  end.

(** [documentUp(ev)]. *)
Definition documentUp (st : State.t) (ev : Event.t) : option State.t :=
  let '(st, movement) := getMovement st data in
  if Movement.moving movement || Movement.resizing movement
     || Movement.waiting movement
  then
    let itemId := Item.id (Data.item data) in
    let movement := setFlags movement false false false in
    let st := setMovement st itemId movement in
    let st := saveMovement st itemId movement in
    resetAll st (State.movementState st).*1
  else Some st.

End ItemAction.

(** ** Pointer-up and the timer, over all attached actions *)

(** [document.addEventListener('pointerup', documentUp)] is called once per
    action: a pointer-up runs the [documentUp] of every attached action, in
    the order of attachment.  An action is given by its [data]. *)
Fixpoint pointerUp (options : Options.t) (actions : list Data.t)
  (st : State.t) (ev : Event.t) : option State.t :=
  match actions with
  | [] => Some st
  | data :: rest =>
      st ← documentUp options data st ev; pointerUp options rest st ev
  end.

(** The test of [documentUp]: the record is in one of the three phases. *)
Definition active (m : Movement.t) : bool :=
  Movement.moving m || Movement.resizing m || Movement.waiting m.

(** The ghost nodes that the records of a table hold. *)
Definition ghostNodes (ms : list (string * Movement.t)) : list nat :=
  omap (fun e => Ghost.node <$> Movement.ghost e.2) ms.

(** The ghost of one record, as a list of at most one node. *)
Definition ghostOf (m : Movement.t) : list nat :=
  option_list (Ghost.node <$> Movement.ghost m).

(** The states that the handlers produce: the table has one entry per key,
    the ghosts appended to the timeline are exactly the ghosts of the records,
    no two records share a ghost, there is no ghost when ghosts are disabled,
    and the node identities in use are below the next one. *)
Definition wellFormedParts (options : Options.t)
  (ms : list (string * Movement.t)) (children : list nat) (next : nat) : Prop :=
  NoDup ms.*1
  /\ NoDup children
  /\ (forall n, n ∈ children <-> n ∈ ghostNodes ms)
  /\ NoDup (ghostNodes ms)
  /\ (Options.ghostNode options = false -> ghostNodes ms = [])
  /\ (forall n, n ∈ children -> (n < next)%nat).

Definition wellFormed (options : Options.t) (st : State.t) : Prop :=
  wellFormedParts options (State.movementState st) (State.timelineChildren st)
    (State.nextNode st).


(** What [documentUp] makes of one record. *)
Definition cleared (m : Movement.t) : Movement.t :=
  setGhost (setFlags m false false false) None.

(** ** The events of one action, and the states they lead to *)

(** What can happen to an action: its handlers are called, and the timer that
    [labelDown] armed fires. *)
Inductive Input :=
| LabelDown (ev : Event.t)
| LabelTimer (ev : Event.t)
| ResizerDown (ev : Event.t)
| DocumentMove (ev : Event.t)
| DocumentUp (ev : Event.t).

Definition handle (options : Options.t) (element : Element.t) (data : Data.t)
  (input : Input) (st : State.t) : option State.t :=
  match input with
  | LabelDown ev => Some (labelDown data st ev).1
  | LabelTimer ev => labelTimer options element data st ev
  | ResizerDown ev => resizerDown data st ev
  | DocumentMove ev => documentMove options element data st ev
  | DocumentUp ev => documentUp options data st ev
  end.

(** The host's part of a state: the chart time, the rows, the items and the
    place of the timeline.  The host may replace it between two events. *)
Definition withHost (host st : State.t) : State.t :=
  State.mk (State.time host) (State.rows host) (State.visibleRows host)
    (State.items host) (State.movementState st) (State.timelineChildren st)
    (State.timelineRect host) (State.nextNode st) (State.pluginItem st)
    (State.pluginMovement st).

(** A state of a freshly initialised plugin: nothing is tracked yet. *)
Definition initial (st : State.t) : Prop :=
  State.movementState st = [] /\ State.timelineChildren st = [].

(** The states that a plugin goes through: from an initial state, by the
    handlers of any action and by changes of the host. *)
Inductive reachableState (options : Options.t) : State.t -> Prop :=
| reachable_initial st :
    initial st -> reachableState options st
| reachable_handle st st' element data input :
    reachableState options st ->
    handle options element data input st = Some st' ->
    reachableState options st'
| reachable_host st host :
    reachableState options st ->
    reachableState options (withHost host st).





(** The handlers that only touch movement records, ghosts and the published
    summary leave the chart time, the rows and the items as they are. *)
Definition sameStore (st st' : State.t) : Prop :=
  State.time st' = State.time st
  /\ State.rows st' = State.rows st
  /\ State.visibleRows st' = State.visibleRows st
  /\ State.items st' = State.items st.

(** ** Example data: the scenario of the spec

    Row [R1] holds [I1] on [100, 200] and [I2] on [240, 300]; the visible time
    range is [0, 1000] and one pixel is one time unit. *)

Definition plainItem (id : string) (start end_ : Z) (rowId : string) : Item.t :=
  Item.mk id (Time.mk start end_) rowId None None None None.

Definition plainRow (id : string) (items : list Item.t) : Row.t :=
  Row.mk id None None 0 items.

Definition I1 : Item.t := plainItem "I1" 100 200 "R1".
Definition I2 : Item.t := plainItem "I2" 240 300 "R1".
Definition R1 : Row.t := plainRow "R1" [I1; I2].

Definition exampleState (ms : list (string * Movement.t)) (children : list nat)
  : State.t :=
  State.mk (ChartTime.mk 0 1000 0 1) {[ "R1" := R1 ]} [R1]
    {[ "I1" := I1; "I2" := I2 ]} ms children (0, 0) (length children)
    None None.

Definition plainElement : Element.t := Element.mk 0 0.

(** A pointer event at pixel column [x]. *)
Definition pointerAt (x : Z) : Event.t := Event.mk "pointermove" 0 x 0.

(** The record of an item that is being moved, with its ghost attached. *)
Definition draggedMovement : Movement.t :=
  Movement.mk true false true (Some (Ghost.mk 0 0 0)) (Some 0) (Some 0) (Some 0).

(** [I1] is being moved. *)
Definition dragState : State.t := exampleState [("I1", draggedMovement)] [0%nat].

(** The record of an item that is being resized. *)
Definition resizedMovement : Movement.t :=
  Movement.mk false true false None None (Some 0) (Some 0).

(** [I1] is being resized. *)
Definition resizeState : State.t := exampleState [("I1", resizedMovement)] [].

(** The default options with collision detection switched off. *)
Definition noDetection : Options.t :=
  Options.mk (MBool true) true false false
    (Options.snapStart defaultOptions) (Options.snapEnd defaultOptions) true.

(** An item on [150, 400], alone in its row, whose own start-snap function
    rounds up to the next multiple of 100; it is being resized. *)
Definition snappedItem : Item.t :=
  Item.mk "I3" (Time.mk 150 400) "R3" None None
    (Some (fun timeStart startDiff _ => 100 * ((timeStart + startDiff + 99) / 100)))
    None.
Definition snappedRow : Row.t := plainRow "R3" [snappedItem].
Definition snappedState : State.t :=
  State.mk (ChartTime.mk 0 1000 0 1) {[ "R3" := snappedRow ]} [snappedRow]
    {[ "I3" := snappedItem ]} [("I3", resizedMovement)] [] (0, 0) 0 None None.

(** A primary-button pointer-down at pixel column [x]. *)
Definition pointerDown (x : Z) : Event.t := Event.mk "pointerdown" 0 x 0.





(** The time under the pointer: [leftGlobal + left * timePerPixel]. *)
Definition pointerTime (st : State.t) (ganttLeft : Z) (ev : Event.t) : Z :=
  ChartTime.leftGlobal (State.time st)
  + (Event.clientX ev - ganttLeft) * ChartTime.timePerPixel (State.time st).

(** [collides], as the validator decides it: detection is enabled, and the
    proposal leaves the time range while out-of-border rejection is enabled,
    or its two ends are at most one time unit apart, or another item of the
    row overlaps it. *)
Definition collides (options : Options.t) (st : State.t) (row : Row.t)
  (itemId : string) (start end_ : Z) : Prop :=
  Options.collisionDetection options = true
  /\ ((Options.outOfBorders options = true /\ outside st start end_)
      \/ Z.abs (date_diff end_ start) <= 1
      \/ otherOverlaps row itemId start end_).


(** ** Notions used to state further properties *)

(** The proposal and the interval [other] have a point of time in common. *)
Definition sharesPoint (other : Time.t) (start end_ : Z) : Prop :=
  exists x, start <= x <= end_ /\ Time.start other <= x <= Time.end_ other.

(** The keys of the movement table, in the order of enumeration. *)
Definition trackedItems (st : State.t) : list string :=
  (State.movementState st).*1.

(** The test that [documentMove] makes before it calls [movementX]. *)
Definition allowsX (moveable : Moveable) (item : Item.t) : bool :=
  match moveable with
  | MBool b => b
  | MAxis axis => bool_decide (axis = "x")
  | MRows rowIds => bool_decide (Item.rowId item ∈ rowIds)
  end.

(** What a pointer-move may make of the item store: under every key the
    item stays, with all its fields but [time] and [rowId]; and [time] stays
    too under every key but [itemId]. *)
Definition itemsEvolve (itemId : string) (items items' : gmap string Item.t)
  : Prop :=
  forall k,
    option_Forall2
      (fun i i' =>
         i' = Item.setRowId (Item.setTime i (Item.time i')) (Item.rowId i')
         /\ (k <> itemId -> Item.time i' = Item.time i))
      (items !! k) (items' !! k).

(** The default snap functions are in force for the action. *)
Definition defaultSnaps (options : Options.t) (data : Data.t) : Prop :=
  (forall t d i, getSnapStart options data t d i = t + d)
  /\ (forall t d i, getSnapEnd options data t d i = t + d).

(** ** Further example data *)

(** The state after the move of [I1] in [dragState] with the pointer at
    pixel 130: the ghost follows the pointer and the interval is [130, 229]. *)
Definition dragResult : State.t :=
  State.mk (ChartTime.mk 0 1000 0 1) {[ "R1" := R1 ]} [R1]
    {[ "I1" := plainItem "I1" 130 229 "R1"; "I2" := I2 ]}
    [("I1", Movement.mk true false true (Some (Ghost.mk 0 130 0)) (Some 0)
              (Some 0) (Some 0))]
    [0%nat] (0, 0) 1
    (Some ("I1", Movement.mk true false true (Some (Ghost.mk 0 130 0)) (Some 0)
                   (Some 0) (Some 0)))
    (Some (Summary.mk true true false)).

(** The default options with moves restricted to the time axis. *)
Definition xOnly : Options.t :=
  Options.mk (MAxis "x") true true false
    (Options.snapStart defaultOptions) (Options.snapEnd defaultOptions) true.

(** A second, empty row below [R1]; [I1] is being moved. *)
Definition R2 : Row.t := Row.mk "R2" None None 40 [].
Definition twoRows : State.t :=
  State.mk (ChartTime.mk 0 1000 0 1) {[ "R1" := R1; "R2" := R2 ]} [R1; R2]
    {[ "I1" := I1; "I2" := I2 ]} [("I1", draggedMovement)] [0%nat] (0, 0) 1
    None None.

(** The default options with resizing switched off. *)
Definition noResize : Options.t :=
  Options.mk (MBool true) false true false
    (Options.snapStart defaultOptions) (Options.snapEnd defaultOptions) true.

(** The default options with out-of-border rejection switched on. *)
Definition insideOnly : Options.t :=
  Options.mk (MBool true) true true true
    (Options.snapStart defaultOptions) (Options.snapEnd defaultOptions) true.

(** ** The resize handle of an action *)

(** [resizerEl.style.visibility], which the action sets to ['visible'] or
    ['hidden']. *)
Inductive Visibility := Visible | Hidden.

(** The visibility that [ItemAction] gives the handle when it creates it. *)
Definition initialVisibility (options : Options.t) (data : Data.t)
  : Visibility :=
  if negb (isResizable options data) then Hidden else Visible.

(** [update(node, changedData)] of the action: the new visibility and the new
    [data]. *)
Definition update (options : Options.t) (visibility : Visibility)
  (changedData : Data.t) : Visibility * Data.t :=
  (if negb (isResizable options changedData)
      && match visibility with Visible => true | Hidden => false end
   then Hidden
   else if isResizable options changedData
           && match visibility with Hidden => true | Visible => false end
   then Visible
   else visibility,
   changedData).

(** An action created with [data] and then updated with each of [changes]. *)
Fixpoint updated (options : Options.t) (visibility : Visibility)
  (data : Data.t) (changes : list Data.t) : Visibility * Data.t :=
  match changes with
  | [] => (visibility, data)
  | changedData :: rest =>
      let '(visibility, data) := update options visibility changedData in
      updated options visibility data rest
  end.

(** The state that two inputs lead to, or [st] when a handler has no
    result. *)
Definition afterTwo (options : Options.t) (element : Element.t) (data : Data.t)
  (first second : Input) (st : State.t) : State.t :=
  default st (handle options element data first st
              ≫= handle options element data second).

(** The default options with the ghost switched off. *)
Definition noGhost : Options.t :=
  Options.mk (MBool true) true true false
    (Options.snapStart defaultOptions) (Options.snapEnd defaultOptions) false.

(** The table of [st'] tracks the items that the table of [st] tracks, in
    the same relative order, and besides them at most [itemId]; and it lists
    its keys in the order of enumeration if the table of [st] does. *)
Definition extends (itemId : string) (st st' : State.t) : Prop :=
  trackedItems st `sublist_of` trackedItems st'
  /\ (forall k, k ∈ trackedItems st' -> k ∈ trackedItems st \/ k = itemId)
  /\ (enumerated (trackedItems st) -> enumerated (trackedItems st')).

(** Items 10 and [I1] are tracked and idle. *)
Definition numberedState : State.t :=
  exampleState [("10", Movement.fresh); ("I1", Movement.fresh)] [].

(** [I2] is resizing and nothing is known of [I1]. *)
Definition orphanState : State.t :=
  exampleState
    [("I2", Movement.mk false true false None None (Some 0) (Some 0))] [].

End ItemMovement.


(** * The Selection plugin *)

Module Selection.

(** ** Results

    [collectLinkedItems] recurses without a bound, so the embedding counts the
    nested calls down from a fuel: [OutOfFuel] says that more than [fuel]
    calls are nested, [Raised] that a property was read on [undefined]. *)
Inductive Result (A : Type) : Type :=
| Done (a : A)
| Raised
| OutOfFuel.
Arguments Done {A} a.
Arguments Raised {A}.
Arguments OutOfFuel {A}.

#[global] Instance Result_ret : MRet Result := fun A a => Done a.
#[global] Instance Result_bind : MBind Result := fun A B f r =>
  match r with
  | Done a => f a
  | Raised => Raised
  | OutOfFuel => OutOfFuel
  end.

(** ** Data model *)

Module Point.
Record t := mk { x : Z; y : Z }.
End Point.

Module Area.
Record t := mk { x : Z; y : Z; width : Z; height : Z }.
End Area.

(** The fields of an item that the plugin reads or writes. *)
Module Item.
Record t := mk {
  id : string;
  linkedWith : option (list string);
  selected : bool
}.
Definition setSelected (b : bool) (i : t) : t := mk (id i) (linkedWith i) b.
End Item.

(** [ITEM], [CELL] or the empty string. *)
Inductive TargetType := ITEM | CELL | NoTarget.

#[global] Instance TargetType_eq_dec : EqDecision TargetType.
Proof. solve_decision. Defined.

(** [config.chart.items]: the item objects under their keys.

    The plugin holds item objects in arrays and compares them by identity
    (in a [Set]).  Every item object it handles is an object of this store;
    the embedding names an object by the key it is stored under, and reads and
    writes its fields through the store.  A name without an object stands for
    [undefined]. *)
Abbreviation Items := (gmap string Item.t).

(** The pointer plugin's data, as far as it is read: [events.down] is [None]
    for [null] and holds [ctrlKey] otherwise. *)
Module PointerData.
Record t := mk {
  isMoving : bool;
  targetType : TargetType;
  targetData : string;
  initialPosition : Point.t;
  currentPosition : Point.t;
  down : option bool;
  pointerState : string
}.
End PointerData.

(** [PluginData]: the options [cells] and [items], and the selection state;
    [selected] is [selected[ITEM]]. *)
Module PluginData.
Record t := mk {
  cells : bool;
  items : bool;
  isSelecting : bool;
  pointerState : string;
  targetType : TargetType;
  initialPosition : Point.t;
  currentPosition : Point.t;
  selectionArea : Area.t;
  selected : list string;
  down : option bool
}.
End PluginData.

(** [generateEmptyData(options)] with the default options. *)
Definition generateEmptyData : PluginData.t :=
  PluginData.mk true true false "up" NoTarget (Point.mk 0 0) (Point.mk 0 0)
    (Area.mk 0 0 0 0) [] None.

(** The plugin object and the store: [observed] lists, oldest first, the
    item stores that the subscribers of the item paths were notified with. *)
Module State.
Record t := mk {
  data : PluginData.t;
  poitnerData : PointerData.t;
  items : Items;
  observed : list Items
}.
End State.

(** ** The reactive store *)

(** Modelled from the spec: the store is [deep-state-observer], which is not
    part of the plugin.  "[update(path, valueOrReducer)]" changes the value
    and notifies the subscribers; "a batched multi-update builder
    [multi().update(path, value)...done()] guaranteeing atomic application and
    single notification" changes the values one after the other and notifies
    once, in [done], with the store as the last update left it. *)
Module Store.
Definition update (f : Items -> Items) (items : Items) (observed : list Items)
  : Items * list Items :=
  (f items, observed ++ [f items]).

Record Multi := mkMulti { store : Items }.
Definition multi (items : Items) : Multi := mkMulti items.
Definition multiUpdate (f : Items -> Items) (m : Multi) : Multi :=
  mkMulti (f (store m)).
Definition done (m : Multi) (observed : list Items) : Items * list Items :=
  (store m, observed ++ [store m]).

(** The path [config.chart.items.*.selected]. *)
Definition allSelected (b : bool) (items : Items) : Items :=
  Item.setSelected b <$> items.
(** The path [config.chart.items.${id}.selected].  The engine assumes that the
    items it names exist; a path that names none is left without effect. *)
Definition oneSelected (id : string) (b : bool) (items : Items) : Items :=
  alter (Item.setSelected b) id items.
End Store.

(** ** The plugin *)

(** [getItemsUnderSelectionArea()]. *)
Definition getItemsUnderSelectionArea (st : State.t) : list string := [].

(** [getSelectionArea()]. *)
Definition getSelectionArea (poitnerData : PointerData.t) : Area.t :=
  let initial := PointerData.initialPosition poitnerData in
  let current := PointerData.currentPosition poitnerData in
  let width := Point.x current - Point.x initial in
  let height := Point.y current - Point.y initial in
  let '(areaX, areaWidth) :=
    if 0 <=? width then (Point.x initial, width)
    else (Point.x current, Z.abs width) in
  let '(areaY, areaHeight) :=
    if 0 <=? height then (Point.y initial, height)
    else (Point.y current, Z.abs height) in
  Area.mk areaX areaY areaWidth areaHeight.

Section LinkedItems.

Variable items : Items.

(** The loop [for (const linkedItemId of item.linkedWith)]: [collect] is the
    recursive call; [current] is the one array that all calls push to. *)
Fixpoint forEachLinked (collect : string -> list string -> Result (list string))
  (linkedWith : list string) (current : list string) : Result (list string) :=
  match linkedWith with
  | [] => Done current
  | linkedItemId :: rest =>
      let linkedItem := linkedItemId in
      current ← collect linkedItem (current ++ [linkedItem]);
      forEachLinked collect rest current
  end.

(** [collectLinkedItems(item, current)], with at most [fuel] nested calls. *)
Fixpoint collectLinkedItems (fuel : nat) (item : string)
  (current : list string) : Result (list string) :=
  match fuel with
  | O => OutOfFuel
  | S fuel =>
      match items !! item with
      | None => Raised
      | Some it =>
          match Item.linkedWith it with
          | None => Done current
          | Some linkedWith =>
              forEachLinked (collectLinkedItems fuel) linkedWith current
          end
      end
  end.

(** [selected.find(selectedItem => selectedItem.id === item.id)], as a
    boolean: the callback reads both ids at every element it visits. *)
Fixpoint findSelected (selected : list string) (item : string) : Result bool :=
  match selected with
  | [] => Done false
  | selectedItem :: rest =>
      match items !! selectedItem, items !! item with
      | Some s, Some i =>
          if bool_decide (Item.id s = Item.id i) then Done true
          else findSelected rest item
      | _, _ => Raised
      end
  end.

(** [[...new Set(list).values()]]: the elements in the order of their first
    occurrence. *)
Fixpoint setValues (seen : list string) (values : list string)
  : list string :=
  match values with
  | [] => []
  | x :: rest =>
      if bool_decide (x ∈ seen) then setValues seen rest
      else x :: setValues (x :: seen) rest
  end.

(** [getSelected(item)]. *)
Definition getSelected (fuel : nat) (selected : list string)
  (down : option bool) (item : string) : Result (list string) :=
  found ← findSelected selected item;
  if found : bool then Done selected
  else
    match down with
    | None => Raised
    | Some ctrlKey =>
        if ctrlKey : bool then
          linked ← collectLinkedItems fuel item [item];
          Done (setValues [] (selected ++ linked))
        else collectLinkedItems fuel item [item]
    end.

(** The loop of [selectItems] over the new selection. *)
Fixpoint selectEach (selected : list string) (multi : Store.Multi)
  : Result Store.Multi :=
  match selected with
  | [] => Done multi
  | item :: rest =>
      match items !! item with
      | None => Raised
      | Some i =>
          selectEach rest (Store.multiUpdate (Store.oneSelected (Item.id i) true) multi)
      end
  end.

End LinkedItems.

Definition setData (st : State.t) (data : PluginData.t) : State.t :=
  State.mk data (State.poitnerData st) (State.items st) (State.observed st).

Definition setStore (st : State.t) (store : Items * list Items) : State.t :=
  State.mk (State.data st) (State.poitnerData st) store.1 store.2.

(** The assignments of [selectCells] and [selectItems] to [this.data]. *)
Definition withSelection (d : PluginData.t) (isSelecting : bool)
  (area : Area.t) (selected : list string) : PluginData.t :=
  PluginData.mk (PluginData.cells d) (PluginData.items d) isSelecting
    (PluginData.pointerState d) (PluginData.targetType d)
    (PluginData.initialPosition d) (PluginData.currentPosition d) area
    selected (PluginData.down d).

Definition withPositions (d : PluginData.t) (initial current : Point.t)
  : PluginData.t :=
  PluginData.mk (PluginData.cells d) (PluginData.items d)
    (PluginData.isSelecting d) (PluginData.pointerState d)
    (PluginData.targetType d) initial current (PluginData.selectionArea d)
    (PluginData.selected d) (PluginData.down d).

(** [selectCells()]. *)
Definition selectCells (st : State.t) : State.t :=
  let area := getSelectionArea (State.poitnerData st) in
  let st := setData st (withSelection (State.data st) true area
                          (PluginData.selected (State.data st))) in
  let selectingItems := getItemsUnderSelectionArea st in
  if (length selectingItems =? 0)%nat then
    let st := setStore st (Store.update (Store.allSelected false)
                             (State.items st) (State.observed st)) in
    setData st (withSelection (State.data st) true area [])
  else st.

(** [selectItems()]. *)
Definition selectItems (fuel : nat) (st : State.t) : Result State.t :=
  let poitnerData := State.poitnerData st in
  let area := getSelectionArea poitnerData in
  let data := withPositions (State.data st)
                (PointerData.initialPosition poitnerData)
                (PointerData.currentPosition poitnerData) in
  let item := PointerData.targetData poitnerData in
  selected ← getSelected (State.items st) fuel (PluginData.selected data)
               (PointerData.down poitnerData) item;
  let st := setData st (withSelection data false area selected) in
  let multi := Store.multi (State.items st) in
  let multi := Store.multiUpdate (Store.allSelected false) multi in
  multi ← selectEach (State.items st) selected multi;
  Done (setStore st (Store.done multi (State.observed st))).

(** The three assignments that end [onPointerData]. *)
Definition mirror (st : State.t) : State.t :=
  let d := State.data st in
  let p := State.poitnerData st in
  setData st
    (PluginData.mk (PluginData.cells d) (PluginData.items d)
       (PluginData.isSelecting d) (PointerData.pointerState p)
       (PointerData.targetType p) (PluginData.initialPosition d)
       (PluginData.currentPosition d) (PluginData.selectionArea d)
       (PluginData.selected d) (PointerData.down p)).

(** [onPointerData()], after [this.poitnerData] was assigned.  [updateData]
    publishes a copy of [this.data] under the plugin's path; the copy is not
    modelled apart from [data]. *)
Definition onPointerData (fuel : nat) (st : State.t) : Result State.t :=
  let p := State.poitnerData st in
  let d := State.data st in
  st ← (if PointerData.isMoving p && bool_decide (PointerData.targetType p = CELL)
           && PluginData.cells d
        then Done (selectCells st)
        else if PointerData.isMoving p
                && bool_decide (PointerData.targetType p = ITEM)
                && PluginData.items d
        then selectItems fuel st
        else if negb (PointerData.isMoving p)
        then Done (setData st (withSelection d false (PluginData.selectionArea d)
                                 (PluginData.selected d)))
        else Done st);
  Done (mirror st).

(** ** Notions used to state the properties *)

(** The pointer data of a drag from [p] to [q]. *)
Definition dragBetween (p q : Point.t) (pd : PointerData.t) : PointerData.t :=
  PointerData.mk (PointerData.isMoving pd) (PointerData.targetType pd)
    (PointerData.targetData pd) p q (PointerData.down pd)
    (PointerData.pointerState pd).

(** The ids of the item objects of a selection. *)
Definition idsOf (items : Items) (selected : list string) : list string :=
  omap (fun item => Item.id <$> items !! item) selected.

(** [linked items a b]: the object [a] lists [b] in its [linkedWith]. *)
Definition linked (items : Items) (a b : string) : Prop :=
  exists it linkedWith,
    items !! a = Some it /\ Item.linkedWith it = Some linkedWith
    /\ b ∈ linkedWith.

(** The link closure: what can be reached along [linkedWith]. *)
Definition reachable (items : Items) : string -> string -> Prop :=
  rtc (linked items).

(** How often [x] occurs in an array. *)
Definition occurrences (x : string) (values : list string) : nat :=
  length (filter (fun y => y = x) values).

(** The number of link paths with at most [depth] items that lead from [a]
    to [x]: the path that stays at [a] when [a] is [x], and the paths through
    each entry of [a.linkedWith]. *)
Fixpoint linkPaths (items : Items) (depth : nat) (a x : string) : nat :=
  match depth with
  | O => 0
  | S depth =>
      ((if bool_decide (a = x) then 1 else 0)
       + match items !! a with
         | Some it =>
             match Item.linkedWith it with
             | Some linkedWith =>
                 sum_list ((fun b => linkPaths items depth b x) <$> linkedWith)
             | None => 0
             end
         | None => 0
         end)%nat
  end.

(** What a call on [item] appends to [current] when it returns on every fuel
    from [n] on: the items strictly below [item], each once per path. *)
Definition appends (items : Items) (n : nat) (item : string)
  (extra : list string) : Prop :=
  (forall current fuel, (n <= fuel)%nat ->
     collectLinkedItems items fuel item current = Done (current ++ extra))
  /\ (forall x, x ∈ extra
                <-> exists c, linked items item c /\ reachable items c x)
  /\ (forall x, ((if bool_decide (item = x) then 1 else 0)
                 + occurrences x extra)%nat
                = linkPaths items n item x).

(** The computation needs more nested calls than any fuel allows. *)
Definition diverges (items : Items) (item : string) (current : list string)
  : Prop :=
  forall fuel, collectLinkedItems items fuel item current = OutOfFuel.

(** Some selected item has the id of the target. *)
Definition alreadySelected (items : Items) (selected : list string)
  (item : string) : Prop :=
  exists selectedItem s i,
    selectedItem ∈ selected /\ items !! selectedItem = Some s
    /\ items !! item = Some i /\ Item.id s = Item.id i.

(** ** Example data *)

Definition plainItem (id : string) (linkedWith : list string) : Item.t :=
  Item.mk id (Some linkedWith) false.

(** [A] and [B] link to each other. *)
Definition cyclicItems : Items :=
  {[ "A" := plainItem "A" ["B"]; "B" := plainItem "B" ["A"] ]}.

(** [A] links to [B] and [C], which both link to [D]. *)
Definition diamondItems : Items :=
  {[ "A" := plainItem "A" ["B"; "C"]; "B" := plainItem "B" ["D"];
     "C" := plainItem "C" ["D"]; "D" := Item.mk "D" None false ]}.

(** A rank that falls along the links of the diamond. *)
Definition diamondRank (item : string) : nat :=
  if bool_decide (item = "A") then 2%nat
  else if bool_decide (item = "D") then 0%nat else 1%nat.

(** [X] and [Y], not linked. *)
Definition plainItems : Items :=
  {[ "X" := Item.mk "X" None false; "Y" := Item.mk "Y" None true ]}.

Definition dragOn (targetType : TargetType) (item : string) (ctrlKey : bool)
  : PointerData.t :=
  PointerData.mk true targetType item (Point.mk 10 40) (Point.mk 30 20)
    (Some ctrlKey) "move".

(** [Y] is selected and the pointer drags over cells, with cell selection
    switched on or off. *)
Definition cellDrag (cells : bool) : State.t :=
  State.mk
    (PluginData.mk cells true false "up" NoTarget (Point.mk 0 0) (Point.mk 0 0)
       (Area.mk 0 0 0 0) ["Y"] None)
    (dragOn CELL "" false) plainItems [].

(** [Y] is selected and the pointer drags [X], without ctrl. *)
Definition commitState : State.t :=
  State.mk
    (PluginData.mk true true false "up" NoTarget (Point.mk 0 0) (Point.mk 0 0)
       (Area.mk 0 0 0 0) ["Y"] None)
    (dragOn ITEM "X" false) plainItems [].

(** The state that [selectItems] makes of it. *)
Definition commitResult : State.t :=
  State.mk
    (PluginData.mk true true false "up" NoTarget (Point.mk 10 40) (Point.mk 30 20)
       (Area.mk 10 20 20 20) ["X"] None)
    (dragOn ITEM "X" false)
    {[ "X" := Item.mk "X" None true; "Y" := Item.mk "Y" None false ]}
    [ {[ "X" := Item.mk "X" None true; "Y" := Item.mk "Y" None false ]} ].


(** ** Notions used for the properties of the whole plugin *)

(** Every item object is stored under its own id. *)
Definition keyedById (items : Items) : Prop :=
  forall k it, items !! k = Some it -> Item.id it = k.

(** Two versions of an item that differ at most in [selected]. *)
Definition sameButSelected (a b : Item.t) : Prop :=
  Item.id a = Item.id b /\ Item.linkedWith a = Item.linkedWith b.

(** [extra] holds what lies strictly below [item] along the links, all of it
    in the store. *)
Definition below (items : Items) (item : string) (extra : list string)
  : Prop :=
  (forall x, x ∈ extra <-> exists c, linked items item c /\ reachable items c x)
  /\ (forall x, x ∈ extra -> is_Some (items !! x)).


(** The pointer data is one that [onPointerData] hands to [selectCells] or to
    [selectItems]. *)
Definition selects (st : State.t) : bool :=
  let p := State.poitnerData st in
  let d := State.data st in
  PointerData.isMoving p
  && ((bool_decide (PointerData.targetType p = CELL) && PluginData.cells d)
      || (bool_decide (PointerData.targetType p = ITEM) && PluginData.items d)).




(** The pointer was released over [X] while [Y] is selected and the overlay
    is still shown. *)
Definition releasedState : State.t :=
  State.mk
    (PluginData.mk true true true "move" ITEM (Point.mk 10 40) (Point.mk 30 20)
       (Area.mk 10 20 20 20) ["Y"] (Some false))
    (PointerData.mk false ITEM "X" (Point.mk 10 40) (Point.mk 30 20)
       (Some false) "up")
    plainItems [].

(** The state after the same pointer data was handled once more. *)
Definition renotified (st : State.t) : State.t :=
  State.mk (State.data st) (State.poitnerData st) (State.items st)
    (State.observed st ++ [State.items st]).

End Selection.

(** * The default configuration *)

Module DefaultConfig.

(** [s[i]] for an array of strings and an integer [i]: [undefined], here
    [None], unless [i] is an index of the array. *)
Definition index (s : list string) (i : Z) : option string :=
  if 0 <=? i then s !! Z.to_nat i else None.

(** [a || b] on values that are strings or [undefined]: the empty string and
    [undefined] are falsy. *)
Definition orElse (a b : option string) : option string :=
  match a with
  | Some str => if bool_decide (str = "") then b else a
  | None => b
  end.

(** The text that a template literal makes of such a value. *)
Definition text (a : option string) : string := default "undefined" a.

Section Ordinal.

(** The conversion of a number to a string, which is the engine's. *)
Variable toString : Z -> string.

(** [locale.ordinal(n)] for an integer [n]; [%] takes the sign of the
    dividend, as [Z.rem] does. *)
Definition ordinal (n : Z) : string :=
  let s := ["th"; "st"; "nd"; "rd"] in
  let v := Z.rem n 100 in
  "[" +:+ toString n
      +:+ text (orElse (orElse (index s (Z.rem (v - 20) 10)) (index s v))
                  (index s 0))
      +:+ "]".

End Ordinal.

(** The English ordinal suffix of a natural number; [th] below zero. *)
Definition englishSuffix (n : Z) : string :=
  if n <? 0 then "th"
  else if (11 <=? n mod 100) && (n mod 100 <=? 13) then "th"
  else if n mod 10 =? 1 then "st"
  else if n mod 10 =? 2 then "nd"
  else if n mod 10 =? 3 then "rd"
  else "th".

(** The suffix that [ordinal] chooses, from the remainder [v] alone. *)
Definition chosen (v : Z) : string :=
  let s := ["th"; "st"; "nd"; "rd"] in
  text (orElse (orElse (index s (Z.rem (v - 20) 10)) (index s v)) (index s 0)).

End DefaultConfig.

(** * Properties of the ItemMovement plugin *)

Module ItemMovementProofs.

Import ItemMovement.

Lemma hits_overlaps rowItem start end_ :
  hits rowItem start end_ = true <-> overlaps (Item.time rowItem) start end_.
Proof.
  unfold hits, overlaps.
  destruct (Time.start (Item.time rowItem) <=? start) eqn:E1,
           (start <=? Time.end_ (Item.time rowItem)) eqn:E2,
           (Time.start (Item.time rowItem) <=? end_) eqn:E3,
           (end_ <=? Time.end_ (Item.time rowItem)) eqn:E4,
           (start <=? Time.start (Item.time rowItem)) eqn:E5,
           (Time.end_ (Item.time rowItem) <=? end_) eqn:E6;
    simpl; split; intros H; try reflexivity; try discriminate; lia.
Qed.

Lemma scanRow_true rowItems itemId start end_ :
  scanRow rowItems itemId start end_ = true
  <-> exists other, other ∈ rowItems /\ Item.id other <> itemId
                    /\ overlaps (Item.time other) start end_.
Proof.
  induction rowItems as [|rowItem rest IH]; simpl.
  - split; [discriminate|]. intros (o & Ho & _). by apply elem_of_nil in Ho.
  - case_bool_decide as Hid.
    + destruct (hits rowItem start end_) eqn:Hh.
      * split; [intros _|reflexivity].
        exists rowItem. split; [left|]. split; [done|]. by apply hits_overlaps.
      * rewrite IH. split.
        -- intros (o & Ho & Hr). exists o. split; [by right|done].
        -- intros (o & Ho & Hne & Hov). apply elem_of_cons in Ho as [->|Ho].
           ++ apply hits_overlaps in Hov. congruence.
           ++ by exists o.
    + rewrite IH. split.
      * intros (o & Ho & Hr). exists o. split; [by right|done].
      * intros (o & Ho & Hne & Hov). apply elem_of_cons in Ho as [->|Ho].
        -- contradiction.
        -- by exists o.
Qed.

(** ** Properties of the collision validator *)

Lemma abs_by_sign (diff : Z) :
  (if Z.sgn diff =? -1 then - diff else diff) = Z.abs diff.
Proof. destruct (Z.sgn diff =? -1) eqn:E; lia. Qed.

(** C1 (as amended).  [isCollision] returns false at once when collision
    detection is disabled, whatever the row id.  When the row exists it
    returns a boolean, and that boolean is true exactly when detection is
    enabled and either out-of-border rejection is enabled and the proposal
    leaves the global time range, or the absolute difference of its two ends
    is at most one time unit, or another item of the row overlaps it under
    inclusive-boundary comparison. *)
Theorem isCollision_spec options st rowId itemId start end_ :
  (Options.collisionDetection options = false ->
   isCollision options st rowId itemId start end_ = Some false)
  /\ (forall row, State.rows st !! rowId = Some row ->
      exists b, isCollision options st rowId itemId start end_ = Some b
                /\ (b = true <-> collides options st row itemId start end_)).
Proof.
  unfold isCollision, collides, outside. split.
  - intros ->. reflexivity.
  - intros row Hrow. rewrite abs_by_sign.
    destruct (Options.collisionDetection options); simpl.
    2:{ exists false. split; [done|]. split; [done|]. intros [? _]. done. }
    destruct (Options.outOfBorders options) eqn:Hoob; simpl.
    + destruct ((start <? ChartTime.from (State.time st))
                || (ChartTime.to (State.time st) <? end_)) eqn:Hout.
      * exists true. split; [done|]. split; [intros _|done].
        split; [done|]. left. split; [done|]. lia.
      * destruct (Z.abs (date_diff end_ start) <=? 1) eqn:Hd.
        -- exists true. split; [done|]. split; [intros _|done].
           split; [done|]. right; left. lia.
        -- rewrite Hrow; simpl. eexists; split; [reflexivity|].
           rewrite scanRow_true. unfold otherOverlaps. split.
           ++ intros H. split; [done|]. by right; right.
           ++ intros [_ [[_ H]|[H|H]]]; [lia|lia|done].
    + destruct (Z.abs (date_diff end_ start) <=? 1) eqn:Hd.
      * exists true. split; [done|]. split; [intros _|done].
        split; [done|]. right; left. lia.
      * rewrite Hrow; simpl. eexists; split; [reflexivity|].
        rewrite scanRow_true. unfold otherOverlaps. split.
        -- intros H. split; [done|]. by right; right.
        -- intros [_ [[H _]|[H|H]]]; [done|lia|done].
Qed.

(** The scenario of the spec: moving [I1] to [150, 250] collides with [I2]. *)
Lemma isCollision_spec_witness :
  State.rows (exampleState [] []) !! "R1" = Some R1
  /\ exists b, isCollision defaultOptions (exampleState [] []) "R1" "I1" 150 250
               = Some b
               /\ (b = true
                   <-> collides defaultOptions (exampleState [] []) R1 "I1" 150 250).
Proof.
  split; [reflexivity|].
  apply (proj2 (isCollision_spec defaultOptions (exampleState [] []) "R1" "I1"
                  150 250) R1).
  reflexivity.
Defined.

(** C1 (as stated) fails: a proposal of negative width whose ends are more
    than one unit apart, here from 500 back to 400 in a row where nothing
    overlaps it, has a duration below one time unit and is not reported as a
    collision. *)
Lemma isCollision_negative_width :
  date_diff 400 500 <= 1
  /\ isCollision defaultOptions (exampleState [] []) "R1" "I1" 500 400
     = Some false.
Proof. split; [unfold date_diff; lia|reflexivity]. Qed.


(** ** What the handlers leave untouched *)

Lemma sameStore_refl st : sameStore st st.
Proof. by repeat split. Qed.

Lemma getMovement_found st data movement :
  lookupMovement (State.movementState st) (Item.id (Data.item data))
  = Some movement ->
  getMovement st data = (st, movement).
Proof. unfold getMovement. by intros ->. Qed.

Lemma getMovement_store st data : sameStore st (getMovement st data).1.
Proof.
  unfold getMovement.
  destruct (lookupMovement _ _); simpl; by repeat split.
Qed.

(** *** Reads and writes of the movement table *)

Lemma lookupMovement_None ms k : lookupMovement ms k = None <-> k ∉ ms.*1.
Proof.
  induction ms as [|[k0 m0] rest IH]; simpl.
  - split; [intros _|done]. apply not_elem_of_nil.
  - case_bool_decide as Hk.
    + subst. split; [done|]. intros H. exfalso. apply H. left.
    + rewrite IH, not_elem_of_cons. split; [intros ?; split; [congruence|done]|tauto].
Qed.

Lemma lookupMovement_app_fresh l1 l2 k :
  k ∉ l1.*1 -> lookupMovement (l1 ++ l2) k = lookupMovement l2 k.
Proof.
  induction l1 as [|[k0 m0] l1 IH]; cbn [app lookupMovement]; [done|].
  rewrite fmap_cons. intros [Hne Hfresh]%not_elem_of_cons. cbn [fst] in Hne.
  rewrite bool_decide_eq_false_2 by congruence. by apply IH.
Qed.

Lemma lookupMovement_app_ne l1 l2 k k' m :
  k' <> k ->
  lookupMovement (l1 ++ (k, m) :: l2) k' = lookupMovement (l1 ++ l2) k'.
Proof.
  intros Hne. induction l1 as [|[k0 m0] l1 IH]; cbn [app lookupMovement].
  - by rewrite bool_decide_eq_false_2.
  - by rewrite IH.
Qed.

(** A write to a key of the table changes the record where it is. *)
Lemma replaceMovement_split ms k m :
  lookupMovement ms k = Some m ->
  exists l1 l2, ms = l1 ++ (k, m) :: l2 /\ (k ∉ l1.*1)
                /\ forall m', replaceMovement ms k m' = l1 ++ (k, m') :: l2.
Proof.
  induction ms as [|[k0 m0] rest IH]; cbn [lookupMovement replaceMovement];
    [done|].
  case_bool_decide as Hk.
  - intros [= ->]. subst k0. exists [], rest. split; [done|].
    split; [apply not_elem_of_nil|done].
  - intros H. destruct (IH H) as (l1 & l2 & -> & Hfresh & Hstore).
    exists ((k0, m0) :: l1), l2. split; [done|]. split.
    + rewrite fmap_cons. apply not_elem_of_cons. split; [done|done].
    + intros m'. by rewrite Hstore.
Qed.

(** The creation of a key puts the new record somewhere between the records
    that are there, which stay in their order. *)
Lemma insertMovement_split ms k :
  exists l1 l2, ms = l1 ++ l2
                /\ forall m', insertMovement ms k m' = l1 ++ (k, m') :: l2.
Proof.
  induction ms as [|[k0 m0] rest IH]; cbn [insertMovement].
  - by exists [], [].
  - destruct (precedes k k0).
    + by exists [], ((k0, m0) :: rest).
    + destruct IH as (l1 & l2 & -> & Hstore).
      exists ((k0, m0) :: l1), l2. split; [done|].
      intros m'. by rewrite Hstore.
Qed.

Lemma lookupMovement_split ms k m :
  lookupMovement ms k = Some m ->
  exists l1 l2, ms = l1 ++ (k, m) :: l2 /\ (k ∉ l1.*1)
                /\ forall m', storeMovement ms k m' = l1 ++ (k, m') :: l2.
Proof.
  intros Hl. unfold storeMovement. rewrite Hl. by apply replaceMovement_split.
Qed.

Lemma storeMovement_fresh_split ms k :
  lookupMovement ms k = None ->
  exists l1 l2, ms = l1 ++ l2
                /\ forall m', storeMovement ms k m' = l1 ++ (k, m') :: l2.
Proof.
  intros Hl. unfold storeMovement. rewrite Hl. apply insertMovement_split.
Qed.

(** Whether the key was there or not, the write leaves the record at one
    place of the table, with no record of the key before it. *)
Lemma storeMovement_split ms k :
  exists l1 l2,
    (k ∉ l1.*1)
    /\ (forall k', k' <> k ->
          lookupMovement (l1 ++ l2) k' = lookupMovement ms k')
    /\ forall m', storeMovement ms k m' = l1 ++ (k, m') :: l2.
Proof.
  destruct (lookupMovement ms k) as [m|] eqn:Hl.
  - destruct (lookupMovement_split _ _ _ Hl) as (l1 & l2 & -> & Hfresh & Hstore).
    exists l1, l2. split; [done|]. split; [|done].
    intros k' Hne. by rewrite lookupMovement_app_ne.
  - destruct (storeMovement_fresh_split _ _ Hl) as (l1 & l2 & -> & Hstore).
    exists l1, l2. split; [|by split].
    apply lookupMovement_None in Hl. rewrite fmap_app in Hl.
    intros Hin. apply Hl, elem_of_app. by left.
Qed.

Lemma lookup_storeMovement_eq ms itemId m :
  lookupMovement (storeMovement ms itemId m) itemId = Some m.
Proof.
  destruct (storeMovement_split ms itemId) as (l1 & l2 & Hfresh & _ & ->).
  rewrite lookupMovement_app_fresh by done. cbn [lookupMovement].
  by rewrite bool_decide_eq_true_2.
Qed.

Lemma lookup_storeMovement_ne ms itemId m k :
  k <> itemId ->
  lookupMovement (storeMovement ms itemId m) k = lookupMovement ms k.
Proof.
  intros Hne.
  destruct (storeMovement_split ms itemId) as (l1 & l2 & _ & Hother & ->).
  rewrite lookupMovement_app_ne by done. by apply Hother.
Qed.

Lemma storeMovement_keys_found ms k m m' :
  lookupMovement ms k = Some m -> (storeMovement ms k m').*1 = ms.*1.
Proof.
  intros Hl. destruct (lookupMovement_split _ _ _ Hl) as (l1 & l2 & -> & _ & ->).
  by rewrite !fmap_app, !fmap_cons.
Qed.

(** The writes keep the table in the order of enumeration. *)
Lemma precedes_asym k k0 : precedes k k0 = true -> precedes k0 k = false.
Proof.
  unfold precedes. destruct (arrayIndex k), (arrayIndex k0); try done.
  intros H%Z.ltb_lt. apply Z.ltb_ge. lia.
Qed.

Lemma precedes_behind x k0 k :
  precedes x k0 = false -> precedes k k0 = true -> precedes x k = false.
Proof.
  unfold precedes.
  destruct (arrayIndex x), (arrayIndex k0), (arrayIndex k); try done.
  intros H1%Z.ltb_ge H2%Z.ltb_lt. apply Z.ltb_ge. lia.
Qed.

Lemma storeMovement_enumerated ms k m :
  enumerated ms.*1 -> enumerated (storeMovement ms k m).*1.
Proof.
  destruct (lookupMovement ms k) as [m0|] eqn:Hl.
  { by rewrite (storeMovement_keys_found _ _ _ _ Hl). }
  unfold storeMovement. rewrite Hl. clear Hl.
  induction ms as [|[k0 m0] rest IH]; cbn [insertMovement].
  - intros _. split; [|done]. by intros x ?%elem_of_nil.
  - rewrite fmap_cons. cbn [fst enumerated]. intros [Hk0 Hrest].
    destruct (precedes k k0) eqn:Hp.
    + rewrite !fmap_cons. cbn [fst enumerated]. split; [|done].
      intros x [->|Hx]%elem_of_cons; [by apply precedes_asym|].
      eapply precedes_behind; [by apply Hk0|done].
    + rewrite fmap_cons. cbn [fst enumerated]. split; [|by apply IH].
      intros x Hx.
      destruct (insertMovement_split rest k) as (l1 & l2 & -> & Hins).
      rewrite Hins, fmap_app, fmap_cons in Hx. rewrite fmap_app in Hk0.
      apply elem_of_app in Hx as [Hx|[->|Hx]%elem_of_cons]; [|done|];
        apply Hk0, elem_of_app; auto.
Qed.

Lemma storeMovement_twice ms k m1 m2 :
  storeMovement (storeMovement ms k m1) k m2 = storeMovement ms k m2.
Proof.
  destruct (storeMovement_split ms k) as (l1 & l2 & Hfresh & _ & Hstore).
  rewrite !Hstore.
  assert (lookupMovement (l1 ++ (k, m1) :: l2) k = Some m1) as Hl.
  { rewrite lookupMovement_app_fresh by done. cbn [lookupMovement].
    by rewrite bool_decide_eq_true_2. }
  destruct (lookupMovement_split _ _ _ Hl) as (l1' & l2' & Heq & Hfresh' & ->).
  assert (l1' = l1 /\ l2' = l2) as [-> ->]; [|done].
  clear Hl Hstore. revert l1' Heq Hfresh'.
  induction l1 as [|[k0 m0] l1 IH]; intros [|[k0' m0'] l1'] Heq Hfresh';
    cbn [app] in Heq.
  - by injection Heq as <-.
  - injection Heq as <- <- _. exfalso. apply Hfresh'. rewrite fmap_cons. left.
  - injection Heq as -> -> _. exfalso. apply Hfresh. rewrite fmap_cons. left.
  - injection Heq as <- <- Heq. rewrite !fmap_cons in Hfresh, Hfresh'.
    apply not_elem_of_cons in Hfresh as [_ Hfresh].
    apply not_elem_of_cons in Hfresh' as [_ Hfresh'].
    destruct (IH Hfresh l1' Heq Hfresh') as [-> ->]. done.
Qed.

Lemma getMovement_lookup st data :
  lookupMovement (State.movementState (getMovement st data).1)
    (Item.id (Data.item data)) = Some (getMovement st data).2.
Proof.
  unfold getMovement.
  destruct (lookupMovement (State.movementState st) _) eqn:E; cbn [fst snd];
    [exact E|].
  apply lookup_storeMovement_eq.
Qed.

Lemma moveGhost_store options element data st ev st' :
  moveGhost options element data st ev = Some st' -> sameStore st st'.
Proof.
  unfold moveGhost. destruct (Options.ghostNode options).
  - pose proof (getMovement_store st data) as Hs.
    destruct (getMovement st data) as [st1 m]; simpl in *.
    destruct (Movement.ganttLeft m); simpl; [|done].
    destruct (Movement.ghost m); simpl; [|done].
    destruct (Movement.ganttTop m); simpl; [|done].
    destruct (Movement.itemTop m); simpl; [|done].
    intros [= <-]. exact Hs.
  - intros [= <-]. apply sameStore_refl.
Qed.

Lemma isCollision_store options st st' rowId itemId start end_ :
  sameStore st st' ->
  isCollision options st' rowId itemId start end_
  = isCollision options st rowId itemId start end_.
Proof. intros (Ht & Hr & _). unfold isCollision. by rewrite Ht, Hr. Qed.

(** The row change of a move event never rewrites an interval. *)
Lemma moveRow_times options element data st ev moveable st' k :
  moveRow options element data st ev moveable = Some st' ->
  Item.time <$> State.items st' !! k = Item.time <$> State.items st !! k.
Proof.
  unfold moveRow, movementY.
  destruct (moveGhost options element data st ev) as [st1|] eqn:Hg; simpl; [|done].
  apply moveGhost_store in Hg.
  pose proof (getMovement_store st1 data) as Hs.
  destruct (getMovement st1 data) as [st2 m]; simpl in *.
  destruct (Movement.ganttTop m); simpl; [|done].
  destruct (State.items st2 !! Item.id (Data.item data)) as [item|]; simpl; [|done].
  match goal with |- context [?l !! ?i ≫= _] => destruct (l !! i) as [newRow|] end;
    simpl; [|done].
  destruct (isCollision _ _ _ _ _ _) as [c|]; simpl; [|done].
  assert (State.items st2 = State.items st) as Hit.
  { destruct Hg as (_ & _ & _ & Hg), Hs as (_ & _ & _ & Hs). congruence. }
  match goal with |- (if ?c then _ else _) = _ -> _ => destruct c end;
    intros [= <-]; simpl; rewrite ?Hit; [|done].
  rewrite lookup_alter. case_decide; [|done].
  subst k. by destruct (State.items st !! Item.id item).
Qed.


(** ** Move events *)

Lemma movementX_inv options element data st ev row item timePerPixel st'
  movement :
  lookupMovement (State.movementState st) (Item.id (Data.item data))
  = Some movement ->
  movementX options element data st ev row item timePerPixel = Some st' ->
  exists ganttLeft collision,
    Movement.ganttLeft movement = Some ganttLeft
    /\ let S := Time.start (Item.time item) in
       let E := Time.end_ (Item.time item) in
       let leftMs := ChartTime.leftGlobal (State.time st)
                     + (Event.clientX ev - ganttLeft) * timePerPixel in
       let finalAdd :=
         getSnapStart options data S (leftMs - S) (Item.info item) - S in
       isCollision options st (Row.id row) (Item.id item)
         (S + finalAdd) (E + finalAdd) = Some collision
       /\ State.items st'
          = if negb (finalAdd =? 0) && negb collision
            then alter (fun i => Item.setTime i
                                   (moveItem options data item finalAdd (Item.time i)))
                   (Item.id (Data.item data)) (State.items st)
            else State.items st.
Proof.
  intros Hm. unfold movementX. rewrite (getMovement_found _ _ _ Hm).
  destruct (Movement.ganttLeft movement) as [ganttLeft|]; simpl; [|done].
  destruct (moveGhost options element data st ev) as [st1|] eqn:Hg; simpl; [|done].
  apply moveGhost_store in Hg.
  rewrite (isCollision_store _ _ _ _ _ _ _ Hg).
  destruct Hg as (Ht & _ & _ & Hi). rewrite Ht.
  destruct (isCollision _ _ _ _ _ _) as [collision|] eqn:Hc; simpl; [|done].
  intros H. exists ganttLeft, collision. split; [done|]. split; [done|].
  destruct (negb _ && negb collision); injection H as <-; simpl; by rewrite Hi.
Qed.

(** C4.  Take a pointer-move on an item that is being moved, and suppose the
    event changes the item's interval (the move was accepted).  Then the
    committed delta is [snapStart(S, rawDelta, item) - S], where [S] is the
    current start and [rawDelta] the pixel-derived delta; it is not zero; the
    new start is [S] plus that delta; the new end is
    [snapEnd(currentEnd, delta, item) - 1]; and the validator, asked about the
    interval shifted by that delta in the item's current row, answered false. *)
Theorem move_commits_snapped_interval options element data st ev st' movement
  item item' :
  lookupMovement (State.movementState st) (Item.id (Data.item data))
  = Some movement ->
  Movement.moving movement = true ->
  State.items st !! Item.id (Data.item data) = Some item ->
  documentMove options element data st ev = Some st' ->
  State.items st' !! Item.id (Data.item data) = Some item' ->
  Item.time item' <> Item.time item ->
  exists ganttLeft row,
    Movement.ganttLeft movement = Some ganttLeft
    /\ State.rows st !! Item.rowId item = Some row
    /\ let S := Time.start (Item.time item) in
       let E := Time.end_ (Item.time item) in
       let rawDelta := pointerTime st ganttLeft ev - S in
       let delta := getSnapStart options data S rawDelta (Item.info item) - S in
       delta <> 0
       /\ Time.start (Item.time item') = S + delta
       /\ Time.end_ (Item.time item')
          = getSnapEnd options data E delta
              (Item.info (Item.setTime item (Time.mk (S + delta) E))) - 1
       /\ isCollision options st (Row.id row) (Item.id item)
            (S + delta) (E + delta) = Some false.
Proof.
  intros Hm Hmoving Hitem Hdoc Hitem' Hchanged.
  unfold documentMove in Hdoc. rewrite (getMovement_found _ _ _ Hm) in Hdoc.
  rewrite Hmoving in Hdoc. cbn [orb] in Hdoc. rewrite Hitem in Hdoc.
  cbn [mbind option_bind] in Hdoc.
  apply bind_Some in Hdoc as (stX & HX & Hrest).
  assert (Item.time <$> State.items st' !! Item.id (Data.item data)
          = Item.time <$> State.items stX !! Item.id (Data.item data)) as Htimes.
  { destruct (negb _ || _) in Hrest.
    - by injection Hrest as ->.
    - eapply moveRow_times; eauto. }
  rewrite Hitem' in Htimes. cbn [fmap option_fmap option_map] in Htimes.
  match type of HX with (if ?c then _ else _) = _ => destruct c end.
  2:{ injection HX as <-. rewrite Hitem in Htimes. simpl in Htimes. congruence. }
  apply bind_Some in HX as (row & Hrow & HX).
  destruct (movementX_inv _ _ _ _ _ _ _ _ _ _ Hm HX)
    as (ganttLeft & collision & Hgl & Hc & Hitems).
  exists ganttLeft, row. split; [done|]. split; [done|].
  cbv zeta in *. unfold pointerTime.
  set (delta := getSnapStart options data _ _ _ - _) in *.
  rewrite Hitems in Htimes.
  destruct (negb (delta =? 0) && negb collision) eqn:Hcommit.
  - rewrite lookup_alter in Htimes. rewrite decide_True in Htimes by done.
    rewrite Hitem in Htimes. simpl in Htimes. injection Htimes as ->.
    apply andb_true_iff in Hcommit as [Hd Hcol].
    apply negb_true_iff in Hcol. subst collision.
    repeat split; [lia|done].
  - rewrite Hitem in Htimes. simpl in Htimes. congruence.
Qed.

(** A move of [I1] by 30 units: the record is moving with its ghost shown, the
    pointer is at pixel 130. *)
Lemma move_commits_snapped_interval_witness :
  exists ganttLeft row,
    Movement.ganttLeft draggedMovement = Some ganttLeft
    /\ State.rows dragState !! Item.rowId I1 = Some row
    /\ let S := Time.start (Item.time I1) in
       let E := Time.end_ (Item.time I1) in
       let rawDelta := pointerTime dragState ganttLeft (pointerAt 130) - S in
       let delta :=
         getSnapStart defaultOptions (Data.mk I1 R1) S rawDelta (Item.info I1)
         - S in
       delta <> 0
       /\ Time.start (Item.time (plainItem "I1" 130 229 "R1")) = S + delta
       /\ Time.end_ (Item.time (plainItem "I1" 130 229 "R1"))
          = getSnapEnd defaultOptions (Data.mk I1 R1) E delta
              (Item.info (Item.setTime I1 (Time.mk (S + delta) E))) - 1
       /\ isCollision defaultOptions dragState (Row.id row) (Item.id I1)
            (S + delta) (E + delta) = Some false.
Proof.
  eapply (move_commits_snapped_interval defaultOptions plainElement
            (Data.mk I1 R1) dragState (pointerAt 130) _ draggedMovement I1
            (plainItem "I1" 130 229 "R1")).
  - reflexivity.
  - reflexivity.
  - reflexivity.
  - vm_compute. reflexivity.
  - vm_compute. reflexivity.
  - discriminate.
Defined.

(** ** Resize events *)

Lemma isCollision_false_width options st rowId itemId start end_ :
  Options.collisionDetection options = true ->
  isCollision options st rowId itemId start end_ = Some false ->
  1 < Z.abs (end_ - start).
Proof.
  intros Hcd. unfold isCollision, date_diff. rewrite Hcd, abs_by_sign. simpl.
  destruct (Options.outOfBorders options && _); [done|].
  destruct (Z.abs (end_ - start) <=? 1) eqn:Hd; [done|]. lia.
Qed.

Lemma resizeX_inv options data st ev row item timePerPixel st' movement :
  lookupMovement (State.movementState st) (Item.id (Data.item data))
  = Some movement ->
  resizeX options data st ev row item timePerPixel = Some st' ->
  State.items st' = State.items st
  \/ exists ganttLeft,
       Movement.ganttLeft movement = Some ganttLeft
       /\ let S := Time.start (Item.time item) in
          let E := Time.end_ (Item.time item) in
          let leftMs := ChartTime.leftGlobal (State.time st)
                        + (Event.clientX ev - ganttLeft) * timePerPixel in
          let add := leftMs - E in
          let finalAdd := getSnapEnd options data E add (Item.info item) - 1 - E in
          ~ E + add < S
          /\ finalAdd <> 0
          /\ isCollision options st (Row.id row) (Item.id item) S (E + finalAdd)
             = Some false
          /\ State.items st'
             = alter (fun i => Item.setTime i
                                 (resizeItem options data item finalAdd (Item.time i)))
                 (Item.id (Data.item data)) (State.items st).
Proof.
  intros Hm. unfold resizeX.
  destruct (negb (isResizable options data)); [intros [= <-]; by left|].
  rewrite (getMovement_found _ _ _ Hm).
  destruct (Movement.ganttLeft movement) as [ganttLeft|]; simpl; [|done].
  match goal with |- (if ?c then _ else _) = _ -> _ => destruct c eqn:Hguard end;
    [intros [= <-]; by left|].
  destruct (isCollision _ _ _ _ _ _) as [collision|] eqn:Hc; simpl; [|done].
  match goal with |- (if ?c then _ else _) = _ -> _ => destruct c eqn:Hcommit end;
    [|intros [= <-]; by left].
  intros [= <-]. right. exists ganttLeft. split; [done|].
  apply andb_true_iff in Hcommit as [Hd Hcol].
  apply negb_true_iff in Hcol. subst collision.
  repeat split; [lia|lia|done].
Qed.

(** C2 (as amended).  With the default snap functions in force for the item
    and collision detection enabled, a resize pointer-move that changes the
    item's interval leaves the start where it was and puts the end after it;
    the time under the pointer, which is the proposed end, was then after the
    start.  A proposal at or before the start is never committed. *)
Theorem resize_keeps_interval options element data st ev st' movement item item' :
  Options.collisionDetection options = true ->
  (forall t d i, getSnapStart options data t d i = t + d) ->
  (forall t d i, getSnapEnd options data t d i = t + d) ->
  lookupMovement (State.movementState st) (Item.id (Data.item data))
  = Some movement ->
  Movement.moving movement = false ->
  Movement.resizing movement = true ->
  State.items st !! Item.id (Data.item data) = Some item ->
  documentMove options element data st ev = Some st' ->
  State.items st' !! Item.id (Data.item data) = Some item' ->
  Item.time item' <> Item.time item ->
  exists ganttLeft,
    Movement.ganttLeft movement = Some ganttLeft
    /\ Time.start (Item.time item) < pointerTime st ganttLeft ev
    /\ Time.start (Item.time item') = Time.start (Item.time item)
    /\ Time.start (Item.time item') < Time.end_ (Item.time item').
Proof.
  intros Hcd HsnapS HsnapE Hm Hmoving Hresizing Hitem Hdoc Hitem' Hchanged.
  unfold documentMove in Hdoc. rewrite (getMovement_found _ _ _ Hm) in Hdoc.
  rewrite Hmoving, Hresizing in Hdoc. cbn [orb] in Hdoc. rewrite Hitem in Hdoc.
  cbn [mbind option_bind] in Hdoc.
  destruct (match Item.resizable item with Some b => b | None => true end).
  2:{ injection Hdoc as <-. congruence. }
  apply bind_Some in Hdoc as (row & Hrow & HX).
  destruct (resizeX_inv _ _ _ _ _ _ _ _ _ Hm HX)
    as [Hsame|(ganttLeft & Hgl & Hguard & Hadd & Hc & Hitems)].
  { rewrite Hsame in Hitem'. congruence. }
  exists ganttLeft. split; [done|].
  rewrite Hitems, lookup_alter, decide_True, Hitem in Hitem' by done.
  injection Hitem' as <-.
  apply (isCollision_false_width _ _ _ _ _ _ Hcd) in Hc.
  revert Hguard Hadd Hc. unfold pointerTime, resizeItem. simpl.
  rewrite !HsnapE, HsnapS. lia.
Qed.

(** A resize of [I1] with the pointer at pixel 180: the end moves to 178. *)
Lemma resize_keeps_interval_witness :
  exists ganttLeft,
    Movement.ganttLeft resizedMovement = Some ganttLeft
    /\ Time.start (Item.time I1) < pointerTime resizeState ganttLeft (pointerAt 180)
    /\ Time.start (Item.time (plainItem "I1" 100 178 "R1"))
       = Time.start (Item.time I1)
    /\ Time.start (Item.time (plainItem "I1" 100 178 "R1"))
       < Time.end_ (Item.time (plainItem "I1" 100 178 "R1")).
Proof.
  eapply (resize_keeps_interval defaultOptions plainElement (Data.mk I1 R1)
            resizeState (pointerAt 180) _ resizedMovement I1
            (plainItem "I1" 100 178 "R1")).
  - reflexivity.
  - reflexivity.
  - reflexivity.
  - reflexivity.
  - reflexivity.
  - reflexivity.
  - reflexivity.
  - vm_compute. reflexivity.
  - vm_compute. reflexivity.
  - discriminate.
Defined.

(** C2 (as stated) fails twice over.  With collision detection disabled and
    the default snap functions, a resize of [I1], on [100, 200], with the
    pointer at its start commits [100, 98].  With collision detection enabled
    and a start-snap function of the item that rounds up to the next multiple
    of 100, a resize of an item on [150, 400] with the pointer at 190 commits
    [200, 188]. *)
Lemma resize_inverts_interval :
  (st' ← documentMove noDetection plainElement (Data.mk I1 R1) resizeState
           (pointerAt 100);
   Item.time <$> State.items st' !! "I1") = Some (Time.mk 100 98)
  /\ (st' ← documentMove defaultOptions plainElement (Data.mk snappedItem snappedRow)
           snappedState (pointerAt 190);
      Item.time <$> State.items st' !! "I3") = Some (Time.mk 200 188).
Proof. split; vm_compute; reflexivity. Qed.


Lemma removeChild_spec children node :
  NoDup children -> node ∈ children ->
  exists children',
    removeChild children node = Some children'
    /\ NoDup children'
    /\ forall n, n ∈ children' <-> n ∈ children /\ n <> node.
Proof.
  induction children as [|c rest IH]; simpl.
  - intros _ H. by apply elem_of_nil in H.
  - intros Hnd H. apply NoDup_cons in Hnd as [Hc Hnd].
    case_bool_decide as Hcn.
    + subst c. exists rest. split; [done|]. split; [done|].
      intros n. rewrite elem_of_cons. split.
      * intros Hn. split; [by right|]. by intros ->.
      * intros [[?|?] ?]; done.
    + apply elem_of_cons in H as [->|H]; [done|].
      destruct (IH Hnd H) as (rest' & -> & Hnd' & Hin).
      exists (c :: rest'). split; [done|]. split.
      * apply NoDup_cons. split; [|done]. rewrite Hin. by intros [? _].
      * intros n. rewrite !elem_of_cons, Hin. split.
        -- intros [->|[? ?]]; [split; [by left|congruence]|split; [by right|done]].
        -- intros [[?|?] ?]; [by left|by right].
Qed.

Lemma ghostNodes_split l1 k m l2 :
  ghostNodes (l1 ++ (k, m) :: l2) = ghostNodes l1 ++ ghostOf m ++ ghostNodes l2.
Proof.
  unfold ghostNodes, ghostOf. rewrite omap_app. f_equal. simpl.
  by destruct (Movement.ghost m).
Qed.

Lemma ghostNodes_storeMovement_same ms k m m' :
  lookupMovement ms k = Some m -> ghostOf m' = ghostOf m ->
  ghostNodes (storeMovement ms k m') = ghostNodes ms.
Proof.
  intros Hl Hg. destruct (lookupMovement_split _ _ _ Hl) as (l1 & l2 & -> & _ & ->).
  rewrite !ghostNodes_split. by rewrite Hg.
Qed.

Lemma ghostNodes_storeMovement_fresh ms k m' :
  lookupMovement ms k = None -> ghostOf m' = [] ->
  ghostNodes (storeMovement ms k m') = ghostNodes ms.
Proof.
  intros Hl Hg. destruct (storeMovement_fresh_split _ _ Hl) as (l1 & l2 & -> & ->).
  rewrite ghostNodes_split, Hg. unfold ghostNodes. by rewrite omap_app.
Qed.

Lemma storeMovement_NoDup ms k m' : NoDup ms.*1 -> NoDup (storeMovement ms k m').*1.
Proof.
  intros Hnd. destruct (lookupMovement ms k) as [m|] eqn:Hl.
  - by rewrite (storeMovement_keys_found _ _ _ _ Hl).
  - apply lookupMovement_None in Hl.
    destruct (storeMovement_fresh_split ms k) as (l1 & l2 & -> & ->);
      [by apply lookupMovement_None|].
    rewrite fmap_app, fmap_cons. rewrite fmap_app in Hnd, Hl.
    apply NoDup_app in Hnd as (Hnd1 & Hdisj & Hnd2).
    apply not_elem_of_app in Hl as [Hl1 Hl2].
    apply NoDup_app. split; [done|]. split.
    + intros x Hx [->|Hx2]%elem_of_cons; [done|]. by apply (Hdisj x).
    + apply NoDup_cons. by split.
Qed.

(** A write that keeps the ghost node of the record keeps the state well
    formed. *)
Lemma wellFormedParts_store options ms children next k m' :
  wellFormedParts options ms children next ->
  ghostOf m' = default [] (ghostOf <$> lookupMovement ms k) ->
  wellFormedParts options (storeMovement ms k m') children next.
Proof.
  intros (Hk & Hc & Hin & Hg & Hoff & Hnext) Hghost.
  assert (ghostNodes (storeMovement ms k m') = ghostNodes ms) as Heq.
  { destruct (lookupMovement ms k) as [m|] eqn:Hl; simpl in Hghost.
    - by eapply ghostNodes_storeMovement_same.
    - by apply ghostNodes_storeMovement_fresh. }
  unfold wellFormedParts. rewrite Heq.
  split; [by apply storeMovement_NoDup|done].
Qed.

Lemma wellFormed_setMovement options st k m' :
  wellFormed options st ->
  ghostOf m'
  = default [] (ghostOf <$> lookupMovement (State.movementState st) k) ->
  wellFormed options (setMovement st k m').
Proof. intros Hwf Hg. by apply wellFormedParts_store. Qed.

Lemma wellFormed_getMovement options st data :
  wellFormed options st -> wellFormed options (getMovement st data).1.
Proof.
  intros Hwf. unfold getMovement.
  destruct (lookupMovement _ _) eqn:Hl; simpl; [done|].
  apply wellFormed_setMovement; [done|]. by rewrite Hl.
Qed.

Lemma ghostNodes_nil_lookup ms k m :
  ghostNodes ms = [] -> lookupMovement ms k = Some m -> Movement.ghost m = None.
Proof.
  intros Hnil Hl. destruct (lookupMovement_split _ _ _ Hl) as (l1 & l2 & -> & _).
  rewrite ghostNodes_split in Hnil. unfold ghostOf in Hnil.
  destruct (Movement.ghost m); [|done].
  by apply app_eq_nil in Hnil as [_ ?].
Qed.

(** [destroyGhost] on a tracked item of a well-formed state: it returns, the
    record loses its ghost, the other records stay. *)
Lemma destroyGhost_spec options data st k m :
  wellFormed options st ->
  lookupMovement (State.movementState st) k = Some m ->
  exists st',
    destroyGhost options data st k = Some st'
    /\ wellFormed options st'
    /\ State.movementState st'
       = storeMovement (State.movementState st) k (setGhost m None).
Proof.
  intros Hwf Hl. unfold destroyGhost. rewrite Hl.
  assert (Movement.ghost m = None ->
          storeMovement (State.movementState st) k (setGhost m None)
          = State.movementState st) as Hid.
  { intros Hg. destruct (lookupMovement_split _ _ _ Hl) as (l1 & l2 & Hms & _ & ->).
    rewrite Hms. do 2 f_equal. destruct m; simpl in *. by subst. }
  destruct (Options.ghostNode options) eqn:Hon; simpl.
  2:{ exists st. split; [done|]. split; [done|]. symmetry. apply Hid.
      destruct Hwf as (_ & _ & _ & _ & Hoff & _).
      eapply ghostNodes_nil_lookup; eauto. }
  destruct (Movement.ghost m) as [ghost|] eqn:Hg.
  2:{ exists st. split; [done|]. split; [done|]. symmetry. by apply Hid. }
  destruct Hwf as (Hk & Hc & Hin & Hgn & Hoff & Hnext).
  destruct (lookupMovement_split _ _ _ Hl) as (l1 & l2 & Hms & Hfresh & Hstore).
  rewrite Hms, ghostNodes_split in Hin, Hgn. unfold ghostOf in Hin, Hgn.
  rewrite Hg in Hin, Hgn. simpl in Hin, Hgn.
  apply NoDup_app in Hgn as (Hg1 & Hg12 & Hg2).
  apply NoDup_cons in Hg2 as (Hg2' & Hg2).
  destruct (removeChild_spec (State.timelineChildren st) (Ghost.node ghost) Hc)
    as (children' & -> & Hc' & Hin').
  { apply Hin. rewrite elem_of_app, elem_of_cons. auto. }
  simpl. eexists. split; [reflexivity|]. split; [|reflexivity].
  unfold wellFormed, wellFormedParts; simpl. rewrite Hstore, ghostNodes_split.
  unfold ghostOf; simpl.
  split. { rewrite Hms in Hk. by rewrite fmap_app, fmap_cons in *. }
  split; [done|]. split.
  { intros n. rewrite Hin', Hin, !elem_of_app, elem_of_cons. split.
    - intros [[?|[?|?]] ?]; [by left|done|by right].
    - intros [H|H]; (split; [auto|]); intros ->; [by apply Hg12 in H; apply H; left|done]. }
  split. { apply NoDup_app. split; [done|]. split; [|done].
           intros x Hx Hx2. apply (Hg12 x Hx). by right. }
  split; [congruence|]. intros n Hn. apply Hnext. by apply Hin' in Hn as [? _].
Qed.

(** One round of the loop of [documentUp]. *)
Lemma resetMovement_spec options data st k m :
  wellFormed options st ->
  lookupMovement (State.movementState st) k = Some m ->
  exists st',
    resetMovement options data st k = Some st'
    /\ wellFormed options st'
    /\ State.movementState st'
       = storeMovement (State.movementState st) k (cleared m).
Proof.
  intros Hwf Hl. unfold resetMovement. rewrite Hl. simpl.
  set (m1 := setFlags m false false false).
  assert (wellFormed options (setMovement st k m1)) as Hwf1.
  { apply wellFormed_setMovement; [done|]. by rewrite Hl. }
  destruct (destroyGhost_spec options data (setMovement st k m1) k m1 Hwf1)
    as (st' & Hd & Hwf' & Hms').
  { apply lookup_storeMovement_eq. }
  exists st'. split; [done|]. split; [done|].
  rewrite Hms'. simpl. apply storeMovement_twice.
Qed.

Lemma lookup_storeMovement ms k m k' :
  lookupMovement (storeMovement ms k m) k'
  = if decide (k' = k) then Some m else lookupMovement ms k'.
Proof.
  case_decide as Hk.
  - subst. apply lookup_storeMovement_eq.
  - by apply lookup_storeMovement_ne.
Qed.

(** The whole loop: it returns, and exactly the listed records are cleared. *)
Lemma resetAll_spec options data todo : forall st,
  wellFormed options st ->
  (forall k, k ∈ todo -> is_Some (lookupMovement (State.movementState st) k)) ->
  exists st',
    resetAll options data st todo = Some st'
    /\ wellFormed options st'
    /\ forall k, lookupMovement (State.movementState st') k
                 = if decide (k ∈ todo)
                   then cleared <$> lookupMovement (State.movementState st) k
                   else lookupMovement (State.movementState st) k.
Proof.
  induction todo as [|k0 rest IH]; intros st Hwf Htodo; cbn [resetAll].
  - exists st. split; [done|]. split; [done|]. intros k.
    case_decide as Hk; [by apply elem_of_nil in Hk|done].
  - destruct (Htodo k0) as [m0 Hl0]; [left|].
    destruct (resetMovement_spec options data st k0 m0 Hwf Hl0)
      as (st1 & -> & Hwf1 & Hms1). cbn [mbind option_bind].
    destruct (IH st1 Hwf1) as (st' & -> & Hwf' & Hms').
    { intros k Hk. rewrite Hms1, lookup_storeMovement.
      case_decide; [done|]. apply Htodo. by right. }
    exists st'. split; [done|]. split; [done|]. intros k.
    rewrite Hms', Hms1, lookup_storeMovement.
    destruct (decide (k = k0)) as [->|Hne].
    + rewrite Hl0. destruct (decide (k0 ∈ k0 :: rest)) as [_|Hn].
      * by case_decide.
      * exfalso. apply Hn. left.
    + destruct (decide (k ∈ rest)) as [Hin|Hnin];
        destruct (decide (k ∈ k0 :: rest)) as [Hin'|Hnin']; try done.
      * exfalso. apply Hnin'. by right.
      * apply elem_of_cons in Hin' as [?|?]; done.
Qed.

Lemma getMovement_cases st data :
  (exists m, lookupMovement (State.movementState st) (Item.id (Data.item data))
             = Some m /\ getMovement st data = (st, m))
  \/ (lookupMovement (State.movementState st) (Item.id (Data.item data)) = None
      /\ getMovement st data
         = (setMovement st (Item.id (Data.item data)) Movement.fresh,
            Movement.fresh)).
Proof.
  unfold getMovement. destruct (lookupMovement _ _) as [m|]; [left|right]; eauto.
Qed.


(** [documentUp] of an action whose item is in one of the three phases. *)
Lemma documentUp_active options data st ev m :
  wellFormed options st ->
  lookupMovement (State.movementState st) (Item.id (Data.item data)) = Some m ->
  active m = true ->
  exists st',
    documentUp options data st ev = Some st'
    /\ wellFormed options st'
    /\ forall k, lookupMovement (State.movementState st') k
                 = cleared <$> lookupMovement (State.movementState st) k.
Proof.
  intros Hwf Hl Hact. unfold documentUp. rewrite (getMovement_found _ _ _ Hl).
  unfold active in Hact. rewrite Hact.
  set (itemId := Item.id (Data.item data)) in *.
  set (m1 := setFlags m false false false).
  set (st1 := saveMovement (setMovement st itemId m1) itemId m1).
  assert (wellFormed options st1) as Hwf1.
  { apply (wellFormed_setMovement options st itemId m1 Hwf). by rewrite Hl. }
  destruct (resetAll_spec options data (State.movementState st1).*1 st1 Hwf1)
    as (st' & Hr & Hwf' & Hms').
  { intros k Hk. destruct (lookupMovement _ k) eqn:E; [done|].
    by apply lookupMovement_None in E. }
  exists st'. split; [done|]. split; [done|]. intros k. rewrite Hms'.
  change (State.movementState st1)
    with (storeMovement (State.movementState st) itemId m1).
  rewrite lookup_storeMovement.
  destruct (decide (k = itemId)) as [->|Hne].
  - rewrite Hl. case_decide as Hk; [done|]. exfalso.
    rewrite (storeMovement_keys_found _ _ _ _ Hl) in Hk.
    apply lookupMovement_None in Hk. congruence.
  - case_decide as Hk; [done|].
    rewrite (storeMovement_keys_found _ _ _ _ Hl) in Hk.
    apply lookupMovement_None in Hk. by rewrite Hk.
Qed.

(** [documentUp] of an action whose item is idle: at most a fresh record. *)
Lemma documentUp_idle options data st ev :
  active (getMovement st data).2 = false ->
  documentUp options data st ev = Some (getMovement st data).1.
Proof.
  unfold documentUp, active. destruct (getMovement st data) as [st0 m0]; simpl.
  by intros ->.
Qed.






(** ** The wait timer *)


Lemma labelDown_armed data st ev :
  notPrimary ev = false ->
  exists m,
    labelDown data st ev
    = (saveMovement
         (setMovement (getMovement st data).1 (Item.id (Data.item data)) m)
         (Item.id (Data.item data)) m, true)
    /\ Movement.waiting m = true
    /\ Movement.ghost m = Movement.ghost (getMovement st data).2.
Proof.
  intros Hp. unfold labelDown. rewrite Hp.
  destruct (getMovement st data) as [st0 m0]. simpl. eexists. by split.
Qed.

Lemma wellFormed_labelDown options data st ev :
  wellFormed options st -> wellFormed options (labelDown data st ev).1.
Proof.
  intros Hwf. unfold labelDown. destruct (notPrimary ev); [done|].
  pose proof (wellFormed_getMovement options st data Hwf) as Hwf0.
  pose proof (getMovement_lookup st data) as Hl.
  destruct (getMovement st data) as [st0 m0]. simpl in *.
  apply (wellFormed_setMovement options st0 _ _ Hwf0). by rewrite Hl.
Qed.

(** *** What the handlers do to the flags of one record *)





























(** ** Well-formedness is an invariant *)

Lemma wellFormed_parts options st st' :
  State.movementState st' = State.movementState st ->
  State.timelineChildren st' = State.timelineChildren st ->
  State.nextNode st' = State.nextNode st ->
  wellFormed options st -> wellFormed options st'.
Proof. unfold wellFormed. by intros -> -> ->. Qed.

Lemma wellFormed_initial options st : initial st -> wellFormed options st.
Proof.
  intros [Hms Hc]. unfold wellFormed, wellFormedParts. rewrite Hms, Hc. simpl.
  split; [apply NoDup_nil_2|]. split; [apply NoDup_nil_2|].
  split; [done|]. split; [apply NoDup_nil_2|]. split; [done|].
  by intros n ?%elem_of_nil.
Qed.

Lemma wellFormed_createGhost options element data st ev ganttLeft ganttTop :
  wellFormed options st ->
  wellFormed options (createGhost options element data st ev ganttLeft ganttTop).
Proof.
  intros Hwf. unfold createGhost.
  pose proof (wellFormed_getMovement options st data Hwf) as Hwf0.
  pose proof (getMovement_lookup st data) as Hl.
  destruct (getMovement st data) as [st0 m0]. cbn [fst snd] in *.
  destruct (Options.ghostNode options) eqn:Hon; [|done]. cbn [negb orb].
  case_bool_decide as Hghost; [done|].
  assert (Movement.ghost m0 = None) as Hnone.
  { destruct (Movement.ghost m0); [|done]. destruct Hghost. by eexists. }
  destruct Hwf0 as (Hk & Hc & Hin & Hgn & Hoff & Hnext).
  destruct (lookupMovement_split _ _ _ Hl) as (l1 & l2 & Hms & Hfresh & Hstore).
  rewrite Hms, ghostNodes_split in Hin, Hgn. unfold ghostOf in Hin, Hgn.
  rewrite Hnone in Hin, Hgn. simpl in Hin, Hgn.
  assert (State.nextNode st0 ∉ State.timelineChildren st0) as Hnew.
  { intros H. apply Hnext in H. lia. }
  unfold wellFormed, wellFormedParts; simpl. rewrite Hstore, ghostNodes_split.
  unfold ghostOf; simpl.
  split. { rewrite Hms in Hk. by rewrite fmap_app, fmap_cons in *. }
  split. { apply NoDup_app. split; [done|]. split; [|apply NoDup_singleton].
           by intros x Hx ->%list_elem_of_singleton. }
  split. { intros n. rewrite !elem_of_app, !elem_of_cons, elem_of_nil, Hin,
             elem_of_app. tauto. }
  split. { apply NoDup_app in Hgn as (Hg1 & Hg12 & Hg2).
           apply NoDup_app. split; [done|]. split.
           - intros x Hx Hx'. apply elem_of_cons in Hx' as [->|Hx'].
             + apply Hnew, Hin, elem_of_app. by left.
             + by apply (Hg12 x).
           - apply NoDup_cons. split; [|done].
             intros H. apply Hnew, Hin, elem_of_app. by right. }
  split; [congruence|].
  intros n [Hn| ->%list_elem_of_singleton]%elem_of_app; [|lia].
  apply Hnext in Hn. lia.
Qed.

Lemma wellFormed_labelTimer options element data st ev st' :
  wellFormed options st ->
  labelTimer options element data st ev = Some st' ->
  wellFormed options st'.
Proof.
  intros Hwf. unfold labelTimer.
  destruct (lookupMovement _ _) as [m|] eqn:Hl; simpl; [|done].
  destruct (Movement.waiting m); simpl; [|by intros [= <-]].
  destruct (State.items st !! _); simpl; [|done].
  destruct (State.timelineRect st) as [rectLeft rectTop].
  intros [= <-]. apply wellFormed_createGhost.
  apply (wellFormed_setMovement options st _ _ Hwf). by rewrite Hl.
Qed.

Lemma wellFormed_resizerDown options data st ev st' :
  wellFormed options st ->
  resizerDown data st ev = Some st' ->
  wellFormed options st'.
Proof.
  intros Hwf. unfold resizerDown. destruct (notPrimary ev); [by intros [= <-]|].
  pose proof (wellFormed_getMovement options st data Hwf) as Hwf0.
  pose proof (getMovement_lookup st data) as Hl.
  destruct (getMovement st data) as [st0 m0]. cbn [fst snd] in *.
  destruct (State.items st0 !! _); simpl; [|done].
  destruct (State.timelineRect st0) as [rectLeft rectTop].
  intros [= <-]. apply (wellFormed_setMovement options st0 _ _ Hwf0).
  by rewrite Hl.
Qed.

Lemma wellFormed_moveGhost options element data st ev st' :
  wellFormed options st ->
  moveGhost options element data st ev = Some st' ->
  wellFormed options st'.
Proof.
  intros Hwf. unfold moveGhost.
  destruct (Options.ghostNode options); [|by intros [= <-]].
  pose proof (wellFormed_getMovement options st data Hwf) as Hwf0.
  pose proof (getMovement_lookup st data) as Hl.
  destruct (getMovement st data) as [st0 m0]. cbn [fst snd] in *.
  destruct (Movement.ganttLeft m0); simpl; [|done].
  destruct (Movement.ghost m0) as [ghost|] eqn:Hg; simpl; [|done].
  destruct (Movement.ganttTop m0); simpl; [|done].
  destruct (Movement.itemTop m0); simpl; [|done].
  intros [= <-]. apply (wellFormed_setMovement options st0 _ _ Hwf0).
  rewrite Hl. unfold ghostOf. simpl. by rewrite Hg.
Qed.

Lemma wellFormed_movementX options element data st ev row item timePerPixel st' :
  wellFormed options st ->
  movementX options element data st ev row item timePerPixel = Some st' ->
  wellFormed options st'.
Proof.
  intros Hwf. unfold movementX.
  pose proof (wellFormed_getMovement options st data Hwf) as Hwf0.
  destruct (getMovement st data) as [st0 m0]. cbn [fst snd] in *.
  destruct (Movement.ganttLeft m0); simpl; [|done].
  destruct (moveGhost options element data st0 ev) as [st1|] eqn:Hg; simpl; [|done].
  apply (wellFormed_moveGhost _ _ _ _ _ _ Hwf0) in Hg.
  destruct (isCollision _ _ _ _ _ _); simpl; [|done].
  destruct (negb _ && negb _); by intros [= <-].
Qed.

Lemma wellFormed_resizeX options data st ev row item timePerPixel st' :
  wellFormed options st ->
  resizeX options data st ev row item timePerPixel = Some st' ->
  wellFormed options st'.
Proof.
  intros Hwf. unfold resizeX.
  destruct (negb (isResizable options data)); [by intros [= <-]|].
  pose proof (wellFormed_getMovement options st data Hwf) as Hwf0.
  destruct (getMovement st data) as [st0 m0]. cbn [fst snd] in *.
  destruct (Movement.ganttLeft m0); simpl; [|done].
  destruct (_ <? _); [by intros [= <-]|].
  destruct (isCollision _ _ _ _ _ _); simpl; [|done].
  destruct (negb _ && negb _); by intros [= <-].
Qed.

Lemma wellFormed_moveRow options element data st ev moveable st' :
  wellFormed options st ->
  moveRow options element data st ev moveable = Some st' ->
  wellFormed options st'.
Proof.
  intros Hwf. unfold moveRow, movementY.
  destruct (moveGhost options element data st ev) as [st1|] eqn:Hg; simpl; [|done].
  apply (wellFormed_moveGhost _ _ _ _ _ _ Hwf) in Hg.
  pose proof (wellFormed_getMovement options st1 data Hg) as Hwf2.
  destruct (getMovement st1 data) as [st2 m]. cbn [fst snd] in *.
  destruct (Movement.ganttTop m); simpl; [|done].
  destruct (State.items st2 !! _); simpl; [|done].
  match goal with |- context [?l !! ?i ≫= _] => destruct (l !! i) end;
    simpl; [|done].
  destruct (isCollision _ _ _ _ _ _); simpl; [|done].
  match goal with |- (if ?c then _ else _) = _ -> _ => destruct c end;
    by intros [= <-].
Qed.

Lemma wellFormed_documentMove options element data st ev st' :
  wellFormed options st ->
  documentMove options element data st ev = Some st' ->
  wellFormed options st'.
Proof.
  intros Hwf. unfold documentMove.
  pose proof (wellFormed_getMovement options st data Hwf) as Hwf0.
  destruct (getMovement st data) as [st0 m0]. cbn [fst snd] in *.
  destruct (Movement.moving m0).
  - intros H. apply bind_Some in H as (stX & HX & H).
    assert (wellFormed options stX) as HwfX.
    { match type of HX with (if ?c then _ else _) = _ => destruct c end;
        [|by injection HX as <-].
      apply bind_Some in HX as (item & _ & HX).
      apply bind_Some in HX as (row & _ & HX).
      by eapply wellFormed_movementX. }
    match type of H with (if ?c then _ else _) = _ => destruct c end;
      [by injection H as <-|].
    by eapply wellFormed_moveRow.
  - destruct (Movement.resizing m0); [|by intros [= <-]].
    intros H. apply bind_Some in H as (item & _ & H).
    match type of H with (if ?c then _ else _) = _ => destruct c end;
      [|by injection H as <-].
    apply bind_Some in H as (row & _ & H).
    by eapply wellFormed_resizeX.
Qed.

Lemma wellFormed_documentUp options data st ev st' :
  wellFormed options st ->
  documentUp options data st ev = Some st' ->
  wellFormed options st'.
Proof.
  intros Hwf Hup. destruct (active (getMovement st data).2) eqn:Hact.
  - destruct (getMovement_cases st data) as [(m0 & Hl0 & Hg)|(_ & Hg)];
      rewrite Hg in Hact; [|done]. simpl in Hact.
    destruct (documentUp_active options data st ev m0 Hwf Hl0 Hact)
      as (st1 & Hup1 & Hwf1 & _). congruence.
  - rewrite (documentUp_idle _ _ _ _ Hact) in Hup. injection Hup as <-.
    by apply wellFormed_getMovement.
Qed.

(** Every handler keeps a well-formed state well formed. *)
Lemma wellFormed_handle options element data input st st' :
  wellFormed options st ->
  handle options element data input st = Some st' ->
  wellFormed options st'.
Proof.
  intros Hwf. destruct input as [ev|ev|ev|ev|ev]; cbn [handle].
  - intros [= <-]. by apply wellFormed_labelDown.
  - by apply wellFormed_labelTimer.
  - by apply wellFormed_resizerDown.
  - by apply wellFormed_documentMove.
  - by apply wellFormed_documentUp.
Qed.



(** * Further properties of the ItemMovement plugin *)

(** ** The collision validator and the intervals of a row *)

Lemma sharesPoint_overlaps other start end_ :
  sharesPoint other start end_ -> overlaps other start end_.
Proof. unfold sharesPoint, overlaps. intros (x & Hx & Ho). lia. Qed.

Lemma overlaps_sharesPoint other start end_ :
  start <= end_ -> Time.start other <= Time.end_ other ->
  overlaps other start end_ -> sharesPoint other start end_.
Proof.
  unfold sharesPoint, overlaps. intros Hp Ho [H|[H|H]].
  - exists start. lia.
  - exists end_. lia.
  - exists (Time.start other). lia.
Qed.

(** With detection enabled and the row at hand, the validator answers, and it
    answers false exactly when none of its three reasons applies. *)
Lemma isCollision_decides options st rowId itemId start end_ row :
  Options.collisionDetection options = true ->
  State.rows st !! rowId = Some row ->
  exists b,
    isCollision options st rowId itemId start end_ = Some b
    /\ (b = false
        <-> ~ (Options.outOfBorders options = true /\ outside st start end_)
            /\ 1 < Z.abs (end_ - start)
            /\ ~ otherOverlaps row itemId start end_).
Proof.
  intros Hcd Hrow. unfold isCollision, outside, date_diff.
  rewrite Hcd, abs_by_sign. cbn [negb].
  destruct (Options.outOfBorders options && _) eqn:Hout.
  { exists true. split; [done|]. split; [done|]. intros [Hno _].
    apply andb_true_iff in Hout as [Hoob Hout]. destruct Hno. split; [done|].
    apply orb_true_iff in Hout. lia. }
  destruct (Z.abs (end_ - start) <=? 1) eqn:Hd.
  { exists true. split; [done|]. split; [done|]. lia. }
  rewrite Hrow. cbn [mbind option_bind]. eexists. split; [reflexivity|].
  unfold otherOverlaps. rewrite <- scanRow_true. split.
  - intros Hs. split; [|split; [lia|by rewrite Hs]].
    intros [Hoob Ho]. rewrite Hoob in Hout. cbn [andb] in Hout.
    apply orb_false_iff in Hout. lia.
  - intros (_ & _ & Hs). by destruct (scanRow _ _ _ _).
Qed.

(** X1 (no false negatives).  With detection enabled and an existing row,
    [isCollision] answers; when it answers false, the proposal has no point of
    time in common with any other item of the row; and when the proposal is
    inside the time range, more than one unit wide, and the other items of
    the row have their ends in order, it answers true exactly when some other
    item has a point in common with the proposal. *)
Theorem isCollision_shared_point options st rowId itemId start end_ row :
  Options.collisionDetection options = true ->
  State.rows st !! rowId = Some row ->
  exists b,
    isCollision options st rowId itemId start end_ = Some b
    /\ (b = false ->
        forall other, other ∈ Row.items row -> Item.id other <> itemId ->
                      ~ sharesPoint (Item.time other) start end_)
    /\ (~ (Options.outOfBorders options = true /\ outside st start end_) ->
        start + 1 < end_ ->
        (forall other, other ∈ Row.items row ->
           Time.start (Item.time other) <= Time.end_ (Item.time other)) ->
        (b = true
         <-> exists other, other ∈ Row.items row /\ Item.id other <> itemId
                           /\ sharesPoint (Item.time other) start end_)).
Proof.
  intros Hcd Hrow.
  destruct (isCollision_decides options st rowId itemId start end_ row Hcd Hrow)
    as (b & Hb & Hfalse).
  exists b. split; [done|]. split.
  - intros Hbf other Hin Hid Hshare. apply Hfalse in Hbf as (_ & _ & Hno).
    apply Hno. exists other. split; [done|]. split; [done|].
    by apply sharesPoint_overlaps.
  - intros Hrange Hwide Hproper. split.
    + intros Hbt.
      destruct (scanRow (Row.items row) itemId start end_) eqn:Hscan.
      * apply scanRow_true in Hscan as (other & Hin & Hid & Hov).
        exists other. split; [done|]. split; [done|].
        apply overlaps_sharesPoint; [lia|by apply Hproper|done].
      * assert (b = false) as ->; [|done]. apply Hfalse. split; [done|].
        split; [lia|]. unfold otherOverlaps. rewrite <- scanRow_true.
        by rewrite Hscan.
    + intros (other & Hin & Hid & Hshare). destruct b; [done|].
      destruct Hfalse as [Hfalse _]. destruct (Hfalse eq_refl) as (_ & _ & Hno).
      destruct Hno. exists other. split; [done|]. split; [done|].
      by apply sharesPoint_overlaps.
Qed.

Lemma isCollision_shared_point_witness :
  exists b,
    isCollision defaultOptions (exampleState [] []) "R1" "I1" 150 250 = Some b
    /\ (b = false ->
        forall other, other ∈ Row.items R1 -> Item.id other <> "I1" ->
                      ~ sharesPoint (Item.time other) 150 250)
    /\ (~ (Options.outOfBorders defaultOptions = true
           /\ outside (exampleState [] []) 150 250) ->
        150 + 1 < 250 ->
        (forall other, other ∈ Row.items R1 ->
           Time.start (Item.time other) <= Time.end_ (Item.time other)) ->
        (b = true
         <-> exists other, other ∈ Row.items R1 /\ Item.id other <> "I1"
                           /\ sharesPoint (Item.time other) 150 250)).
Proof.
  apply (isCollision_shared_point defaultOptions (exampleState [] []) "R1" "I1"
           150 250 R1); reflexivity.
Defined.

(** ** What a pointer-move does to the store *)

Lemma itemsEvolve_refl itemId items : itemsEvolve itemId items items.
Proof.
  intros k. destruct (items !! k) as [i|]; constructor.
  split; [by destruct i|done].
Qed.

Lemma itemsEvolve_trans itemId items1 items2 items3 :
  itemsEvolve itemId items1 items2 -> itemsEvolve itemId items2 items3 ->
  itemsEvolve itemId items1 items3.
Proof.
  intros H12 H23 k. specialize (H12 k). specialize (H23 k).
  destruct H12 as [i1 i2 [H12 T12]|]; inversion H23 as [? i3 [H23' T23]|];
    subst; constructor.
  split.
  - rewrite H23', H12. by destruct i1.
  - intros Hk. rewrite T23, T12 by done. done.
Qed.

Lemma itemsEvolve_time itemId items time :
  itemsEvolve itemId items
    (alter (fun i => Item.setTime i (time i)) itemId items).
Proof.
  intros k. rewrite lookup_alter. case_decide as Hk.
  - subst k. destruct (items !! itemId) as [i|]; constructor.
    split; [by destruct i|done].
  - destruct (items !! k) as [i|]; constructor. split; [by destruct i|done].
Qed.

Lemma itemsEvolve_row itemId items k0 rowId :
  itemsEvolve itemId items (alter (fun i => Item.setRowId i rowId) k0 items).
Proof.
  intros k. rewrite lookup_alter. case_decide as Hk.
  - subst k. destruct (items !! k0) as [i|]; constructor.
    split; [by destruct i|done].
  - destruct (items !! k) as [i|]; constructor. split; [by destruct i|done].
Qed.

Lemma isCollision_ext options st st' rowId itemId start end_ :
  State.time st' = State.time st -> State.rows st' = State.rows st ->
  isCollision options st' rowId itemId start end_
  = isCollision options st rowId itemId start end_.
Proof. intros Ht Hr. unfold isCollision. by rewrite Ht, Hr. Qed.

(** [documentMove] starts from the state in which the record exists. *)
Lemma documentMove_getMovement options element data st ev :
  documentMove options element data st ev
  = documentMove options element data (getMovement st data).1 ev.
Proof.
  unfold documentMove at 2.
  rewrite (getMovement_found _ _ _ (getMovement_lookup st data)).
  unfold documentMove. by destruct (getMovement st data).
Qed.

(** The move event of a moving item, phase by phase. *)
Lemma documentMove_moving_cases options element data st ev st' m :
  lookupMovement (State.movementState st) (Item.id (Data.item data)) = Some m ->
  Movement.moving m = true ->
  documentMove options element data st ev = Some st' ->
  exists stX,
    ((exists item row,
        State.items st !! Item.id (Data.item data) = Some item
        /\ State.rows st !! Item.rowId item = Some row
        /\ allowsX (isMoveable options data) item = true
        /\ movementX options element data st ev row item
             (ChartTime.timePerPixel (State.time st)) = Some stX)
     \/ (stX = st
         /\ forall item,
              State.items st !! Item.id (Data.item data) = Some item ->
              allowsX (isMoveable options data) item = false))
    /\ ((st' = stX
         /\ (truthy (isMoveable options data) = false
             \/ isMoveable options data = MAxis "x"))
        \/ (truthy (isMoveable options data) = true
            /\ isMoveable options data <> MAxis "x"
            /\ moveRow options element data stX ev (isMoveable options data)
               = Some st')).
Proof.
  intros Hm Hmoving Hdoc. unfold documentMove in Hdoc.
  rewrite (getMovement_found _ _ _ Hm), Hmoving in Hdoc. cbn [orb] in Hdoc.
  apply bind_Some in Hdoc as (stX & HX & Hrest). exists stX. split.
  - destruct (State.items st !! Item.id (Data.item data)) as [item|] eqn:Hitem.
    + cbn [mbind option_bind] in HX.
      destruct (isMoveable options data) as [[|]|axis|rowIds] eqn:Hmv;
        cbn [allowsX].
      * apply bind_Some in HX as (row & Hrow & HX). left. by exists item, row.
      * injection HX as <-. right. split; [done|]. by intros ? [= <-].
      * case_bool_decide as Hx.
        -- apply bind_Some in HX as (row & Hrow & HX). left.
           by exists item, row.
        -- injection HX as <-. right. split; [done|]. by intros ? [= <-].
      * case_bool_decide as Hx.
        -- apply bind_Some in HX as (row & Hrow & HX). left.
           exists item, row. by rewrite bool_decide_eq_true_2.
        -- injection HX as <-. right. split; [done|]. intros ? [= <-].
           by rewrite bool_decide_eq_false_2.
    + right. split; [|done].
      destruct (isMoveable options data) as [[|]|axis|rowIds];
        try case_bool_decide; try done; by injection HX as <-.
  - destruct (negb (truthy (isMoveable options data))) eqn:Ht; cbn [orb] in Hrest.
    + injection Hrest as <-. left. split; [done|]. left.
      by apply negb_true_iff in Ht.
    + apply negb_false_iff in Ht.
      destruct (isMoveable options data) as [b|axis|rowIds] eqn:Hmv.
      * right. done.
      * case_bool_decide as Hx.
        -- injection Hrest as <-. left. split; [done|]. right. by subst.
        -- right. split; [done|]. split; [congruence|done].
      * right. done.
Qed.

(** The resize event of an item that is resizing and not moving. *)
Lemma documentMove_resizing_cases options element data st ev st' m :
  lookupMovement (State.movementState st) (Item.id (Data.item data)) = Some m ->
  Movement.moving m = false ->
  Movement.resizing m = true ->
  documentMove options element data st ev = Some st' ->
  exists item,
    State.items st !! Item.id (Data.item data) = Some item
    /\ ((Item.resizable item = Some false /\ st' = st)
        \/ (Item.resizable item <> Some false
            /\ exists row,
                 State.rows st !! Item.rowId item = Some row
                 /\ resizeX options data st ev row item
                      (ChartTime.timePerPixel (State.time st)) = Some st')).
Proof.
  intros Hm Hmoving Hresizing Hdoc. unfold documentMove in Hdoc.
  rewrite (getMovement_found _ _ _ Hm), Hmoving, Hresizing in Hdoc.
  cbn [orb] in Hdoc.
  apply bind_Some in Hdoc as (item & Hitem & Hdoc). exists item.
  split; [done|]. rewrite Hitem in Hdoc. cbn [mbind option_bind] in Hdoc.
  destruct (Item.resizable item) as [[|]|].
  - right. split; [done|]. apply bind_Some in Hdoc as (row & Hrow & HX).
    by exists row.
  - left. by injection Hdoc as <-.
  - right. split; [done|]. apply bind_Some in Hdoc as (row & Hrow & HX).
    by exists row.
Qed.

Lemma movementX_frame options element data st ev row item timePerPixel st' :
  movementX options element data st ev row item timePerPixel = Some st' ->
  State.time st' = State.time st /\ State.rows st' = State.rows st
  /\ State.visibleRows st' = State.visibleRows st
  /\ itemsEvolve (Item.id (Data.item data)) (State.items st) (State.items st').
Proof.
  unfold movementX.
  pose proof (getMovement_store st data) as Hs0.
  destruct (getMovement st data) as [st0 m0]. cbn [fst snd] in *.
  destruct (Movement.ganttLeft m0); simpl; [|done].
  destruct (moveGhost options element data st0 ev) as [st1|] eqn:Hg; simpl; [|done].
  apply moveGhost_store in Hg.
  destruct Hs0 as (T0 & R0 & V0 & I0), Hg as (T1 & R1 & V1 & I1).
  destruct (isCollision _ _ _ _ _ _); simpl; [|done].
  destruct (negb _ && negb _); intros [= <-]; simpl;
    (split; [congruence|]); (split; [congruence|]); (split; [congruence|]).
  - rewrite I1, I0. apply itemsEvolve_time.
  - rewrite I1, I0. apply itemsEvolve_refl.
Qed.

Lemma resizeX_frame options data st ev row item timePerPixel st' :
  resizeX options data st ev row item timePerPixel = Some st' ->
  State.time st' = State.time st /\ State.rows st' = State.rows st
  /\ State.visibleRows st' = State.visibleRows st
  /\ itemsEvolve (Item.id (Data.item data)) (State.items st) (State.items st').
Proof.
  unfold resizeX.
  destruct (negb (isResizable options data)).
  { intros [= <-]. repeat split; try done. apply itemsEvolve_refl. }
  pose proof (getMovement_store st data) as Hs0.
  destruct (getMovement st data) as [st0 m0]. cbn [fst snd] in *.
  destruct Hs0 as (T0 & R0 & V0 & I0).
  destruct (Movement.ganttLeft m0); simpl; [|done].
  destruct (_ <? _).
  { intros [= <-]. repeat split; try done. rewrite I0. apply itemsEvolve_refl. }
  destruct (isCollision _ _ _ _ _ _); simpl; [|done].
  destruct (negb _ && negb _); intros [= <-]; simpl;
    (split; [congruence|]); (split; [congruence|]); (split; [congruence|]).
  - rewrite I0. apply itemsEvolve_time.
  - rewrite I0. apply itemsEvolve_refl.
Qed.

(** The change of row, taken apart. *)
Lemma moveRow_inv options element data st ev moveable st' :
  moveRow options element data st ev moveable = Some st' ->
  State.time st' = State.time st /\ State.rows st' = State.rows st
  /\ State.visibleRows st' = State.visibleRows st
  /\ (State.items st' = State.items st
      \/ exists item newRow,
           State.items st !! Item.id (Data.item data) = Some item
           /\ newRow ∈ State.visibleRows st
           /\ Row.id newRow <> Item.rowId item
           /\ isCollision options st (Row.id newRow) (Item.id item)
                (Time.start (Item.time item)) (Time.end_ (Item.time item))
              = Some false
           /\ (isArray moveable = true -> includesRow moveable (Row.id newRow) = true)
           /\ (forall m, Row.moveable newRow = Some m -> truthy m = true)
           /\ State.items st'
              = alter (fun i => Item.setRowId i (Row.id newRow)) (Item.id item)
                  (State.items st)).
Proof.
  unfold moveRow, movementY.
  destruct (moveGhost options element data st ev) as [st1|] eqn:Hg; simpl; [|done].
  apply moveGhost_store in Hg.
  pose proof (getMovement_store st1 data) as Hs.
  destruct (getMovement st1 data) as [st2 m]; simpl in *.
  destruct Hg as (T1 & R1 & V1 & I1), Hs as (T2 & R2 & V2 & I2).
  assert (State.time st2 = State.time st) as HT by congruence.
  assert (State.rows st2 = State.rows st) as HR by congruence.
  assert (State.visibleRows st2 = State.visibleRows st) as HV by congruence.
  assert (State.items st2 = State.items st) as HI by congruence.
  destruct (Movement.ganttTop m); simpl; [|done].
  rewrite HI, HV.
  destruct (State.items st !! Item.id (Data.item data)) as [item|] eqn:Hitem;
    simpl; [|done].
  match goal with |- context [?l !! ?i ≫= _] =>
    destruct (l !! i) as [newRow|] eqn:Hnew end; simpl; [|done].
  rewrite (isCollision_ext options st st2) by done.
  destruct (isCollision _ _ _ _ _ _) as [collision|] eqn:Hc; simpl; [|done].
  match goal with |- (if ?c then _ else _) = _ -> _ => destruct c eqn:Hcond end;
    intros [= <-]; simpl; (split; [done|]); (split; [done|]); (split; [done|]).
  2:{ left. done. }
  right. exists item, newRow.
  apply andb_true_iff in Hcond as [Hcond Hrowmv].
  apply andb_true_iff in Hcond as [Hcond Harr].
  apply andb_true_iff in Hcond as [Hne Hcol].
  apply negb_true_iff in Hcol. subst collision.
  apply negb_true_iff, bool_decide_eq_false in Hne.
  split; [done|]. split; [by eapply list_elem_of_lookup_2|]. split; [done|].
  split; [done|]. split.
  { intros Ha. rewrite Ha in Harr. done. }
  split; [|by rewrite HI].
  intros m' Hm'. by rewrite Hm' in Hrowmv.
Qed.

Lemma documentMove_idle options element data st ev m :
  lookupMovement (State.movementState st) (Item.id (Data.item data)) = Some m ->
  Movement.moving m = false ->
  Movement.resizing m = false ->
  documentMove options element data st ev = Some st.
Proof.
  intros Hm Hmoving Hresizing. unfold documentMove.
  by rewrite (getMovement_found _ _ _ Hm), Hmoving, Hresizing.
Qed.

(** X2 (frame of a pointer-move).  Whatever the state, a pointer-move that
    returns leaves the chart time, the rows and the visible rows as they
    were; the item store keeps its items, each with all its fields but [time]
    and [rowId]; and no interval changes but the one of the action's own
    item. *)
Theorem documentMove_frame options element data st ev st' :
  documentMove options element data st ev = Some st' ->
  State.time st' = State.time st
  /\ State.rows st' = State.rows st
  /\ State.visibleRows st' = State.visibleRows st
  /\ itemsEvolve (Item.id (Data.item data)) (State.items st) (State.items st').
Proof.
  rewrite documentMove_getMovement.
  pose proof (getMovement_store st data) as (T0 & R0 & V0 & I0).
  pose proof (getMovement_lookup st data) as Hm.
  destruct (getMovement st data) as [st0 m0]. cbn [fst snd] in *.
  rewrite <- T0, <- R0, <- V0, <- I0. clear T0 R0 V0 I0 st.
  intros Hdoc. destruct (Movement.moving m0) eqn:Hmoving.
  - destruct (documentMove_moving_cases _ _ _ _ _ _ _ Hm Hmoving Hdoc)
      as (stX & HX & HY).
    assert (State.time stX = State.time st0 /\ State.rows stX = State.rows st0
            /\ State.visibleRows stX = State.visibleRows st0
            /\ itemsEvolve (Item.id (Data.item data)) (State.items st0)
                 (State.items stX)) as (TX & RX & VX & IX).
    { destruct HX as [(item & row & _ & _ & _ & HX)|[-> _]].
      - by eapply movementX_frame.
      - repeat split; try done. apply itemsEvolve_refl. }
    destruct HY as [[-> _]|(_ & _ & HY)]; [done|].
    apply moveRow_inv in HY as (TY & RY & VY & IY).
    split; [congruence|]. split; [congruence|]. split; [congruence|].
    eapply itemsEvolve_trans; [exact IX|].
    destruct IY as [->|(item & newRow & _ & _ & _ & _ & _ & _ & ->)].
    + apply itemsEvolve_refl.
    + apply itemsEvolve_row.
  - destruct (Movement.resizing m0) eqn:Hresizing.
    + destruct (documentMove_resizing_cases _ _ _ _ _ _ _ Hm Hmoving Hresizing Hdoc)
        as (item & _ & [[_ ->]|(_ & row & _ & HX)]).
      * repeat split; try done. apply itemsEvolve_refl.
      * by eapply resizeX_frame.
    + rewrite (documentMove_idle _ _ _ _ _ _ Hm Hmoving Hresizing) in Hdoc.
      injection Hdoc as <-. repeat split; try done. apply itemsEvolve_refl.
Qed.

Lemma documentMove_frame_witness :
  State.time dragResult = State.time dragState
  /\ State.rows dragResult = State.rows dragState
  /\ State.visibleRows dragResult = State.visibleRows dragState
  /\ itemsEvolve (Item.id (Data.item (Data.mk I1 R1))) (State.items dragState)
       (State.items dragResult).
Proof.
  apply (documentMove_frame defaultOptions plainElement (Data.mk I1 R1)
           dragState (pointerAt 130) dragResult).
  vm_compute. reflexivity.
Defined.

Lemma allowsX_truthy moveable item :
  allowsX moveable item = true -> truthy moveable = true.
Proof.
  destruct moveable as [b|axis|rowIds]; cbn [allowsX truthy]; [done| |done].
  intros ->%bool_decide_eq_true. done.
Qed.

Lemma movementX_rowIds options element data st ev row item timePerPixel st' m k :
  lookupMovement (State.movementState st) (Item.id (Data.item data)) = Some m ->
  movementX options element data st ev row item timePerPixel = Some st' ->
  Item.rowId <$> State.items st' !! k = Item.rowId <$> State.items st !! k.
Proof.
  intros Hm HX.
  destruct (movementX_inv _ _ _ _ _ _ _ _ _ _ Hm HX)
    as (ganttLeft & collision & _ & _ & ->).
  destruct (negb _ && negb _); [|done].
  rewrite lookup_alter. case_decide; [|done].
  subst k. by destruct (State.items st !! _).
Qed.

(** X3 (the [moveable] setting).  For a pointer-move on a moving item: when
    [moveable] is falsy the event changes nothing at all; when it is ['x'] no
    item changes its row; when it is another axis name, or a list of rows
    that does not hold the item's current row, no interval changes. *)
Theorem documentMove_moveable_policy options element data st ev st' m :
  lookupMovement (State.movementState st) (Item.id (Data.item data)) = Some m ->
  Movement.moving m = true ->
  documentMove options element data st ev = Some st' ->
  (truthy (isMoveable options data) = false -> st' = st)
  /\ (isMoveable options data = MAxis "x" ->
      forall k, Item.rowId <$> State.items st' !! k
                = Item.rowId <$> State.items st !! k)
  /\ (forall axis, isMoveable options data = MAxis axis -> axis <> "x" ->
      forall k, Item.time <$> State.items st' !! k
                = Item.time <$> State.items st !! k)
  /\ (forall rowIds item,
        isMoveable options data = MRows rowIds ->
        State.items st !! Item.id (Data.item data) = Some item ->
        Item.rowId item ∉ rowIds ->
        forall k, Item.time <$> State.items st' !! k
                  = Item.time <$> State.items st !! k).
Proof.
  intros Hm Hmoving Hdoc.
  destruct (documentMove_moving_cases _ _ _ _ _ _ _ Hm Hmoving Hdoc)
    as (stX & HX & HY).
  assert (forall k, Item.time <$> State.items st' !! k
                    = Item.time <$> State.items stX !! k) as Htimes.
  { intros k. destruct HY as [[-> _]|(_ & _ & HY)]; [done|].
    by eapply moveRow_times. }
  split; [|split; [|split]].
  - intros Hfalsy.
    destruct HX as [(item & row & _ & _ & Hallow & _)|[-> _]].
    { apply allowsX_truthy in Hallow. congruence. }
    destruct HY as [[-> _]|(Ht & _)]; [done|congruence].
  - intros Hx k. destruct HY as [[-> _]|(_ & Hne & _)]; [|done].
    destruct HX as [(item & row & _ & _ & _ & HX)|[-> _]]; [|done].
    by eapply movementX_rowIds.
  - intros axis Hmv Hne k. rewrite Htimes.
    destruct HX as [(item & row & _ & _ & Hallow & _)|[-> _]]; [|done].
    rewrite Hmv in Hallow. cbn [allowsX] in Hallow.
    by apply bool_decide_eq_true in Hallow.
  - intros rowIds item Hmv Hitem Hnot k. rewrite Htimes.
    destruct HX as [(item0 & row & Hitem0 & _ & Hallow & _)|[-> _]]; [|done].
    rewrite Hmv in Hallow. cbn [allowsX] in Hallow.
    apply bool_decide_eq_true in Hallow. congruence.
Qed.

Lemma documentMove_moveable_policy_witness :
  (truthy (isMoveable xOnly (Data.mk I1 R1)) = false -> dragResult = dragState)
  /\ (isMoveable xOnly (Data.mk I1 R1) = MAxis "x" ->
      forall k, Item.rowId <$> State.items dragResult !! k
                = Item.rowId <$> State.items dragState !! k)
  /\ (forall axis, isMoveable xOnly (Data.mk I1 R1) = MAxis axis -> axis <> "x" ->
      forall k, Item.time <$> State.items dragResult !! k
                = Item.time <$> State.items dragState !! k)
  /\ (forall rowIds item,
        isMoveable xOnly (Data.mk I1 R1) = MRows rowIds ->
        State.items dragState !! Item.id (Data.item (Data.mk I1 R1)) = Some item ->
        Item.rowId item ∉ rowIds ->
        forall k, Item.time <$> State.items dragResult !! k
                  = Item.time <$> State.items dragState !! k).
Proof.
  apply (documentMove_moveable_policy xOnly plainElement (Data.mk I1 R1)
           dragState (pointerAt 130) dragResult draggedMovement).
  - reflexivity.
  - reflexivity.
  - vm_compute. reflexivity.
Defined.

(** What the X phase of a move leaves under the key of the action's item. *)
Lemma movementX_item options element data st ev row item0 timePerPixel st' m
  item :
  lookupMovement (State.movementState st) (Item.id (Data.item data)) = Some m ->
  State.items st !! Item.id (Data.item data) = Some item ->
  movementX options element data st ev row item0 timePerPixel = Some st' ->
  exists itemX,
    State.items st' !! Item.id (Data.item data) = Some itemX
    /\ Item.id itemX = Item.id item /\ Item.rowId itemX = Item.rowId item.
Proof.
  intros Hm Hitem HX.
  destruct (movementX_inv _ _ _ _ _ _ _ _ _ _ Hm HX)
    as (ganttLeft & collision & _ & _ & ->).
  destruct (negb _ && negb _).
  - rewrite lookup_alter, decide_True, Hitem by done. by eexists.
  - by exists item.
Qed.

(** X4 (change of row).  When a pointer-move on a moving item, stored under
    its id, changes the row of that item, the new row is one of the visible
    rows; it is in the list when [moveable] is a list of rows; it is not
    flagged as not moveable; and the validator found no collision in it for
    the interval that the item has after the event. *)
Theorem documentMove_row_change options element data st ev st' m item item' :
  lookupMovement (State.movementState st) (Item.id (Data.item data)) = Some m ->
  Movement.moving m = true ->
  State.items st !! Item.id (Data.item data) = Some item ->
  Item.id item = Item.id (Data.item data) ->
  documentMove options element data st ev = Some st' ->
  State.items st' !! Item.id (Data.item data) = Some item' ->
  Item.rowId item' <> Item.rowId item ->
  exists newRow,
    newRow ∈ State.visibleRows st
    /\ Item.rowId item' = Row.id newRow
    /\ (forall rowIds, isMoveable options data = MRows rowIds ->
                       Row.id newRow ∈ rowIds)
    /\ (forall mv, Row.moveable newRow = Some mv -> truthy mv = true)
    /\ isCollision options st (Row.id newRow) (Item.id (Data.item data))
         (Time.start (Item.time item')) (Time.end_ (Item.time item'))
       = Some false.
Proof.
  intros Hm Hmoving Hitem Hid Hdoc Hitem' Hrow.
  destruct (documentMove_moving_cases _ _ _ _ _ _ _ Hm Hmoving Hdoc)
    as (stX & HX & HY).
  assert (exists itemX,
            State.items stX !! Item.id (Data.item data) = Some itemX
            /\ Item.id itemX = Item.id item /\ Item.rowId itemX = Item.rowId item)
    as (itemX & HitemX & HidX & HrowX).
  { destruct HX as [(item0 & row & _ & _ & _ & HX)|[-> _]].
    - by eapply movementX_item.
    - by exists item. }
  assert (State.time stX = State.time st /\ State.rows stX = State.rows st
          /\ State.visibleRows stX = State.visibleRows st) as (TX & RX & VX).
  { destruct HX as [(item0 & row & _ & _ & _ & HX)|[-> _]]; [|done].
    apply movementX_frame in HX. tauto. }
  destruct HY as [[-> _]|(_ & _ & HY)]; [congruence|].
  apply moveRow_inv in HY
    as (_ & _ & _ & [HI|(item1 & newRow & Hitem1 & Hin & Hne & Hc & Harr & Hmv & HI)]).
  { rewrite HI in Hitem'. congruence. }
  assert (item1 = itemX) as -> by congruence.
  rewrite HI, HidX, Hid, lookup_alter, decide_True, HitemX in Hitem' by done.
  injection Hitem' as <-. exists newRow. cbn.
  split; [by rewrite <- VX|]. split; [done|]. split.
  { intros rowIds Hrows. rewrite Hrows in Harr. cbn in Harr.
    specialize (Harr eq_refl). by apply bool_decide_eq_true in Harr. }
  split; [done|].
  rewrite (isCollision_ext options st stX) in Hc by done.
  by rewrite HidX, Hid in Hc.
Qed.

Lemma documentMove_row_change_witness :
  exists newRow,
    newRow ∈ State.visibleRows twoRows
    /\ Item.rowId (plainItem "I1" 130 229 "R2") = Row.id newRow
    /\ (forall rowIds, isMoveable defaultOptions (Data.mk I1 R1) = MRows rowIds ->
                       Row.id newRow ∈ rowIds)
    /\ (forall mv, Row.moveable newRow = Some mv -> truthy mv = true)
    /\ isCollision defaultOptions twoRows (Row.id newRow)
         (Item.id (Data.item (Data.mk I1 R1)))
         (Time.start (Item.time (plainItem "I1" 130 229 "R2")))
         (Time.end_ (Item.time (plainItem "I1" 130 229 "R2")))
       = Some false.
Proof.
  eapply (documentMove_row_change defaultOptions plainElement (Data.mk I1 R1)
            twoRows (Event.mk "pointermove" 0 130 50) _ draggedMovement I1
            (plainItem "I1" 130 229 "R2")).
  - reflexivity.
  - reflexivity.
  - reflexivity.
  - reflexivity.
  - vm_compute. reflexivity.
  - vm_compute. reflexivity.
  - discriminate.
Defined.

(** X5 (resizing switched off).  A pointer-move on an item that is resizing
    and not moving changes nothing at all when the options, the item or the
    row of the action switch resizing off, or when the stored item has
    [resizable] false. *)
Theorem documentMove_not_resizable options element data st ev st' m :
  lookupMovement (State.movementState st) (Item.id (Data.item data)) = Some m ->
  Movement.moving m = false ->
  Movement.resizing m = true ->
  documentMove options element data st ev = Some st' ->
  (isResizable options data = false
   \/ exists item, State.items st !! Item.id (Data.item data) = Some item
                   /\ Item.resizable item = Some false) ->
  st' = st.
Proof.
  intros Hm Hmoving Hresizing Hdoc Hoff.
  destruct (documentMove_resizing_cases _ _ _ _ _ _ _ Hm Hmoving Hresizing Hdoc)
    as (item & Hitem & [[_ ->]|(Hres & row & _ & HX)]); [done|].
  destruct Hoff as [Hoff|(item0 & Hitem0 & Hoff)]; [|congruence].
  unfold resizeX in HX. rewrite Hoff in HX. by injection HX as <-.
Qed.

Lemma documentMove_not_resizable_witness :
  default dragState
    (documentMove noResize plainElement (Data.mk I1 R1) resizeState
       (pointerAt 180))
  = resizeState.
Proof.
  apply (documentMove_not_resizable noResize plainElement (Data.mk I1 R1)
           resizeState (pointerAt 180) _ resizedMovement).
  - reflexivity.
  - reflexivity.
  - reflexivity.
  - vm_compute. reflexivity.
  - left. reflexivity.
Defined.

(** ** What an accepted move or resize commits *)

(** A move event that changes the interval of the action's item. *)
Lemma moving_commit options element data st ev st' m item item' :
  lookupMovement (State.movementState st) (Item.id (Data.item data)) = Some m ->
  Movement.moving m = true ->
  State.items st !! Item.id (Data.item data) = Some item ->
  documentMove options element data st ev = Some st' ->
  State.items st' !! Item.id (Data.item data) = Some item' ->
  Item.time item' <> Item.time item ->
  exists ganttLeft row,
    Movement.ganttLeft m = Some ganttLeft
    /\ State.rows st !! Item.rowId item = Some row
    /\ let S := Time.start (Item.time item) in
       let E := Time.end_ (Item.time item) in
       let finalAdd :=
         getSnapStart options data S (pointerTime st ganttLeft ev - S)
           (Item.info item) - S in
       finalAdd <> 0
       /\ isCollision options st (Row.id row) (Item.id item)
            (S + finalAdd) (E + finalAdd) = Some false
       /\ Item.time item' = moveItem options data item finalAdd (Item.time item).
Proof.
  intros Hm Hmoving Hitem Hdoc Hitem' Hchanged.
  destruct (documentMove_moving_cases _ _ _ _ _ _ _ Hm Hmoving Hdoc)
    as (stX & HX & HY).
  assert (Item.time <$> State.items st' !! Item.id (Data.item data)
          = Item.time <$> State.items stX !! Item.id (Data.item data)) as Htimes.
  { destruct HY as [[-> _]|(_ & _ & HY)]; [done|]. by eapply moveRow_times. }
  rewrite Hitem' in Htimes. cbn in Htimes.
  destruct HX as [(item0 & row & Hitem0 & Hrow & _ & HX)|[-> _]].
  2:{ rewrite Hitem in Htimes. cbn in Htimes. congruence. }
  assert (item0 = item) as -> by congruence.
  destruct (movementX_inv _ _ _ _ _ _ _ _ _ _ Hm HX)
    as (ganttLeft & collision & Hgl & Hc & Hitems).
  exists ganttLeft, row. split; [done|]. split; [done|].
  cbv zeta in *. unfold pointerTime.
  set (finalAdd := getSnapStart options data _ _ _ - _) in *.
  rewrite Hitems in Htimes.
  destruct (negb (finalAdd =? 0) && negb collision) eqn:Hcommit.
  - rewrite lookup_alter, decide_True, Hitem in Htimes by done.
    cbn in Htimes. injection Htimes as Htimes.
    apply andb_true_iff in Hcommit as [Hd Hcol].
    apply negb_true_iff in Hcol. subst collision.
    split; [lia|]. split; [done|]. done.
  - rewrite Hitem in Htimes. cbn in Htimes. congruence.
Qed.

(** A resize event that changes the interval of the action's item. *)
Lemma resizing_commit options element data st ev st' m item item' :
  lookupMovement (State.movementState st) (Item.id (Data.item data)) = Some m ->
  Movement.moving m = false ->
  Movement.resizing m = true ->
  State.items st !! Item.id (Data.item data) = Some item ->
  documentMove options element data st ev = Some st' ->
  State.items st' !! Item.id (Data.item data) = Some item' ->
  Item.time item' <> Item.time item ->
  exists ganttLeft row,
    Movement.ganttLeft m = Some ganttLeft
    /\ State.rows st !! Item.rowId item = Some row
    /\ let S := Time.start (Item.time item) in
       let E := Time.end_ (Item.time item) in
       let add := pointerTime st ganttLeft ev - E in
       let finalAdd := getSnapEnd options data E add (Item.info item) - 1 - E in
       ~ E + add < S
       /\ finalAdd <> 0
       /\ isCollision options st (Row.id row) (Item.id item) S (E + finalAdd)
          = Some false
       /\ Item.time item' = resizeItem options data item finalAdd (Item.time item).
Proof.
  intros Hm Hmoving Hresizing Hitem Hdoc Hitem' Hchanged.
  destruct (documentMove_resizing_cases _ _ _ _ _ _ _ Hm Hmoving Hresizing Hdoc)
    as (item0 & Hitem0 & [[_ ->]|(_ & row & Hrow & HX)]); [congruence|].
  assert (item0 = item) as -> by congruence.
  destruct (resizeX_inv _ _ _ _ _ _ _ _ _ Hm HX)
    as [Hsame|(ganttLeft & Hgl & Hguard & Hadd & Hc & Hitems)].
  { rewrite Hsame in Hitem'. congruence. }
  exists ganttLeft, row. split; [done|]. split; [done|].
  rewrite Hitems, lookup_alter, decide_True, Hitem in Hitem' by done.
  injection Hitem' as <-. cbn. unfold pointerTime. by repeat split.
Qed.

(** X6 (default snapping, move).  With the default snap functions, an accepted
    move puts the start of the item at the time under the pointer and its end
    one unit short of the shifted end: every accepted move shortens the item
    by one time unit. *)
Theorem default_move_commit options element data st ev st' m item item' :
  defaultSnaps options data ->
  lookupMovement (State.movementState st) (Item.id (Data.item data)) = Some m ->
  Movement.moving m = true ->
  State.items st !! Item.id (Data.item data) = Some item ->
  documentMove options element data st ev = Some st' ->
  State.items st' !! Item.id (Data.item data) = Some item' ->
  Item.time item' <> Item.time item ->
  exists ganttLeft,
    Movement.ganttLeft m = Some ganttLeft
    /\ Time.start (Item.time item') = pointerTime st ganttLeft ev
    /\ Time.end_ (Item.time item') - Time.start (Item.time item')
       = Time.end_ (Item.time item) - Time.start (Item.time item) - 1.
Proof.
  intros [HsnapS HsnapE] Hm Hmoving Hitem Hdoc Hitem' Hchanged.
  destruct (moving_commit _ _ _ _ _ _ _ _ _ Hm Hmoving Hitem Hdoc Hitem' Hchanged)
    as (ganttLeft & row & Hgl & _ & _ & _ & Htime).
  exists ganttLeft. split; [done|]. rewrite Htime. unfold moveItem. cbn.
  rewrite HsnapE, HsnapS. lia.
Qed.

Lemma default_move_commit_witness :
  exists ganttLeft,
    Movement.ganttLeft draggedMovement = Some ganttLeft
    /\ Time.start (Item.time (plainItem "I1" 130 229 "R1"))
       = pointerTime dragState ganttLeft (pointerAt 130)
    /\ Time.end_ (Item.time (plainItem "I1" 130 229 "R1"))
       - Time.start (Item.time (plainItem "I1" 130 229 "R1"))
       = Time.end_ (Item.time I1) - Time.start (Item.time I1) - 1.
Proof.
  eapply (default_move_commit defaultOptions plainElement (Data.mk I1 R1)
            dragState (pointerAt 130) _ draggedMovement I1
            (plainItem "I1" 130 229 "R1")).
  - split; reflexivity.
  - reflexivity.
  - reflexivity.
  - reflexivity.
  - vm_compute. reflexivity.
  - vm_compute. reflexivity.
  - discriminate.
Defined.

(** X7 (default snapping, resize).  With the default snap functions, an
    accepted resize leaves the start where it was and puts the end two units
    before the time under the pointer. *)
Theorem default_resize_commit options element data st ev st' m item item' :
  defaultSnaps options data ->
  lookupMovement (State.movementState st) (Item.id (Data.item data)) = Some m ->
  Movement.moving m = false ->
  Movement.resizing m = true ->
  State.items st !! Item.id (Data.item data) = Some item ->
  documentMove options element data st ev = Some st' ->
  State.items st' !! Item.id (Data.item data) = Some item' ->
  Item.time item' <> Item.time item ->
  exists ganttLeft,
    Movement.ganttLeft m = Some ganttLeft
    /\ Time.start (Item.time item') = Time.start (Item.time item)
    /\ Time.end_ (Item.time item') = pointerTime st ganttLeft ev - 2.
Proof.
  intros [HsnapS HsnapE] Hm Hmoving Hresizing Hitem Hdoc Hitem' Hchanged.
  destruct (resizing_commit _ _ _ _ _ _ _ _ _ Hm Hmoving Hresizing Hitem Hdoc
              Hitem' Hchanged)
    as (ganttLeft & row & Hgl & _ & _ & _ & _ & Htime).
  exists ganttLeft. split; [done|]. rewrite Htime. unfold resizeItem. cbn.
  rewrite !HsnapE, HsnapS. lia.
Qed.

Lemma default_resize_commit_witness :
  exists ganttLeft,
    Movement.ganttLeft resizedMovement = Some ganttLeft
    /\ Time.start (Item.time (plainItem "I1" 100 178 "R1"))
       = Time.start (Item.time I1)
    /\ Time.end_ (Item.time (plainItem "I1" 100 178 "R1"))
       = pointerTime resizeState ganttLeft (pointerAt 180) - 2.
Proof.
  eapply (default_resize_commit defaultOptions plainElement (Data.mk I1 R1)
            resizeState (pointerAt 180) _ resizedMovement I1
            (plainItem "I1" 100 178 "R1")).
  - split; reflexivity.
  - reflexivity.
  - reflexivity.
  - reflexivity.
  - reflexivity.
  - vm_compute. reflexivity.
  - vm_compute. reflexivity.
  - discriminate.
Defined.

Lemma isCollision_false_inside options st rowId itemId start end_ :
  Options.collisionDetection options = true ->
  Options.outOfBorders options = true ->
  isCollision options st rowId itemId start end_ = Some false ->
  ChartTime.from (State.time st) <= start /\ end_ <= ChartTime.to (State.time st).
Proof.
  intros Hcd Hoob. unfold isCollision. rewrite Hcd, Hoob. cbn [negb andb].
  destruct (_ || _) eqn:Hout; [done|]. intros _.
  apply orb_false_iff in Hout. lia.
Qed.

(** X8 (out-of-border rejection).  With collision detection and out-of-border
    rejection enabled and the default snap functions, every pointer-move that
    changes the interval of an item that is moving or resizing leaves the new
    interval inside the global time range. *)
Theorem accepted_interval_in_range options element data st ev st' m item item' :
  Options.collisionDetection options = true ->
  Options.outOfBorders options = true ->
  defaultSnaps options data ->
  lookupMovement (State.movementState st) (Item.id (Data.item data)) = Some m ->
  State.items st !! Item.id (Data.item data) = Some item ->
  documentMove options element data st ev = Some st' ->
  State.items st' !! Item.id (Data.item data) = Some item' ->
  Item.time item' <> Item.time item ->
  ChartTime.from (State.time st) <= Time.start (Item.time item')
  /\ Time.end_ (Item.time item') <= ChartTime.to (State.time st).
Proof.
  intros Hcd Hoob [HsnapS HsnapE] Hm Hitem Hdoc Hitem' Hchanged.
  destruct (Movement.moving m) eqn:Hmoving.
  - destruct (moving_commit _ _ _ _ _ _ _ _ _ Hm Hmoving Hitem Hdoc Hitem' Hchanged)
      as (ganttLeft & row & _ & _ & _ & Hc & Htime).
    apply (isCollision_false_inside _ _ _ _ _ _ Hcd Hoob) in Hc.
    rewrite Htime. unfold moveItem. cbn. rewrite HsnapE. lia.
  - destruct (Movement.resizing m) eqn:Hresizing.
    + destruct (resizing_commit _ _ _ _ _ _ _ _ _ Hm Hmoving Hresizing Hitem Hdoc
                  Hitem' Hchanged)
        as (ganttLeft & row & _ & _ & _ & _ & Hc & Htime).
      apply (isCollision_false_inside _ _ _ _ _ _ Hcd Hoob) in Hc.
      rewrite Htime. unfold resizeItem. cbn. rewrite !HsnapE, HsnapS in *. lia.
    + rewrite (documentMove_idle _ _ _ _ _ _ Hm Hmoving Hresizing) in Hdoc.
      injection Hdoc as <-. congruence.
Qed.

Lemma accepted_interval_in_range_witness :
  ChartTime.from (State.time dragState)
  <= Time.start (Item.time (plainItem "I1" 130 229 "R1"))
  /\ Time.end_ (Item.time (plainItem "I1" 130 229 "R1"))
     <= ChartTime.to (State.time dragState).
Proof.
  eapply (accepted_interval_in_range insideOnly plainElement (Data.mk I1 R1)
            dragState (pointerAt 130) _ draggedMovement I1
            (plainItem "I1" 130 229 "R1")).
  - reflexivity.
  - reflexivity.
  - split; reflexivity.
  - reflexivity.
  - reflexivity.
  - vm_compute. reflexivity.
  - vm_compute. reflexivity.
  - discriminate.
Defined.

(** ** The row under the pointer *)

Lemma rowIndexAt_from rows t : forall index,
  let j := rowIndexAt rows t index in
  (Nat.pred index <= j <= index + length rows)%nat
  /\ (forall k r, (1 <= index)%nat -> rows !! k = Some r ->
                  (index + k <= j)%nat -> Row.top r <= t)
  /\ (forall r, (1 <= index)%nat -> rows !! (S j - index)%nat = Some r ->
                t < Row.top r).
Proof.
  induction rows as [|r0 rest IH]; intros index; cbn [rowIndexAt length].
  - split; [lia|]. split; [done|]. intros r _. by rewrite lookup_nil.
  - destruct (t <? Row.top r0) eqn:Hlt.
    + split; [lia|]. split; [intros; lia|].
      intros r Hi. replace (S (Nat.pred index) - index)%nat with 0%nat by lia.
      intros [= <-]. lia.
    + destruct (IH (S index)) as (Ha & Hb & Hc). cbv zeta in *.
      split; [lia|]. split.
      * intros [|k] r Hi Hk Hle.
        -- injection Hk as <-. lia.
        -- apply (Hb k r); [lia|done|lia].
      * intros r Hi Hr. apply Hc; [lia|].
        replace (S (rowIndexAt rest t (S index)) - index)%nat
          with (S (S (rowIndexAt rest t (S index)) - S index))%nat in Hr by lia.
        done.
Qed.

(** X9 (candidate row).  The index that [movementY] finds is at most the
    number of visible rows.  It is 0 when the pointer is above the top of the
    first row.  Otherwise every row up to that index has its top at or above
    the pointer, and the row after it, if there is one, has its top below the
    pointer. *)
Theorem rowIndexAt_candidate rows t :
  (rowIndexAt rows t 0 <= length rows)%nat
  /\ (forall r0 rest, rows = r0 :: rest -> t < Row.top r0 ->
                      rowIndexAt rows t 0 = 0%nat)
  /\ (forall r0 rest, rows = r0 :: rest -> Row.top r0 <= t ->
        (forall k r, (k <= rowIndexAt rows t 0)%nat -> rows !! k = Some r ->
                     Row.top r <= t)
        /\ (forall r, rows !! S (rowIndexAt rows t 0) = Some r ->
                      t < Row.top r)).
Proof.
  split; [|split].
  - destruct (rowIndexAt_from rows t 0) as (Ha & _). cbn in Ha. lia.
  - intros r0 rest -> Hlt. cbn [rowIndexAt].
    by rewrite (proj2 (Z.ltb_lt _ _) Hlt).
  - intros r0 rest -> Hle. cbn [rowIndexAt].
    rewrite (proj2 (Z.ltb_ge _ _) Hle).
    destruct (rowIndexAt_from rest t 1) as (Ha & Hb & Hc). cbv zeta in *.
    split.
    + intros [|k] r Hk Hr.
      * injection Hr as <-. done.
      * apply (Hb k r); [lia|done|lia].
    + intros r Hr. apply Hc; [lia|].
      replace (S (rowIndexAt rest t 1) - 1)%nat with (rowIndexAt rest t 1) by lia.
      done.
Qed.

(** ** The resize handle *)

(** X10 (resize handle).  After an action was created and updated any number
    of times, its resize handle is visible exactly when the item of its
    current data is resizable. *)
Theorem resizer_visibility options data changes :
  (updated options (initialVisibility options data) data changes).1 = Visible
  <-> isResizable options
        (updated options (initialVisibility options data) data changes).2
      = true.
Proof.
  assert (forall visibility data0,
            (visibility = Visible <-> isResizable options data0 = true) ->
            (updated options visibility data0 changes).1 = Visible
            <-> isResizable options
                  (updated options visibility data0 changes).2 = true) as Hgen.
  { induction changes as [|changedData rest IH]; intros visibility data0 Hinv;
      cbn [updated update fst snd]; [done|].
    apply IH.
    destruct (isResizable options changedData), visibility; cbn;
      split; done. }
  apply Hgen. unfold initialVisibility.
  by destruct (isResizable options data).
Qed.

(** ** Records are never deleted *)

Lemma extends_refl itemId st : extends itemId st st.
Proof. split; [done|]. split; [|done]. intros k Hk. by left. Qed.

Lemma extends_trans itemId st1 st2 st3 :
  extends itemId st1 st2 -> extends itemId st2 st3 -> extends itemId st1 st3.
Proof.
  intros (Hs1 & H1 & He1) (Hs2 & H2 & He2). split; [by etrans|].
  split; [|auto].
  intros k Hk. destruct (H2 k Hk) as [Hk2| ->]; [|by right]. by apply H1.
Qed.

Lemma extends_same itemId st st' :
  State.movementState st' = State.movementState st -> extends itemId st st'.
Proof.
  intros H. unfold extends, trackedItems. rewrite H. split; [done|].
  split; [|done]. intros k Hk. by left.
Qed.

Lemma extends_setMovement_found itemId st k m0 m :
  lookupMovement (State.movementState st) k = Some m0 ->
  extends itemId st (setMovement st k m).
Proof.
  intros Hl. unfold extends, trackedItems. cbn.
  rewrite (storeMovement_keys_found _ _ _ _ Hl). split; [done|].
  split; [|done]. intros k' Hk'. by left.
Qed.

Lemma extends_setMovement st k m : extends k st (setMovement st k m).
Proof.
  destruct (lookupMovement (State.movementState st) k) as [m0|] eqn:Hl;
    [by eapply extends_setMovement_found|].
  unfold extends, trackedItems. cbn.
  split; [|split; [|apply storeMovement_enumerated]];
    destruct (storeMovement_fresh_split _ _ Hl) as (l1 & l2 & -> & ->);
    rewrite !fmap_app, fmap_cons; cbn [fst].
  - apply sublist_app; [done|]. by apply sublist_cons.
  - intros k'. rewrite !elem_of_app, elem_of_cons. tauto.
Qed.

Lemma extends_getMovement st data :
  extends (Item.id (Data.item data)) st (getMovement st data).1.
Proof.
  unfold getMovement. destruct (lookupMovement _ _); cbn [fst].
  - apply extends_refl.
  - apply extends_setMovement.
Qed.

Lemma extends_step itemId st st1 st2 :
  extends itemId st st1 ->
  State.movementState st2 = State.movementState st1 ->
  extends itemId st st2.
Proof. intros H1 H2. eapply extends_trans; [exact H1|by apply extends_same]. Qed.

Lemma extends_createGhost options element data st ev ganttLeft ganttTop :
  extends (Item.id (Data.item data)) st
    (createGhost options element data st ev ganttLeft ganttTop).
Proof.
  unfold createGhost. pose proof (extends_getMovement st data) as H0.
  destruct (getMovement st data) as [st0 m0]. cbn [fst] in H0.
  destruct (negb _ || _); [done|].
  eapply extends_trans; [exact H0|].
  eapply extends_step; [|reflexivity].
  eapply extends_trans; [|apply extends_setMovement]. by apply extends_same.
Qed.

Lemma extends_moveGhost options element data st ev st' :
  moveGhost options element data st ev = Some st' ->
  extends (Item.id (Data.item data)) st st'.
Proof.
  unfold moveGhost. destruct (Options.ghostNode options).
  2:{ intros [= <-]. apply extends_refl. }
  pose proof (extends_getMovement st data) as H0.
  destruct (getMovement st data) as [st0 m0]. cbn [fst] in H0.
  destruct (Movement.ganttLeft m0); simpl; [|done].
  destruct (Movement.ghost m0); simpl; [|done].
  destruct (Movement.ganttTop m0); simpl; [|done].
  destruct (Movement.itemTop m0); simpl; [|done].
  intros [= <-]. eapply extends_trans; [exact H0|].
  eapply extends_step; [apply extends_setMovement|reflexivity].
Qed.

Lemma extends_destroyGhost options data st k st' :
  destroyGhost options data st k = Some st' ->
  extends (Item.id (Data.item data)) st st'.
Proof.
  unfold destroyGhost. destruct (negb _); [intros [= <-]; apply extends_refl|].
  destruct (lookupMovement _ _) as [m|] eqn:Hl;
    [|intros [= <-]; apply extends_refl].
  destruct (Movement.ghost m); [|intros [= <-]; apply extends_refl].
  destruct (removeChild _ _); simpl; [|done].
  intros [= <-]. eapply extends_step; [|reflexivity].
  eapply extends_trans; [|by eapply extends_setMovement_found].
  by apply extends_same.
Qed.

Lemma extends_resetAll options data todo : forall st st',
  resetAll options data st todo = Some st' ->
  extends (Item.id (Data.item data)) st st'.
Proof.
  induction todo as [|k rest IH]; intros st st'; cbn [resetAll].
  - intros [= <-]. apply extends_refl.
  - intros H. apply bind_Some in H as (st1 & H1 & H).
    eapply extends_trans; [|by eapply IH].
    unfold resetMovement in H1. apply bind_Some in H1 as (m & Hl & H1).
    eapply extends_trans; [by eapply extends_setMovement_found|].
    by eapply extends_destroyGhost.
Qed.

Lemma extends_documentUp options data st ev st' :
  documentUp options data st ev = Some st' ->
  extends (Item.id (Data.item data)) st st'.
Proof.
  unfold documentUp. pose proof (extends_getMovement st data) as H0.
  destruct (getMovement st data) as [st0 m0]. cbn [fst] in H0.
  destruct (_ || _); [|by intros [= <-]].
  intros H. eapply extends_trans; [exact H0|].
  eapply extends_trans; [|by eapply extends_resetAll].
  eapply extends_step; [apply extends_setMovement|reflexivity].
Qed.

Lemma extends_movementX options element data st ev row item timePerPixel st' :
  movementX options element data st ev row item timePerPixel = Some st' ->
  extends (Item.id (Data.item data)) st st'.
Proof.
  unfold movementX. pose proof (extends_getMovement st data) as H0.
  destruct (getMovement st data) as [st0 m0]. cbn [fst] in H0.
  destruct (Movement.ganttLeft m0); simpl; [|done].
  destruct (moveGhost options element data st0 ev) as [st1|] eqn:Hg; simpl; [|done].
  apply extends_moveGhost in Hg.
  destruct (isCollision _ _ _ _ _ _); simpl; [|done].
  destruct (negb _ && negb _); intros [= <-];
    (eapply extends_trans; [exact H0|]); [|done].
  by eapply extends_step.
Qed.

Lemma extends_resizeX options data st ev row item timePerPixel st' :
  resizeX options data st ev row item timePerPixel = Some st' ->
  extends (Item.id (Data.item data)) st st'.
Proof.
  unfold resizeX. destruct (negb _); [intros [= <-]; apply extends_refl|].
  pose proof (extends_getMovement st data) as H0.
  destruct (getMovement st data) as [st0 m0]. cbn [fst] in H0.
  destruct (Movement.ganttLeft m0); simpl; [|done].
  destruct (_ <? _); [by intros [= <-]|].
  destruct (isCollision _ _ _ _ _ _); simpl; [|done].
  destruct (negb _ && negb _); intros [= <-]; [|done].
  by eapply extends_step.
Qed.

Lemma extends_moveRow options element data st ev moveable st' :
  moveRow options element data st ev moveable = Some st' ->
  extends (Item.id (Data.item data)) st st'.
Proof.
  unfold moveRow, movementY.
  destruct (moveGhost options element data st ev) as [st1|] eqn:Hg; simpl; [|done].
  apply extends_moveGhost in Hg.
  pose proof (extends_getMovement st1 data) as H2.
  destruct (getMovement st1 data) as [st2 m]. cbn [fst] in H2.
  pose proof (extends_trans _ _ _ _ Hg H2) as H.
  destruct (Movement.ganttTop m); simpl; [|done].
  destruct (State.items st2 !! _); simpl; [|done].
  match goal with |- context [?l !! ?i ≫= _] => destruct (l !! i) end;
    simpl; [|done].
  destruct (isCollision _ _ _ _ _ _); simpl; [|done].
  match goal with |- (if ?c then _ else _) = _ -> _ => destruct c end;
    intros [= <-]; [|done].
  by eapply extends_step.
Qed.

Lemma extends_documentMove options element data st ev st' :
  documentMove options element data st ev = Some st' ->
  extends (Item.id (Data.item data)) st st'.
Proof.
  unfold documentMove. pose proof (extends_getMovement st data) as H0.
  destruct (getMovement st data) as [st0 m0]. cbn [fst] in H0.
  intros H. eapply extends_trans; [exact H0|]. revert H.
  destruct (Movement.moving m0).
  - intros H. apply bind_Some in H as (stX & HX & H).
    assert (extends (Item.id (Data.item data)) st0 stX) as HeX.
    { match type of HX with (if ?c then _ else _) = _ => destruct c end;
        [|injection HX as <-; apply extends_refl].
      apply bind_Some in HX as (item & _ & HX).
      apply bind_Some in HX as (row & _ & HX).
      by eapply extends_movementX. }
    match type of H with (if ?c then _ else _) = _ => destruct c end;
      [by injection H as <-|].
    eapply extends_trans; [exact HeX|]. by eapply extends_moveRow.
  - destruct (Movement.resizing m0); [|intros [= <-]; apply extends_refl].
    intros H. apply bind_Some in H as (item & _ & H).
    match type of H with (if ?c then _ else _) = _ => destruct c end;
      [|injection H as <-; apply extends_refl].
    apply bind_Some in H as (row & _ & H).
    by eapply extends_resizeX.
Qed.

Lemma extends_labelDown data st ev :
  extends (Item.id (Data.item data)) st (labelDown data st ev).1.
Proof.
  unfold labelDown. destruct (notPrimary ev); [apply extends_refl|].
  pose proof (extends_getMovement st data) as H0.
  destruct (getMovement st data) as [st0 m0]. cbn [fst] in *.
  eapply extends_trans; [exact H0|].
  eapply extends_step; [apply extends_setMovement|reflexivity].
Qed.

Lemma extends_labelTimer options element data st ev st' :
  labelTimer options element data st ev = Some st' ->
  extends (Item.id (Data.item data)) st st'.
Proof.
  unfold labelTimer. destruct (lookupMovement _ _) as [m|]; simpl; [|done].
  destruct (negb _); [intros [= <-]; apply extends_refl|].
  destruct (State.items st !! _); simpl; [|done].
  destruct (State.timelineRect st) as [rectLeft rectTop].
  intros [= <-]. eapply extends_trans; [|apply extends_createGhost].
  eapply extends_step; [apply extends_setMovement|reflexivity].
Qed.

Lemma extends_resizerDown data st ev st' :
  resizerDown data st ev = Some st' ->
  extends (Item.id (Data.item data)) st st'.
Proof.
  unfold resizerDown. destruct (notPrimary ev); [intros [= <-]; apply extends_refl|].
  pose proof (extends_getMovement st data) as H0.
  destruct (getMovement st data) as [st0 m0]. cbn [fst] in *.
  destruct (State.items st0 !! _); simpl; [|done].
  destruct (State.timelineRect st0) as [rectLeft rectTop].
  intros [= <-]. eapply extends_trans; [exact H0|].
  eapply extends_step; [apply extends_setMovement|reflexivity].
Qed.

(** X11 (records are kept).  No handler deletes a record or changes the
    order in which two records are enumerated: after any handler of any
    action, the movement table tracks the items it tracked before, in the
    same relative order, and the only item it may track besides is the item
    of that action; a table that lists its keys as the engine enumerates
    them (array indices first, in ascending order) still does so. *)
Theorem handle_extends options element data input st st' :
  handle options element data input st = Some st' ->
  extends (Item.id (Data.item data)) st st'.
Proof.
  destruct input as [ev|ev|ev|ev|ev]; cbn [handle].
  - intros [= <-]. apply extends_labelDown.
  - apply extends_labelTimer.
  - apply extends_resizerDown.
  - apply extends_documentMove.
  - apply extends_documentUp.
Qed.

(** Items 10 and [I1] are tracked; a pointer-down on item 2 adds its record,
    which is enumerated first. *)
Lemma handle_extends_witness :
  extends (Item.id (Data.item (Data.mk (plainItem "2" 100 200 "R1") R1)))
    numberedState
    (default numberedState
       (handle defaultOptions plainElement
          (Data.mk (plainItem "2" 100 200 "R1") R1)
          (LabelDown (pointerDown 120)) numberedState)).
Proof.
  apply (handle_extends defaultOptions plainElement
           (Data.mk (plainItem "2" 100 200 "R1") R1)
           (LabelDown (pointerDown 120))).
  vm_compute. reflexivity.
Defined.

(** The enumeration after that pointer-down: the array indices in ascending
    order, then the other keys. *)
Example trackedItems_numbered :
  trackedItems
    (labelDown (Data.mk (plainItem "2" 100 200 "R1") R1) numberedState
       (pointerDown 120)).1
  = ["2"; "10"; "I1"].
Proof. vm_compute. reflexivity. Qed.

(** ** Consequences of the invariant *)


Lemma lookupMovement_ghostNodes ms k m ghost :
  lookupMovement ms k = Some m -> Movement.ghost m = Some ghost ->
  Ghost.node ghost ∈ ghostNodes ms.
Proof.
  intros Hl Hg. destruct (lookupMovement_split _ _ _ Hl) as (l1 & l2 & -> & _).
  rewrite ghostNodes_split, !elem_of_app. right; left.
  unfold ghostOf. rewrite Hg. cbn. left.
Qed.

(** X13 (ghosts switched off).  With the ghost option off, in every state that
    the plugin goes through no record holds a ghost and nothing was appended
    to the timeline. *)
Theorem no_ghost_when_disabled options st :
  reachableState options st ->
  Options.ghostNode options = false ->
  State.timelineChildren st = []
  /\ forall k m, lookupMovement (State.movementState st) k = Some m ->
                 Movement.ghost m = None.
Proof.
  intros Hreach Hoff.
  assert (wellFormed options st) as (_ & _ & Hin & _ & Hnone & _).
  { induction Hreach as [st Hinit|st st' element data input _ IH Hstep|st host _ IH].
    - by apply wellFormed_initial.
    - by eapply wellFormed_handle.
    - by apply (wellFormed_parts options st). }
  specialize (Hnone Hoff). split.
  - destruct (State.timelineChildren st) as [|n rest]; [done|].
    exfalso. assert (n ∈ ghostNodes (State.movementState st)) as Hn
      by (apply Hin; left).
    rewrite Hnone in Hn. by apply elem_of_nil in Hn.
  - intros k m Hl. by eapply ghostNodes_nil_lookup.
Qed.

Lemma no_ghost_when_disabled_witness :
  State.timelineChildren
    (afterTwo noGhost plainElement (Data.mk I1 R1)
       (LabelDown (pointerDown 120)) (LabelTimer (pointerDown 120))
       (exampleState [] [])) = []
  /\ forall k m,
       lookupMovement
         (State.movementState
            (afterTwo noGhost plainElement (Data.mk I1 R1)
               (LabelDown (pointerDown 120)) (LabelTimer (pointerDown 120))
               (exampleState [] []))) k = Some m ->
       Movement.ghost m = None.
Proof.
  apply (no_ghost_when_disabled noGhost).
  - apply (reachable_handle noGhost
             (labelDown (Data.mk I1 R1) (exampleState [] []) (pointerDown 120)).1
             _ plainElement (Data.mk I1 R1) (LabelTimer (pointerDown 120))).
    + apply (reachable_handle noGhost (exampleState [] []) _ plainElement
               (Data.mk I1 R1) (LabelDown (pointerDown 120))).
      * apply reachable_initial. by split.
      * reflexivity.
    + vm_compute. reflexivity.
  - reflexivity.
Defined.

(** ** From waiting to moving *)

(** X14 (the timer starts the move).  In a well-formed state with the item in
    the store, a primary-button pointer-down followed by the timer, with no
    pointer-up in between, leaves the item moving and still waiting, with the
    place of the timeline captured; when ghosts are enabled the record holds
    a ghost and that ghost is a child of the timeline. *)
Theorem labelTimer_starts_move options element data st down item :
  wellFormed options st ->
  notPrimary down = false ->
  State.items st !! Item.id (Data.item data) = Some item ->
  exists st' m',
    labelTimer options element data (labelDown data st down).1 down = Some st'
    /\ lookupMovement (State.movementState st') (Item.id (Data.item data))
       = Some m'
    /\ Movement.moving m' = true
    /\ Movement.waiting m' = true
    /\ Movement.ganttLeft m' = Some (State.timelineRect st).1
    /\ Movement.ganttTop m' = Some (State.timelineRect st).2
    /\ (Options.ghostNode options = true ->
        exists ghost, Movement.ghost m' = Some ghost
                      /\ Ghost.node ghost ∈ State.timelineChildren st').
Proof.
  intros Hwf Hp Hitem.
  pose proof (wellFormed_labelDown options data st down Hwf) as Hwf1.
  destruct (labelDown_armed data st down Hp) as (m1 & Hd & Hw & _).
  pose proof (getMovement_store st data) as (_ & _ & _ & HI0).
  assert (State.timelineRect (getMovement st data).1 = State.timelineRect st)
    as HR0.
  { unfold getMovement. by destruct (lookupMovement _ _). }
  rewrite Hd in *. cbn [fst] in *.
  set (itemId := Item.id (Data.item data)) in *.
  set (st1 := saveMovement (setMovement (getMovement st data).1 itemId m1)
                itemId m1) in *.
  assert (lookupMovement (State.movementState st1) itemId = Some m1) as Hl1
    by apply lookup_storeMovement_eq.
  destruct (labelTimer options element data st1 down) as [st'|] eqn:Ht.
  2:{ exfalso. unfold labelTimer in Ht. fold itemId in Ht.
      rewrite Hl1 in Ht. cbn [mbind option_bind] in Ht. rewrite Hw in Ht.
      cbn [negb] in Ht.
      change (State.items st1) with (State.items (getMovement st data).1) in Ht.
      rewrite HI0, Hitem in Ht. cbn [mbind option_bind] in Ht.
      by destruct (State.timelineRect st1). }
  pose proof (wellFormed_labelTimer _ _ _ _ _ _ Hwf1 Ht) as Hwf'.
  assert (exists m',
            lookupMovement (State.movementState st') itemId = Some m'
            /\ Movement.moving m' = true /\ Movement.waiting m' = true
            /\ Movement.ganttLeft m' = Some (State.timelineRect st).1
            /\ Movement.ganttTop m' = Some (State.timelineRect st).2
            /\ (Options.ghostNode options = true -> is_Some (Movement.ghost m')))
    as (m' & Hl' & Hmov & Hwait & Hgl & Hgt & Hghost).
  { unfold labelTimer in Ht. fold itemId in Ht.
    rewrite Hl1 in Ht. cbn [mbind option_bind] in Ht. rewrite Hw in Ht.
    cbn [negb] in Ht.
    change (State.items st1) with (State.items (getMovement st data).1) in Ht.
    rewrite HI0, Hitem in Ht. cbn [mbind option_bind] in Ht.
    change (State.timelineRect st1)
      with (State.timelineRect (getMovement st data).1) in Ht.
    rewrite HR0 in Ht. destruct (State.timelineRect st) as [rectLeft rectTop].
    injection Ht as <-. unfold createGhost. fold itemId.
    match goal with |- context [getMovement ?s data] =>
      rewrite (getMovement_found s data _ (lookup_storeMovement_eq _ _ _)) end.
    destruct (Options.ghostNode options); cbn [negb orb].
    - case_bool_decide as Hg.
      + eexists. split; [apply lookup_storeMovement_eq|]. by repeat split.
      + eexists. split; [apply lookup_storeMovement_eq|]. by repeat split.
    - eexists. split; [apply lookup_storeMovement_eq|]. by repeat split. }
  exists st', m'. split; [done|]. repeat (split; [done|]).
  intros Hon. destruct (Hghost Hon) as [ghost Hg]. exists ghost.
  split; [done|]. destruct Hwf' as (_ & _ & Hin & _). apply Hin.
  by eapply lookupMovement_ghostNodes.
Qed.

Lemma labelTimer_starts_move_witness :
  exists st' m',
    labelTimer defaultOptions plainElement (Data.mk I1 R1)
      (labelDown (Data.mk I1 R1) (exampleState [] []) (pointerDown 120)).1
      (pointerDown 120) = Some st'
    /\ lookupMovement (State.movementState st')
         (Item.id (Data.item (Data.mk I1 R1))) = Some m'
    /\ Movement.moving m' = true
    /\ Movement.waiting m' = true
    /\ Movement.ganttLeft m' = Some (State.timelineRect (exampleState [] [])).1
    /\ Movement.ganttTop m' = Some (State.timelineRect (exampleState [] [])).2
    /\ (Options.ghostNode defaultOptions = true ->
        exists ghost, Movement.ghost m' = Some ghost
                      /\ Ghost.node ghost ∈ State.timelineChildren st').
Proof.
  apply (labelTimer_starts_move defaultOptions plainElement (Data.mk I1 R1)
           (exampleState [] []) (pointerDown 120) I1).
  - apply wellFormed_initial. by split.
  - reflexivity.
  - reflexivity.
Defined.

(** ** A pointer-up that finds no action in a phase *)

(** X15 (pointer-up without effect).  When the item of no attached action is
    moving, resizing or waiting, a pointer-up returns and resets nothing:
    every record stays as it was, also one that is still in a phase because
    its item has no attached action, the timeline keeps its children and the
    store is untouched. *)
Theorem pointerUp_idle_actions options actions ev : forall st,
  (forall data, data ∈ actions -> active (getMovement st data).2 = false) ->
  exists st',
    pointerUp options actions st ev = Some st'
    /\ (forall k m, lookupMovement (State.movementState st) k = Some m ->
                    lookupMovement (State.movementState st') k = Some m)
    /\ State.timelineChildren st' = State.timelineChildren st
    /\ sameStore st st'.
Proof.
  induction actions as [|data0 rest IH]; intros st Hidle; cbn [pointerUp].
  - exists st. split; [done|]. split; [done|]. split; [done|].
    apply sameStore_refl.
  - rewrite (documentUp_idle options data0 st ev) by (apply Hidle; left).
    cbn [mbind option_bind].
    assert (forall k m, lookupMovement (State.movementState st) k = Some m ->
              lookupMovement (State.movementState (getMovement st data0).1) k
              = Some m) as Hkeep.
    { intros k m Hl.
      destruct (getMovement_cases st data0) as [(m0 & Hl0 & ->)|(Hl0 & ->)];
        [done|]. cbn. rewrite lookup_storeMovement.
      case_decide; [congruence|done]. }
    destruct (IH (getMovement st data0).1) as (st' & Hup & Hsame & Hc & Hs).
    { intros data Hin.
      destruct (getMovement_cases (getMovement st data0).1 data)
        as [(m & Hl & ->)|(Hl & ->)]; [|done]. cbn [snd].
      specialize (Hidle data (list_elem_of_further _ _ _ Hin)).
      destruct (getMovement_cases st data0) as [(m0 & Hl0 & Hg)|(Hl0 & Hg)];
        rewrite Hg in Hl; cbn [fst] in Hl.
      - by rewrite (getMovement_found _ _ _ Hl) in Hidle.
      - cbn in Hl. rewrite lookup_storeMovement in Hl. case_decide as Hk.
        + by injection Hl as <-.
        + by rewrite (getMovement_found _ _ _ Hl) in Hidle. }
    exists st'. split; [done|]. split; [by intros k m Hl; apply Hsame, Hkeep|].
    split.
    + rewrite Hc. unfold getMovement. by destruct (lookupMovement _ _).
    + pose proof (getMovement_store st data0) as (T0 & R0 & V0 & I0).
      destruct Hs as (T & R & V & I). repeat split; congruence.
Qed.

(** [I2] is stuck resizing, and only the action of [I1], which is idle, is
    attached: the pointer-up leaves [I2] resizing. *)
Lemma pointerUp_idle_actions_witness :
  exists st',
    pointerUp defaultOptions [Data.mk I1 R1] orphanState (pointerAt 130)
    = Some st'
    /\ (forall k m, lookupMovement (State.movementState orphanState) k = Some m ->
                    lookupMovement (State.movementState st') k = Some m)
    /\ State.timelineChildren st' = State.timelineChildren orphanState
    /\ sameStore orphanState st'.
Proof.
  apply (pointerUp_idle_actions defaultOptions [Data.mk I1 R1] (pointerAt 130)
           orphanState).
  intros data ->%list_elem_of_singleton. reflexivity.
Defined.

End ItemMovementProofs.

(** * Properties of the Selection plugin *)

Module SelectionProofs.

Import Selection.

(** ** The selection rectangle *)

(** C9.  The rectangle of a drag between [p] and [q] is the same in both
    directions; its origin is the componentwise minimum and its width and
    height are the absolute differences, so neither is negative. *)
Theorem getSelectionArea_direction pd p q :
  getSelectionArea (dragBetween p q pd) = getSelectionArea (dragBetween q p pd)
  /\ Area.x (getSelectionArea (dragBetween p q pd)) = Z.min (Point.x p) (Point.x q)
  /\ Area.y (getSelectionArea (dragBetween p q pd)) = Z.min (Point.y p) (Point.y q)
  /\ Area.width (getSelectionArea (dragBetween p q pd))
     = Z.abs (Point.x p - Point.x q)
  /\ Area.height (getSelectionArea (dragBetween p q pd))
     = Z.abs (Point.y p - Point.y q)
  /\ 0 <= Area.width (getSelectionArea (dragBetween p q pd))
  /\ 0 <= Area.height (getSelectionArea (dragBetween p q pd)).
Proof.
  unfold getSelectionArea, dragBetween. cbn [PointerData.initialPosition
    PointerData.currentPosition].
  destruct p as [px py], q as [qx qy]. cbn [Point.x Point.y].
  destruct (0 <=? qx - px) eqn:Hx1, (0 <=? px - qx) eqn:Hx2,
           (0 <=? qy - py) eqn:Hy1, (0 <=? py - qy) eqn:Hy2;
    cbn [Area.x Area.y Area.width Area.height];
    (split; [f_equal; lia|]); repeat split; lia.
Qed.

(** ** Cell selection *)

(** A drag over cells with cell selection enabled is handled by
    [selectCells]. *)
Lemma onPointerData_cells fuel st :
  PointerData.isMoving (State.poitnerData st) = true ->
  PointerData.targetType (State.poitnerData st) = CELL ->
  PluginData.cells (State.data st) = true ->
  onPointerData fuel st = Done (mirror (selectCells st)).
Proof. intros H1 H2 H3. unfold onPointerData. by rewrite H1, H2, H3. Qed.

(** C10 (as amended).  Whatever the state, no item is computed as lying
    under the selection area.  So a drag over cells that is handled while cell
    selection is enabled returns, keeps every item of the store with its id
    and its links, sets the [selected] flag of every one of them to false,
    and empties the set of selected items. *)
Theorem selectCells_deselects_all fuel st :
  PointerData.isMoving (State.poitnerData st) = true ->
  PointerData.targetType (State.poitnerData st) = CELL ->
  PluginData.cells (State.data st) = true ->
  (forall st0, getItemsUnderSelectionArea st0 = [])
  /\ exists st',
       onPointerData fuel st = Done st'
       /\ (forall k, State.items st' !! k
                     = Item.setSelected false <$> State.items st !! k)
       /\ (forall k it, State.items st !! k = Some it ->
             exists it', State.items st' !! k = Some it'
                         /\ Item.id it' = Item.id it
                         /\ Item.linkedWith it' = Item.linkedWith it
                         /\ Item.selected it' = false)
       /\ PluginData.selected (State.data st') = [].
Proof.
  intros Hmoving Htarget Hcells. split; [done|].
  exists (mirror (selectCells st)).
  split; [by apply onPointerData_cells|].
  assert (forall k, State.items (mirror (selectCells st)) !! k
                    = Item.setSelected false <$> State.items st !! k) as Hitems.
  { intros k. unfold selectCells. cbn. unfold Store.allSelected.
    by rewrite lookup_fmap. }
  split; [done|]. split; [|done].
  intros k it Hit. rewrite Hitems, Hit. by eexists.
Qed.

(** [Y] is selected and the pointer drags over cells: [X] and [Y] are kept,
    neither is selected, and the selection is empty. *)
Lemma selectCells_deselects_all_witness :
  (forall st0, getItemsUnderSelectionArea st0 = [])
  /\ exists st',
       onPointerData 1 (cellDrag true) = Done st'
       /\ (forall k, State.items st' !! k
                     = Item.setSelected false
                       <$> State.items (cellDrag true) !! k)
       /\ (forall k it, State.items (cellDrag true) !! k = Some it ->
             exists it', State.items st' !! k = Some it'
                         /\ Item.id it' = Item.id it
                         /\ Item.linkedWith it' = Item.linkedWith it
                         /\ Item.selected it' = false)
       /\ PluginData.selected (State.data st') = [].
Proof.
  apply (selectCells_deselects_all 1 (cellDrag true)); reflexivity.
Defined.

(** C10 (as stated) fails.  With cell selection switched off (the option
    [cells]), a drag over cells reaches neither [selectCells] nor any other
    write: [Y] keeps its [selected] flag and stays in the set of selected
    items. *)
Lemma cellDrag_with_cells_off :
  PointerData.isMoving (State.poitnerData (cellDrag false)) = true
  /\ PointerData.targetType (State.poitnerData (cellDrag false)) = CELL
  /\ exists st',
       onPointerData 1 (cellDrag false) = Done st'
       /\ State.items st' !! "Y" = Some (Item.mk "Y" None true)
       /\ PluginData.selected (State.data st') = ["Y"].
Proof.
  split; [done|]. split; [done|].
  eexists. split; [vm_compute; reflexivity|]. split; reflexivity.
Qed.

(** ** The selection commit *)

Lemma selectEach_store items selected : forall multi multi',
  selectEach items selected multi = Done multi' ->
  forall k, Store.store multi' !! k
            = if bool_decide (k ∈ idsOf items selected)
              then Item.setSelected true <$> Store.store multi !! k
              else Store.store multi !! k.
Proof.
  induction selected as [|item rest IH]; intros multi multi'; cbn [selectEach].
  - intros [= <-] k. unfold idsOf. cbn [omap list_omap].
    case_bool_decide as H; [by apply elem_of_nil in H|done].
  - unfold idsOf. cbn [omap list_omap]. fold (idsOf items rest).
    destruct (items !! item) as [i|]; [|done]. cbn [fmap option_fmap option_map].
    intros H k. rewrite (IH _ _ H k). cbn [Store.multiUpdate Store.store].
    unfold Store.oneSelected.
    rewrite lookup_alter.
    destruct (decide (k = Item.id i)) as [->|Hne].
    + rewrite decide_True by done.
      rewrite (bool_decide_eq_true_2 (Item.id i ∈ Item.id i :: _)) by left.
      case_bool_decide; [|done].
      by destruct (Store.store multi !! Item.id i).
    + rewrite decide_False by done.
      case_bool_decide as H1; case_bool_decide as H2; try done.
      * exfalso. apply H2. by right.
      * apply elem_of_cons in H2 as [?|?]; done.
Qed.



(** ** The link closure *)

Lemma occurrences_cons x b values :
  occurrences x (b :: values)
  = ((if bool_decide (b = x) then 1 else 0) + occurrences x values)%nat.
Proof.
  unfold occurrences. rewrite filter_cons.
  case_decide; case_bool_decide; done.
Qed.

Lemma occurrences_app x l1 l2 :
  occurrences x (l1 ++ l2) = (occurrences x l1 + occurrences x l2)%nat.
Proof. unfold occurrences. by rewrite filter_app, length_app. Qed.

Section Acyclic.

Variable items : Items.
Variable rank : string -> nat.
Hypothesis rank_decreases : forall a b, linked items a b -> (rank b < rank a)%nat.
Hypothesis links_resolve : forall a b, linked items a b -> is_Some (items !! b).

(** The loop over the links of one item, given what the calls it makes
    append. *)
Lemma forEachLinked_returns (n : nat) (linkedWith : list string) :
  (forall b, b ∈ linkedWith -> exists extra, appends items n b extra) ->
  exists extra,
    (forall current fuel, (n <= fuel)%nat ->
       forEachLinked (collectLinkedItems items fuel) linkedWith current
       = Done (current ++ extra))
    /\ (forall x, x ∈ extra
                  <-> exists b, b ∈ linkedWith /\ reachable items b x)
    /\ (forall x, occurrences x extra
                  = sum_list ((fun b => linkPaths items n b x) <$> linkedWith)).
Proof.
  induction linkedWith as [|b rest IH]; intros Hcalls.
  - exists []. split; [|split].
    + intros current fuel _. simpl. by rewrite app_nil_r.
    + intros x. split; [by intros ?%elem_of_nil|].
      by intros (b & ?%elem_of_nil & _).
    + done.
  - destruct (Hcalls b (list_elem_of_here _ _)) as (extraB & HB & HinB & HcountB).
    destruct (IH (fun c Hc => Hcalls c (list_elem_of_further _ _ _ Hc)))
      as (extraR & HR & HinR & HcountR).
    exists ([b] ++ extraB ++ extraR). split; [|split].
    + intros current fuel Hfuel. cbn [forEachLinked]. rewrite (HB _ fuel Hfuel).
      cbn [mbind Result_bind]. rewrite (HR _ fuel Hfuel).
      by rewrite <- !app_assoc.
    + intros x. rewrite !elem_of_app, list_elem_of_singleton, HinB, HinR. split.
      * intros [->|[(c & Hbc & Hcx)|(b' & Hb' & Hx)]].
        -- exists b. split; [left|apply rtc_refl].
        -- exists b. split; [left|]. by eapply rtc_l.
        -- exists b'. split; [by right|done].
      * intros (b' & Hb' & Hx). apply elem_of_cons in Hb' as [->|Hb'].
        -- apply rtc_inv in Hx as [->|(c & Hbc & Hcx)]; [by left|].
           right; left. by exists c.
        -- right; right. by exists b'.
    + intros x. rewrite fmap_cons. cbn [sum_list sum_list_with].
      rewrite <- HcountB, <- HcountR.
      change ([b] ++ extraB ++ extraR) with (b :: (extraB ++ extraR)).
      by rewrite occurrences_cons, occurrences_app, Nat.add_assoc.
Qed.

Lemma collectLinkedItems_returns (n : nat) : forall item,
  (rank item < n)%nat -> is_Some (items !! item) ->
  exists extra, appends items n item extra.
Proof.
  induction n as [|n IH]; intros item Hrank [it Hit]; [lia|].
  destruct (Item.linkedWith it) as [linkedWith|] eqn:Hlw.
  - destruct (forEachLinked_returns n linkedWith) as (extra & Hrun & Hin & Hcount).
    { intros b Hb. apply IH.
      - assert (linked items item b) as Hl by (by exists it, linkedWith).
        apply rank_decreases in Hl. lia.
      - apply (links_resolve item). by exists it, linkedWith. }
    exists extra. split; [|split].
    + intros current [|fuel] Hfuel; [lia|]. cbn [collectLinkedItems].
      rewrite Hit, Hlw. apply Hrun. lia.
    + intros x. rewrite Hin. split.
      * intros (b & Hb & Hx). exists b. split; [|done]. by exists it, linkedWith.
      * intros (b & (it' & l' & Hit' & Hlw' & Hb) & Hx). exists b.
        split; [|done]. congruence.
    + intros x. cbn [linkPaths]. by rewrite Hit, Hlw, Hcount.
  - exists []. split; [|split].
    + intros current [|fuel] Hfuel; [lia|]. cbn [collectLinkedItems].
      rewrite Hit, Hlw. by rewrite app_nil_r.
    + intros x. split; [by intros ?%elem_of_nil|].
      intros (b & (it' & l' & Hit' & Hlw' & Hb) & Hx). congruence.
    + intros x. cbn [linkPaths]. by rewrite Hit, Hlw.
Qed.

End Acyclic.

(** C3 (as amended).  On a link graph without cycles (every link leads to an
    item of lower rank) in which every link names an item of the store, the
    link closure of an item of the store is computed in finitely many nested
    calls: from some fuel on the computation returns one and the same array.
    The array starts with the item itself and holds every item reachable
    from it along [linkedWith], and no other; an item occurs in it once for
    every link path that leads to it. *)
Theorem collectLinkedItems_acyclic items (rank : string -> nat) item :
  (forall a b, linked items a b -> (rank b < rank a)%nat) ->
  (forall a b, linked items a b -> is_Some (items !! b)) ->
  is_Some (items !! item) ->
  exists collected,
    (forall fuel, (rank item < fuel)%nat ->
       collectLinkedItems items fuel item [item] = Done collected)
    /\ head collected = Some item
    /\ (forall x, x ∈ collected <-> reachable items item x)
    /\ (forall x, occurrences x collected
                  = linkPaths items (S (rank item)) item x).
Proof.
  intros Hrank Hres Hitem.
  destruct (collectLinkedItems_returns items rank Hrank Hres (S (rank item))
              item) as (extra & Hrun & Hin & Hcount); [lia|done|].
  exists ([item] ++ extra). split; [|split; [done|split]].
  - intros fuel Hfuel. apply Hrun. lia.
  - intros x. rewrite elem_of_app, list_elem_of_singleton, Hin. split.
    + intros [->|(b & Hb & Hx)]; [apply rtc_refl|by eapply rtc_l].
    + intros [->|(b & Hb & Hx)]%rtc_inv; [by left|right; by exists b].
  - intros x. rewrite <- Hcount. apply occurrences_cons.
Qed.

Lemma collectLinkedItems_step items fuel item current it linkedWith :
  items !! item = Some it ->
  Item.linkedWith it = Some linkedWith ->
  collectLinkedItems items (S fuel) item current
  = forEachLinked (collectLinkedItems items fuel) linkedWith current.
Proof. intros Hit Hlw. cbn [collectLinkedItems]. by rewrite Hit, Hlw. Qed.

Lemma linked_diamondItems a b :
  linked diamondItems a b ->
  (a = "A" /\ (b = "B" \/ b = "C")) \/ ((a = "B" \/ a = "C") /\ b = "D").
Proof.
  intros (it & l & Hit & Hlw & Hb). unfold diamondItems in Hit.
  apply lookup_insert_Some in Hit as [[<- <-]|[_ Hit]].
  { injection Hlw as <-. left. split; [done|].
    apply elem_of_cons in Hb as [->|Hb]; [by left|].
    apply list_elem_of_singleton in Hb as ->. by right. }
  apply lookup_insert_Some in Hit as [[<- <-]|[_ Hit]].
  { injection Hlw as <-. apply list_elem_of_singleton in Hb as ->.
    right. split; [by left|done]. }
  apply lookup_insert_Some in Hit as [[<- <-]|[_ Hit]].
  { injection Hlw as <-. apply list_elem_of_singleton in Hb as ->.
    right. split; [by right|done]. }
  apply lookup_singleton_Some in Hit as [<- <-]. done.
Qed.

(** The diamond: [A] is collected first, then everything reachable from it;
    two paths lead to [D]. *)
Lemma collectLinkedItems_acyclic_witness :
  exists collected,
    (forall fuel, (diamondRank "A" < fuel)%nat ->
       collectLinkedItems diamondItems fuel "A" ["A"] = Done collected)
    /\ head collected = Some "A"
    /\ (forall x, x ∈ collected <-> reachable diamondItems "A" x)
    /\ (forall x, occurrences x collected
                  = linkPaths diamondItems (S (diamondRank "A")) "A" x).
Proof.
  apply (collectLinkedItems_acyclic diamondItems diamondRank "A").
  - intros a b [[-> [->| ->]]|[[->| ->] ->]]%linked_diamondItems;
      vm_compute; lia.
  - intros a b [[-> [->| ->]]|[[->| ->] ->]]%linked_diamondItems;
      vm_compute; eauto.
  - vm_compute. eauto.
Defined.

Example linkPaths_diamond : linkPaths diamondItems 3 "A" "D" = 2%nat.
Proof. reflexivity. Qed.

Lemma cyclicItems_diverge fuel : forall current,
  collectLinkedItems cyclicItems fuel "A" current = OutOfFuel
  /\ collectLinkedItems cyclicItems fuel "B" current = OutOfFuel.
Proof.
  induction fuel as [|fuel IH]; intros current; [done|].
  rewrite (collectLinkedItems_step cyclicItems fuel "A" current
             (plainItem "A" ["B"]) ["B"]) by reflexivity.
  rewrite (collectLinkedItems_step cyclicItems fuel "B" current
             (plainItem "B" ["A"]) ["A"]) by reflexivity.
  cbn [forEachLinked].
  destruct (IH (current ++ ["B"])) as [_ ->].
  destruct (IH (current ++ ["A"])) as [-> _]. done.
Qed.

(** C3 (as stated) fails twice over.  Where [A] and [B] link to each other,
    the closure of [A] is not computed on any fuel: the calls nest without
    end.  Where [A] links to [B] and [C], which both link to [D], the closure
    of [A] holds [D] twice. *)
Lemma collectLinkedItems_cycle_and_diamond :
  diverges cyclicItems "A" ["A"]
  /\ collectLinkedItems diamondItems 3 "A" ["A"]
     = Done ["A"; "B"; "D"; "C"; "D"].
Proof.
  split; [|vm_compute; reflexivity].
  intros fuel. apply cyclicItems_diverge.
Qed.

(** ** Additive selection *)

Lemma setValues_elem values : forall seen x,
  x ∈ setValues seen values <-> x ∈ values /\ x ∉ seen.
Proof.
  induction values as [|v rest IH]; intros seen x; cbn [setValues].
  - split; [by intros ?%elem_of_nil|]. by intros [?%elem_of_nil _].
  - case_bool_decide as Hv.
    + rewrite IH, elem_of_cons. split; [intros [? ?]; split; [by right|done]|].
      intros [[->|?] ?]; [done|auto].
    + rewrite !elem_of_cons, IH, not_elem_of_cons. split.
      * intros [->|[? [? ?]]]; auto.
      * intros [[->|?] ?]; [by left|].
        destruct (decide (x = v)) as [->|?]; [by left|right; auto].
Qed.

Lemma setValues_NoDup values : forall seen, NoDup (setValues seen values).
Proof.
  induction values as [|v rest IH]; intros seen; cbn [setValues].
  - apply NoDup_nil_2.
  - case_bool_decide as Hv; [apply IH|].
    apply NoDup_cons. split; [|apply IH].
    rewrite setValues_elem, not_elem_of_cons. by intros [_ [? _]].
Qed.

Lemma findSelected_spec items selected item :
  (forall s, s ∈ selected -> is_Some (items !! s)) ->
  is_Some (items !! item) ->
  exists found,
    findSelected items selected item = Done found
    /\ (found = true <-> alreadySelected items selected item).
Proof.
  intros Hsel [i Hi]. induction selected as [|s rest IH]; cbn [findSelected].
  - exists false. split; [done|]. split; [done|].
    by intros (? & ? & ? & ?%elem_of_nil & _).
  - destruct (Hsel s) as [si Hsi]; [left|]. rewrite Hsi, Hi.
    case_bool_decide as Hid.
    + exists true. split; [done|]. split; [intros _|done].
      exists s, si, i. split; [left|done].
    + destruct IH as (found & -> & Hfound).
      { intros s' Hs'. apply Hsel. by right. }
      exists found. split; [done|]. rewrite Hfound. split.
      * intros (s' & si' & i' & Hs' & ?). exists s', si', i'. split; [by right|done].
      * intros (s' & si' & i' & Hs' & Hsi' & Hi' & Hid').
        apply elem_of_cons in Hs' as [->|Hs'].
        -- congruence.
        -- by exists s', si', i'.
Qed.




(** Where [A] and [B] link to each other, no selection is computed for a
    target that is not selected yet, with or without ctrl: the calls of the
    closure nest without end. *)
Lemma getSelected_cyclic fuel ctrlKey :
  getSelected cyclicItems fuel [] (Some ctrlKey) "A" = OutOfFuel.
Proof.
  unfold getSelected. cbn [findSelected mbind Result_bind].
  destruct (cyclicItems_diverge fuel ["A"]) as [-> _]. by destruct ctrlKey.
Qed.


(** ** The link closure on any graph *)

Lemma forEachLinked_Done items
  (collect : string -> list string -> Result (list string)) linkedWith :
  (forall b current out, b ∈ linkedWith -> collect b current = Done out ->
     is_Some (items !! b)
     /\ exists extra, out = current ++ extra /\ below items b extra) ->
  forall current out,
    forEachLinked collect linkedWith current = Done out ->
    exists extra,
      out = current ++ extra
      /\ (forall x, x ∈ extra
                    <-> exists b, b ∈ linkedWith /\ reachable items b x)
      /\ (forall x, x ∈ extra -> is_Some (items !! x)).
Proof.
  induction linkedWith as [|b rest IH]; intros Hcalls current out;
    cbn [forEachLinked].
  - intros [= <-]. exists []. split; [by rewrite app_nil_r|]. split.
    + intros x. split; [by intros ?%elem_of_nil|].
      by intros (b & ?%elem_of_nil & _).
    + by intros x ?%elem_of_nil.
  - destruct (collect b (current ++ [b])) as [out1| |] eqn:Hb;
      cbn [mbind Result_bind]; [|done|done].
    intros Hrest.
    destruct (Hcalls b _ _ (list_elem_of_here _ _) Hb)
      as (HbS & extraB & -> & HinB & HstB).
    destruct (IH (fun c cur o Hc => Hcalls c cur o (list_elem_of_further _ _ _ Hc))
                _ _ Hrest) as (extraR & -> & HinR & HstR).
    exists ([b] ++ extraB ++ extraR). split; [by rewrite <- !app_assoc|]. split.
    + intros x. rewrite !elem_of_app, list_elem_of_singleton, HinB, HinR. split.
      * intros [->|[(c & Hbc & Hcx)|(b' & Hb' & Hx)]].
        -- exists b. split; [left|apply rtc_refl].
        -- exists b. split; [left|]. by eapply rtc_l.
        -- exists b'. split; [by right|done].
      * intros (b' & Hb' & Hx). apply elem_of_cons in Hb' as [->|Hb'].
        -- apply rtc_inv in Hx as [->|(c & Hbc & Hcx)]; [by left|].
           right; left. by exists c.
        -- right; right. by exists b'.
    + intros x. rewrite !elem_of_app, list_elem_of_singleton.
      intros [->|[?|?]]; auto.
Qed.

Lemma collectLinkedItems_Done items fuel : forall item current out,
  collectLinkedItems items fuel item current = Done out ->
  is_Some (items !! item)
  /\ exists extra, out = current ++ extra /\ below items item extra.
Proof.
  induction fuel as [|fuel IH]; intros item current out; [done|].
  cbn [collectLinkedItems].
  destruct (items !! item) as [it|] eqn:Hit; [|done]. intros H.
  split; [done|].
  destruct (Item.linkedWith it) as [linkedWith|] eqn:Hlw.
  - destruct (forEachLinked_Done items (collectLinkedItems items fuel)
                linkedWith (fun b cur o _ => IH b cur o) _ _ H)
      as (extra & -> & Hin & Hst).
    exists extra. split; [done|]. split; [|done].
    intros x. rewrite Hin. split.
    + intros (b & Hb & Hx). exists b. split; [|done]. by exists it, linkedWith.
    + intros (b & (it' & l' & Hit' & Hlw' & Hb) & Hx). exists b.
      split; [|done]. congruence.
  - injection H as <-. exists []. split; [by rewrite app_nil_r|]. split.
    + intros x. split; [by intros ?%elem_of_nil|].
      intros (b & (it' & l' & Hit' & Hlw' & Hb) & Hx). congruence.
    + by intros x ?%elem_of_nil.
Qed.





(** ** Links that name no item *)

Section Dangling.

Variable items : Items.
Variable rank : string -> nat.
Hypothesis rank_decreases : forall a b, linked items a b -> (rank b < rank a)%nat.



End Dangling.




(** ** The commit as a whole *)

Lemma selectItems_inv fuel st st' :
  selectItems fuel st = Done st' ->
  exists selected multi,
    getSelected (State.items st) fuel (PluginData.selected (State.data st))
      (PointerData.down (State.poitnerData st))
      (PointerData.targetData (State.poitnerData st)) = Done selected
    /\ selectEach (State.items st) selected
         (Store.mkMulti (Store.allSelected false (State.items st)))
       = Done multi
    /\ st' = State.mk
               (withSelection
                  (withPositions (State.data st)
                     (PointerData.initialPosition (State.poitnerData st))
                     (PointerData.currentPosition (State.poitnerData st)))
                  false (getSelectionArea (State.poitnerData st)) selected)
               (State.poitnerData st) (Store.store multi)
               (State.observed st ++ [Store.store multi]).
Proof.
  unfold selectItems. cbn [PluginData.selected withPositions].
  destruct (getSelected _ _ _ _ _) as [selected| |] eqn:Hsel;
    cbn [mbind Result_bind]; [|done|done].
  cbn [setData State.items State.observed State.data State.poitnerData
       Store.multi Store.multiUpdate Store.store].
  destruct (selectEach _ _ _) as [multi| |] eqn:Hm;
    cbn [mbind Result_bind]; [|done|done].
  intros [= <-]. by exists selected, multi.
Qed.

Lemma selectItems_store items selected multi :
  selectEach items selected (Store.mkMulti (Store.allSelected false items))
  = Done multi ->
  forall k, Store.store multi !! k
            = Item.setSelected (bool_decide (k ∈ idsOf items selected))
              <$> items !! k.
Proof.
  intros Hm k. rewrite (selectEach_store _ _ _ _ Hm k).
  cbn [Store.store]. unfold Store.allSelected. rewrite lookup_fmap.
  case_bool_decide; by destruct (items !! k).
Qed.

Lemma findSelected_true items selected item :
  findSelected items selected item = Done true ->
  alreadySelected items selected item.
Proof.
  induction selected as [|s rest IH]; cbn [findSelected]; [done|].
  destruct (items !! s) as [si|] eqn:Hs; [|done].
  destruct (items !! item) as [i|] eqn:Hi; [|done].
  case_bool_decide as Hid.
  - intros _. exists s, si, i. split; [left|done].
  - intros (s' & si' & i' & Hs' & ?)%IH. exists s', si', i'.
    split; [by right|done].
Qed.

Lemma findSelected_false items selected item :
  findSelected items selected item = Done false ->
  (forall s, s ∈ selected -> is_Some (items !! s)) /\ item ∉ selected.
Proof.
  induction selected as [|s rest IH]; cbn [findSelected].
  - intros _. split; [by intros s ?%elem_of_nil|apply not_elem_of_nil].
  - destruct (items !! s) as [si|] eqn:Hs; [|done].
    destruct (items !! item) as [i|] eqn:Hi; [|done].
    case_bool_decide as Hid; [done|]. intros [Hst Hnot]%IH. split.
    + intros s' [->|?]%elem_of_cons; [by rewrite Hs|auto].
    + apply not_elem_of_cons. split; [|done]. intros <-. congruence.
Qed.

(** What [getSelected] returns holds the target; the target and all of the
    new selection are items of the store. *)
Lemma getSelected_Done items fuel selected down item new :
  getSelected items fuel selected down item = Done new ->
  is_Some (items !! item)
  /\ (keyedById items -> item ∈ new)
  /\ findSelected items new item = Done true.
Proof.
  unfold getSelected.
  destruct (findSelected items selected item) as [[|]| |] eqn:Hfind;
    cbn [mbind Result_bind]; [| |done|done].
  - intros [= <-].
    destruct (findSelected_true _ _ _ Hfind)
      as (s & si & i & Hs & Hsi & Hi & Hid).
    split; [by rewrite Hi|]. split; [|done].
    intros Hkey. rewrite <- (Hkey _ _ Hi), <- Hid, (Hkey _ _ Hsi). done.
  - destruct (findSelected_false _ _ _ Hfind) as [Hst Hnot].
    assert (forall closure,
              collectLinkedItems items fuel item [item] = Done closure ->
              is_Some (items !! item) /\ item ∈ closure
              /\ forall x, x ∈ closure -> is_Some (items !! x)) as Hclosure.
    { intros closure Hrun.
      destruct (collectLinkedItems_Done _ _ _ _ _ Hrun)
        as (Hitem & extra & -> & _ & Hin).
      split; [done|]. split; [left|].
      intros x [->|?]%elem_of_cons; auto. }
    assert (forall values, is_Some (items !! item) -> item ∈ values ->
              (forall x, x ∈ values -> is_Some (items !! x)) ->
              findSelected items values item = Done true) as Hfound.
    { intros values [i Hi] Hin Hall.
      destruct (findSelected_spec items values item Hall) as (found & -> & Hf);
        [by exists i|].
      f_equal. apply Hf. destruct (Hall item Hin) as [i' Hi'].
      by exists item, i', i'. }
    destruct down as [[|]|]; [| |done].
    + destruct (collectLinkedItems items fuel item [item]) as [closure| |]
        eqn:Hrun; cbn [mbind Result_bind]; [|done|done].
      intros [= <-]. destruct (Hclosure _ eq_refl) as (Hitem & Hin & Hall).
      assert (item ∈ setValues [] (selected ++ closure)) as Hnew.
      { apply setValues_elem. split; [|apply not_elem_of_nil].
        apply elem_of_app. by right. }
      split; [done|]. split; [done|]. apply Hfound; [done|done|].
      intros x [[?|?]%elem_of_app _]%setValues_elem; auto.
    + intros Hrun. destruct (Hclosure _ Hrun) as (Hitem & Hin & Hall).
      split; [done|]. split; [done|]. by apply Hfound.
Qed.

(** X18.  After a commit on a store that holds every item under its id, the item
    under the pointer belongs to the selection and its [selected] flag is
    set. *)
Theorem selectItems_selects_target fuel st st' :
  keyedById (State.items st) ->
  selectItems fuel st = Done st' ->
  PointerData.targetData (State.poitnerData st)
    ∈ PluginData.selected (State.data st')
  /\ exists it,
       State.items st' !! PointerData.targetData (State.poitnerData st)
       = Some it
       /\ Item.selected it = true.
Proof.
  intros Hkey (selected & multi & Hsel & Hm & ->)%selectItems_inv.
  destruct (getSelected_Done _ _ _ _ _ _ Hsel) as ([i Hi] & Hin & _).
  specialize (Hin Hkey). cbn [State.data State.items withSelection
    PluginData.selected]. split; [done|].
  rewrite (selectItems_store _ _ _ Hm), Hi. cbn [fmap option_fmap option_map].
  eexists. split; [done|]. cbn [Item.setSelected Item.selected].
  apply bool_decide_eq_true_2. unfold idsOf. apply list_elem_of_omap.
  exists (PointerData.targetData (State.poitnerData st)). split; [done|].
  rewrite Hi. cbn. f_equal. by apply Hkey.
Qed.

Lemma keyedById_plainItems : keyedById plainItems.
Proof.
  intros k it Hit. unfold plainItems in Hit.
  apply lookup_insert_Some in Hit as [[<- <-]|[_ Hit]]; [done|].
  by apply lookup_singleton_Some in Hit as [<- <-].
Qed.

Lemma selectItems_selects_target_witness :
  PointerData.targetData (State.poitnerData commitState)
    ∈ PluginData.selected (State.data commitResult)
  /\ exists it,
       State.items commitResult
         !! PointerData.targetData (State.poitnerData commitState) = Some it
       /\ Item.selected it = true.
Proof.
  apply (selectItems_selects_target 1 commitState commitResult).
  - apply keyedById_plainItems.
  - vm_compute. reflexivity.
Defined.

(** ** What a pointer update leaves alone *)

(** X19.  Whatever the pointer data, handling it changes no pointer data and no
    option; the pointer state, the target type and the down event are copied
    from the pointer data; the items of the store keep their keys, ids and
    links, so that only [selected] flags change; and the subscribers of the
    item paths are notified at most once, with the store as it is left. *)
Theorem onPointerData_frame fuel st st' :
  onPointerData fuel st = Done st' ->
  State.poitnerData st' = State.poitnerData st
  /\ PluginData.cells (State.data st') = PluginData.cells (State.data st)
  /\ PluginData.items (State.data st') = PluginData.items (State.data st)
  /\ PluginData.pointerState (State.data st')
     = PointerData.pointerState (State.poitnerData st)
  /\ PluginData.targetType (State.data st')
     = PointerData.targetType (State.poitnerData st)
  /\ PluginData.down (State.data st') = PointerData.down (State.poitnerData st)
  /\ (forall k, option_Forall2 sameButSelected
                  (State.items st !! k) (State.items st' !! k))
  /\ (State.observed st' = State.observed st
      \/ State.observed st' = State.observed st ++ [State.items st']).
Proof.
  assert (forall k, option_Forall2 sameButSelected
                      (State.items st !! k) (State.items st !! k)) as Hrefl.
  { intros k. destruct (State.items st !! k); by constructor. }
  unfold onPointerData.
  destruct (PointerData.isMoving (State.poitnerData st)
            && bool_decide (PointerData.targetType (State.poitnerData st) = CELL)
            && PluginData.cells (State.data st)).
  { cbn [mbind Result_bind]. intros [= <-]. unfold selectCells, mirror. cbn.
    repeat (split; [done|]). split; [|by right].
    intros k. unfold Store.allSelected. rewrite lookup_fmap.
    destruct (State.items st !! k); by constructor. }
  destruct (PointerData.isMoving (State.poitnerData st)
            && bool_decide (PointerData.targetType (State.poitnerData st) = ITEM)
            && PluginData.items (State.data st)).
  { destruct (selectItems fuel st) as [st1| |] eqn:Hsel;
      cbn [mbind Result_bind]; [|done|done].
    intros [= <-].
    apply selectItems_inv in Hsel as (selected & multi & _ & Hm & ->).
    unfold mirror. cbn. repeat (split; [done|]). split; [|by right].
    intros k. rewrite (selectItems_store _ _ _ Hm).
    destruct (State.items st !! k); by constructor. }
  destruct (negb (PointerData.isMoving (State.poitnerData st)));
    cbn [mbind Result_bind]; intros [= <-]; unfold mirror; cbn;
    repeat (split; [done|]); try (split; [apply Hrefl|]); by left.
Qed.

Lemma onPointerData_frame_witness :
  State.poitnerData (mirror commitResult) = State.poitnerData commitState
  /\ PluginData.cells (State.data (mirror commitResult))
     = PluginData.cells (State.data commitState)
  /\ PluginData.items (State.data (mirror commitResult))
     = PluginData.items (State.data commitState)
  /\ PluginData.pointerState (State.data (mirror commitResult))
     = PointerData.pointerState (State.poitnerData commitState)
  /\ PluginData.targetType (State.data (mirror commitResult))
     = PointerData.targetType (State.poitnerData commitState)
  /\ PluginData.down (State.data (mirror commitResult))
     = PointerData.down (State.poitnerData commitState)
  /\ (forall k, option_Forall2 sameButSelected
                  (State.items commitState !! k)
                  (State.items (mirror commitResult) !! k))
  /\ (State.observed (mirror commitResult) = State.observed commitState
      \/ State.observed (mirror commitResult)
         = State.observed commitState ++ [State.items (mirror commitResult)]).
Proof.
  apply (onPointerData_frame 1 commitState (mirror commitResult)).
  vm_compute. reflexivity.
Defined.

(** X20.  Pointer data that starts no selection (the pointer does not move, or it
    moves over something whose selection is switched off) touches neither the
    store nor the selection: no subscriber is notified, the selected items
    and the selection area stay, and the overlay stays on only while the
    pointer moves. *)
Theorem onPointerData_without_selection fuel st :
  selects st = false ->
  exists st',
    onPointerData fuel st = Done st'
    /\ State.items st' = State.items st
    /\ State.observed st' = State.observed st
    /\ PluginData.selected (State.data st')
       = PluginData.selected (State.data st)
    /\ PluginData.selectionArea (State.data st')
       = PluginData.selectionArea (State.data st)
    /\ PluginData.isSelecting (State.data st')
       = PluginData.isSelecting (State.data st)
         && PointerData.isMoving (State.poitnerData st).
Proof.
  unfold selects, onPointerData.
  destruct (PointerData.isMoving (State.poitnerData st));
    destruct (PointerData.targetType (State.poitnerData st));
    destruct (PluginData.cells (State.data st));
    destruct (PluginData.items (State.data st)); cbn;
    try discriminate; intros _; eexists; (split; [reflexivity|]); cbn;
    repeat split; try done; by destruct (PluginData.isSelecting (State.data st)).
Qed.

Lemma onPointerData_without_selection_witness :
  exists st',
    onPointerData 1 releasedState = Done st'
    /\ State.items st' = State.items releasedState
    /\ State.observed st' = State.observed releasedState
    /\ PluginData.selected (State.data st')
       = PluginData.selected (State.data releasedState)
    /\ PluginData.selectionArea (State.data st')
       = PluginData.selectionArea (State.data releasedState)
    /\ PluginData.isSelecting (State.data st')
       = PluginData.isSelecting (State.data releasedState)
         && PointerData.isMoving (State.poitnerData releasedState).
Proof.
  apply (onPointerData_without_selection 1 releasedState). reflexivity.
Defined.

(** ** The order of an additive selection *)

Lemma setValues_ext values : forall seen seen',
  (forall x, x ∈ seen <-> x ∈ seen') ->
  setValues seen values = setValues seen' values.
Proof.
  induction values as [|v rest IH]; intros seen seen' Hsame; cbn [setValues];
    [done|].
  rewrite (bool_decide_ext _ _ (Hsame v)). case_bool_decide; [by apply IH|].
  f_equal. apply IH. intros x. rewrite !elem_of_cons, Hsame. done.
Qed.

Lemma setValues_app_NoDup values : forall seen rest,
  NoDup values -> (forall x, x ∈ values -> x ∉ seen) ->
  setValues seen (values ++ rest) = values ++ setValues (values ++ seen) rest.
Proof.
  induction values as [|v values IH]; intros seen rest Hnd Hfresh; [done|].
  apply NoDup_cons in Hnd as [Hv Hnd]. cbn [app setValues].
  rewrite bool_decide_eq_false_2 by (apply Hfresh; left). f_equal.
  rewrite IH; [|done|].
  - f_equal. apply setValues_ext. intros x.
    rewrite !elem_of_app, !elem_of_cons, !elem_of_app. tauto.
  - intros x Hx. apply not_elem_of_cons. split; [by intros ->|].
    apply Hfresh. by right.
Qed.

(** X21.  With ctrl held and a target that no selected item has the id of, the
    previous selection (when it is without duplicates) stays in front, in its
    order; behind it come the items of the target's closure that were not
    selected, each once, in the order of the closure, the target first. *)
Theorem getSelected_ctrl_order items fuel selected item closure :
  NoDup selected ->
  findSelected items selected item = Done false ->
  collectLinkedItems items fuel item [item] = Done closure ->
  getSelected items fuel selected (Some true) item
  = Done (selected ++ setValues selected closure)
  /\ head (setValues selected closure) = Some item
  /\ NoDup (selected ++ setValues selected closure).
Proof.
  intros Hnd Hfind Hrun. unfold getSelected.
  rewrite Hfind. cbn [mbind Result_bind]. rewrite Hrun. cbn [mbind Result_bind].
  rewrite setValues_app_NoDup; [|done|by intros x _; apply not_elem_of_nil].
  rewrite app_nil_r. split; [done|].
  destruct (findSelected_false _ _ _ Hfind) as [_ Hnot].
  destruct (collectLinkedItems_Done _ _ _ _ _ Hrun) as (_ & extra & -> & _).
  split.
  - cbn [app setValues]. by rewrite bool_decide_eq_false_2.
  - apply NoDup_app. split; [done|]. split; [|apply setValues_NoDup].
    intros x Hx [_ Hn]%setValues_elem. done.
Qed.

Lemma getSelected_ctrl_order_witness :
  getSelected diamondItems 3 ["D"] (Some true) "B"
  = Done (["D"] ++ setValues ["D"] ["B"; "D"])
  /\ head (setValues ["D"] ["B"; "D"]) = Some "B"
  /\ NoDup (["D"] ++ setValues ["D"] ["B"; "D"]).
Proof.
  apply (getSelected_ctrl_order diamondItems 3 ["D"] "B" ["B"; "D"]).
  - apply NoDup_singleton.
  - vm_compute. reflexivity.
  - vm_compute. reflexivity.
Defined.

(** ** Handling the same pointer data again *)

Lemma findSelected_ext items items' selected item :
  (forall k, option_Forall2 sameButSelected (items !! k) (items' !! k)) ->
  findSelected items' selected item = findSelected items selected item.
Proof.
  intros Hsame. induction selected as [|s rest IH]; cbn [findSelected]; [done|].
  destruct (Hsame s) as [si si' [Hid _]|]; [|done].
  destruct (Hsame item) as [i i' [Hid' _]|]; [|done].
  rewrite IH, Hid, Hid'. done.
Qed.

Lemma selectEach_ext items items' selected : forall multi,
  (forall k, option_Forall2 sameButSelected (items !! k) (items' !! k)) ->
  selectEach items' selected multi = selectEach items selected multi.
Proof.
  intros multi Hsame. revert multi.
  induction selected as [|s rest IH]; intros multi; cbn [selectEach]; [done|].
  destruct (Hsame s) as [si si' [Hid _]|]; [|done].
  rewrite IH, Hid. done.
Qed.

Lemma selectEach_any items selected : forall multi multi' other,
  selectEach items selected multi = Done multi' ->
  exists other', selectEach items selected other = Done other'.
Proof.
  induction selected as [|s rest IH]; intros multi multi' other;
    cbn [selectEach]; [by exists other|].
  destruct (items !! s); [|done]. apply IH.
Qed.

(** X22.  The plugin handles every pointer move of a drag.  When the same pointer
    data is committed again, the selection and the store stay as the first
    commit left them, whatever the links and the ctrl key: the target is
    found selected, so that no closure is computed and nothing is added; the
    subscribers are notified once more, with the same store. *)
Theorem selectItems_again fuel st st' :
  selectItems fuel st = Done st' ->
  selectItems fuel st' = Done (renotified st').
Proof.
  intros (selected & multi & Hsel & Hm & ->)%selectItems_inv.
  destruct (getSelected_Done _ _ _ _ _ _ Hsel) as (_ & _ & Hfound).
  assert (forall k, option_Forall2 sameButSelected
                      (State.items st !! k) (Store.store multi !! k)) as Hsame.
  { intros k. rewrite (selectItems_store _ _ _ Hm).
    destruct (State.items st !! k); by constructor. }
  destruct (selectEach_any _ _ _ _
              (Store.mkMulti (Store.allSelected false (Store.store multi))) Hm)
    as [multi2 Hm2].
  assert (Store.store multi2 = Store.store multi) as Hstore.
  { apply map_eq. intros k. rewrite (selectEach_store _ _ _ _ Hm2 k).
    cbn [Store.store]. unfold Store.allSelected.
    rewrite lookup_fmap, (selectItems_store _ _ _ Hm).
    case_bool_decide; by destruct (State.items st !! k). }
  unfold selectItems, renotified.
  cbn [State.data State.poitnerData State.items State.observed
       PluginData.selected withPositions withSelection].
  unfold getSelected. rewrite (findSelected_ext _ _ _ _ Hsame), Hfound.
  cbn [mbind Result_bind setData State.items State.observed State.data
       State.poitnerData Store.multi Store.multiUpdate Store.store].
  rewrite (selectEach_ext _ _ _ _ Hsame).
  change (Store.multiUpdate (Store.allSelected false)
            (Store.multi (Store.store multi)))
    with (Store.mkMulti (Store.allSelected false (Store.store multi))).
  rewrite Hm2. cbn [mbind Result_bind].
  unfold setStore, Store.done. cbn. by rewrite Hstore.
Qed.

Lemma selectItems_again_witness :
  selectItems 1 commitResult = Done (renotified commitResult).
Proof.
  apply (selectItems_again 1 commitState commitResult).
  vm_compute. reflexivity.
Defined.

End SelectionProofs.

(** * Properties of the default configuration *)

Module DefaultConfigProofs.

Import DefaultConfig.

Lemma chosen_table :
  forallb (fun v => bool_decide (chosen v = englishSuffix v))
    (seqZ (-99) 199) = true.
Proof. vm_compute. reflexivity. Qed.

Lemma chosen_spec v : -100 < v < 100 -> chosen v = englishSuffix v.
Proof.
  intros Hv. pose proof chosen_table as Htable.
  rewrite forallb_forall in Htable.
  assert (In v (seqZ (-99) 199)) as Hin
    by (apply list_elem_of_In, elem_of_seqZ; lia).
  apply Htable in Hin. by apply bool_decide_eq_true_1 in Hin.
Qed.

Lemma englishSuffix_rem n : englishSuffix (Z.rem n 100) = englishSuffix n.
Proof.
  unfold englishSuffix.
  destruct (Z.ltb_spec n 0) as [Hn|Hn].
  - pose proof (Z.rem_bound_pos_neg n 100 ltac:(lia) ltac:(lia)) as Hneg.
    destruct (Z.ltb_spec (Z.rem n 100) 0) as [Hr|Hr]; [done|].
    assert (Z.rem n 100 = 0) as -> by lia. done.
  - rewrite Z.rem_mod_nonneg by lia.
    pose proof (Z.mod_pos_bound n 100 ltac:(lia)).
    destruct (Z.ltb_spec (n mod 100) 0) as [Hr|Hr]; [lia|].
    rewrite (Z.mod_small (n mod 100) 100) by lia.
    rewrite (Z.mod_mod_divide n 100 10); [done|]. by exists 10.
Qed.

(** X23.  The ordinal of an integer is the number followed by its English suffix,
    in brackets: [st], [nd] and [rd] after a last digit 1, 2 and 3 unless the
    last two digits are 11, 12 or 13, and [th] else; below zero the suffix is
    always [th]. *)
Theorem ordinal_englishSuffix toString n :
  ordinal toString n = "[" +:+ toString n +:+ englishSuffix n +:+ "]".
Proof.
  unfold ordinal. fold (chosen (Z.rem n 100)).
  rewrite chosen_spec, englishSuffix_rem; [done|].
  pose proof (Z.rem_bound_abs n 100 ltac:(lia)). lia.
Qed.

End DefaultConfigProofs.
